(** * Canada pizza pricing analytics: harvesters and dimensional model

    A shallow embedding of the scrapers (Pizza Hut, Domino's, Pizza Pizza)
    and of the DuckDB model builder, with the properties of the
    specification stated and settled against it.

    Modelling conventions.
    - Python text is modelled by its UTF-8 bytes ([string]).  Case mapping
      and the character classes of [str.strip], [\s], [\d], [\w] are the
      ASCII ones; this agrees with Python on ASCII text and on the
      typographic quotes that occur in the lookup tables of the source.
    - JSON documents are a tagged union; a [dict] is an association list in
      document order, as [json.loads] builds it.
    - Python floats are modelled by exact decimals [m * 10^e] together with
      the two infinities and NaN; binary rounding is not modelled.
    - Exceptions are modelled by explicit result types; the thread pool is
      modelled by the order in which futures complete and, for the throttle
      flag, by an explicit interleaving of worker steps. *)

From Stdlib Require Import ZArith Ascii String List Bool Lia.
From stdpp Require Import base option list gmap strings sorting pretty.

Local Open Scope list_scope.
Local Open Scope string_scope.

(** ** Python text primitives *)

Module Text.

Definition code (c : ascii) : nat := nat_of_ascii c.

Definition in_range (lo hi : nat) (c : ascii) : bool :=
  (lo <=? code c)%nat && (code c <=? hi)%nat.

(** [str.isspace] restricted to one-byte characters below 128. *)
Definition is_space (c : ascii) : bool := in_range 9 13 c || in_range 28 32 c.
Definition is_digit (c : ascii) : bool := in_range 48 57 c.
Definition is_upper (c : ascii) : bool := in_range 65 90 c.
Definition is_lower (c : ascii) : bool := in_range 97 122 c.
Definition is_alpha (c : ascii) : bool := is_upper c || is_lower c.
Definition is_word (c : ascii) : bool :=
  is_alpha c || is_digit c || Ascii.eqb c "_".

Definition lower_char (c : ascii) : ascii :=
  if is_upper c then ascii_of_nat (code c + 32) else c.
Definition upper_char (c : ascii) : ascii :=
  if is_lower c then ascii_of_nat (code c - 32) else c.

Fixpoint map_chars (f : ascii -> ascii) (s : string) : string :=
  match s with
  | EmptyString => EmptyString
  | String c t => String (f c) (map_chars f t)
  end.

(** [s.lower()] and [s.upper()]. *)
Definition lower : string -> string := map_chars lower_char.
Definition upper : string -> string := map_chars upper_char.

Fixpoint lstrip (s : string) : string :=
  match s with
  | String c t => if is_space c then lstrip t else s
  | EmptyString => EmptyString
  end.

(** [rstrip] keeps a character when it is not a space or when something
    that is kept follows it. *)
Fixpoint rstrip (s : string) : string :=
  match s with
  | EmptyString => EmptyString
  | String c t =>
      match rstrip t with
      | EmptyString => if is_space c then EmptyString else String c EmptyString
      | t' => String c t'
      end
  end.

(** [s.strip()]. *)
Definition strip (s : string) : string := rstrip (lstrip s).

(** [needle in hay]. *)
Fixpoint contains (needle hay : string) : bool :=
  String.prefix needle hay
  || match hay with
     | EmptyString => false
     | String _ t => contains needle t
     end.

Fixpoint drop (n : nat) (s : string) : string :=
  match n, s with
  | S n', String _ t => drop n' t
  | _, _ => s
  end.

(** [s.replace(old, new)] for a non-empty [old]: occurrences are replaced
    from the left and do not overlap.  [fuel] bounds the scan by the
    length of the text. *)
Fixpoint replace_from (fuel : nat) (old new s : string) : string :=
  match fuel with
  | O => s
  | S fuel' =>
      match s with
      | EmptyString => EmptyString
      | String c t =>
          if String.prefix old s
          then new ++ replace_from fuel' old new (drop (String.length old) s)
          else String c (replace_from fuel' old new t)
      end
  end.

(** With an empty [old] Python inserts [new] around every character. *)
Fixpoint interleave (new s : string) : string :=
  match s with
  | EmptyString => new
  | String c t => new ++ String c (interleave new t)
  end.

Definition replace (old new s : string) : string :=
  match old with
  | EmptyString => interleave new s
  | _ => replace_from (String.length s) old new s
  end.

(** [s.title()]: a cased character is upper-cased when the character
    before it is not cased, and lower-cased otherwise. *)
Fixpoint title_from (prev_cased : bool) (s : string) : string :=
  match s with
  | EmptyString => EmptyString
  | String c t =>
      String (if prev_cased then lower_char c else upper_char c)
             (title_from (is_alpha c) t)
  end.

Definition title : string -> string := title_from false.

(** [s.split(sep, 1)[-1]]: what follows the first occurrence of [sep], or
    the whole text when [sep] does not occur ([sep] is not empty). *)
Fixpoint after_first (sep s : string) : option string :=
  if String.prefix sep s then Some (drop (String.length sep) s)
  else match s with
       | EmptyString => None
       | String _ t => after_first sep t
       end.

Definition split_once_last (sep s : string) : string :=
  match after_first sep s with Some r => r | None => s end.

(** The double quote, which a literal cannot contain. *)
Definition dquote : string := String (ascii_of_nat 34) EmptyString.

(** Truthiness of a text: [bool(s)]. *)
Definition nonempty (s : string) : bool :=
  match s with EmptyString => false | _ => true end.

End Text.

(** ** A backtracking matcher for the regular expressions of the source

    Python's [re] is a backtracking matcher: alternatives are tried from
    the left, repetitions are greedy, and the first success is the match.
    [run] lists the successes of an expression in that order, so the head
    of the list is Python's match.  Every expression of the source has at
    most one capturing group, so one capture is recorded. *)

Module Regex.

Inductive re : Type :=
| Eps
| Chr (p : ascii -> bool)
| Seq (r1 r2 : re)
| Alt (r1 r2 : re)
| Rep (r : re) (lo : nat) (hi : option nat)
| Grp (r : re)
| Bos
| Eos
| WordB
| Ahead (positive : bool) (r : re)
| Behind (positive : bool) (p : ascii -> bool).

(** The position of the matcher: the text before it, reversed, and the
    text after it. *)
Record cursor : Type := Cur { before : list ascii; after : list ascii }.

(** A success: where the match ends and what group 1 captured. *)
Definition success : Type := (cursor * option (list ascii))%type.

Definition test (icase : bool) (p : ascii -> bool) (c : ascii) : bool :=
  p c || (icase && (p (Text.lower_char c) || p (Text.upper_char c))).

Definition at_word_boundary (cu : cursor) : bool :=
  let w l := match l with c :: _ => Text.is_word c | [] => false end in
  xorb (w (before cu)) (w (after cu)).

(** [$] without MULTILINE: at the end, or before a final newline. *)
Definition at_end (cu : cursor) : bool :=
  match after cu with
  | [] => true
  | [c] => Ascii.eqb c (ascii_of_nat 10)
  | _ => false
  end.

(** Greedy repetition of [step] between [lo] and [hi] times.  An
    iteration that consumes nothing ends the repetition (every repeated
    expression of the source consumes at least one character). *)
Fixpoint repeat (fuel : nat) (step : success -> list success)
    (lo : nat) (hi : option nat) (s : success) : list success :=
  let stop := match lo with O => [s] | S _ => [] end in
  match fuel with
  | O => stop
  | S fuel' =>
      let again :=
        match hi with
        | Some O => []
        | _ =>
            flat_map
              (fun s' =>
                 if (List.length (after (fst s')) <? List.length (after (fst s)))%nat
                 then repeat fuel' step (Nat.pred lo) (Nat.pred <$> hi) s'
                 else match lo with
                      | S O => [s']
                      | _ => []
                      end)
              (step s)
        end in
      again ++ stop
  end.

Fixpoint run (icase : bool) (r : re) (s : success) : list success :=
  let '(cu, cap) := s in
  match r with
  | Eps => [s]
  | Chr p =>
      match after cu with
      | c :: t => if test icase p c then [(Cur (c :: before cu) t, cap)] else []
      | [] => []
      end
  | Seq r1 r2 => flat_map (run icase r2) (run icase r1 s)
  | Alt r1 r2 => run icase r1 s ++ run icase r2 s
  | Rep r lo hi => repeat (S (List.length (after cu))) (run icase r) lo hi s
  | Grp r =>
      List.map
        (fun s' : success =>
           let n := (List.length (after cu) - List.length (after (fst s')))%nat in
           (fst s', Some (firstn n (after cu))))
        (run icase r s)
  | Bos => match before cu with [] => [s] | _ => [] end
  | Eos => if at_end cu then [s] else []
  | WordB => if at_word_boundary cu then [s] else []
  | Ahead positive r =>
      match run icase r s with
      | [] => if positive then [] else [s]
      | _ :: _ => if positive then [s] else []
      end
  | Behind positive p =>
      match before cu with
      | c :: _ => if Bool.eqb (test icase p c) positive then [s] else []
      | [] => if positive then [] else [s]
      end
  end.

(** A match: the text before it (reversed), the matched text's end
    cursor, and group 1. *)
Record found : Type :=
  Found { m_start : cursor; m_end : cursor; m_group : option (list ascii) }.

(** [pattern.match]: at the given cursor only. *)
Definition match_at (icase : bool) (r : re) (cu : cursor) : option found :=
  match run icase r (cu, None) with
  | (e, g) :: _ => Some (Found cu e g)
  | [] => None
  end.

(** [pattern.search]: the leftmost position with a success. *)
Fixpoint search_from (fuel : nat) (icase : bool) (r : re) (cu : cursor)
    : option found :=
  match match_at icase r cu with
  | Some f => Some f
  | None =>
      match fuel, after cu with
      | S fuel', c :: t => search_from fuel' icase r (Cur (c :: before cu) t)
      | _, _ => None
      end
  end.

Definition start (s : string) : cursor := Cur [] (list_ascii_of_string s).

Definition search (icase : bool) (r : re) (s : string) : option found :=
  search_from (String.length s) icase r (start s).

Definition rmatch (icase : bool) (r : re) (s : string) : option found :=
  match_at icase r (start s).

(** [m.group(1)]; a group that took no part in the match reads as the
    empty text here (the source only reads groups that took part). *)
Definition group1 (f : found) : string :=
  match m_group f with
  | Some g => string_of_list_ascii g
  | None => EmptyString
  end.

(** The text between two cursors of the same scan. *)
Definition between (a b : cursor) : list ascii :=
  firstn (List.length (after a) - List.length (after b)) (after a).

(** [re.sub(r, repl, s)] and [re.split(r, s)] for expressions that never
    match the empty text (all those of the source): after a match the
    scan resumes at its end. *)
Fixpoint sub_from (fuel : nat) (icase : bool) (r : re) (repl : list ascii)
    (cu : cursor) : list ascii :=
  match fuel with
  | O => after cu
  | S fuel' =>
      match search_from (List.length (after cu)) icase r cu with
      | None => after cu
      | Some f =>
          between cu (m_start f) ++ repl
          ++ (if (List.length (after (m_end f)) <? List.length (after cu))%nat
              then sub_from fuel' icase r repl (m_end f)
              else after (m_end f))
      end
  end.

Definition sub (icase : bool) (r : re) (repl s : string) : string :=
  string_of_list_ascii
    (sub_from (S (String.length s)) icase r (list_ascii_of_string repl) (start s)).

Fixpoint split_from (fuel : nat) (icase : bool) (r : re) (cu : cursor)
    : list string :=
  match fuel with
  | O => [string_of_list_ascii (after cu)]
  | S fuel' =>
      match search_from (List.length (after cu)) icase r cu with
      | None => [string_of_list_ascii (after cu)]
      | Some f =>
          string_of_list_ascii (between cu (m_start f))
          :: (if (List.length (after (m_end f)) <? List.length (after cu))%nat
              then split_from fuel' icase r (m_end f)
              else [string_of_list_ascii (after (m_end f))])
      end
  end.

Definition split (icase : bool) (r : re) (s : string) : list string :=
  split_from (S (String.length s)) icase r (start s).

(** *** Writing expressions *)

Definition chr (c : ascii) : re := Chr (Ascii.eqb c).

(** A literal text. *)
Fixpoint lit (s : string) : re :=
  match s with
  | EmptyString => Eps
  | String c EmptyString => chr c
  | String c t => Seq (chr c) (lit t)
  end.

(** [a|b|c] over literals. *)
Fixpoint alts (l : list string) : re :=
  match l with
  | [] => Ahead false Eps
  | [s] => lit s
  | s :: t => Alt (lit s) (alts t)
  end.

(** [r1|r2|...] over expressions. *)
Fixpoint alt_of (l : list re) : re :=
  match l with
  | [] => Ahead false Eps
  | [r] => r
  | r :: t => Alt r (alt_of t)
  end.

Fixpoint seq_of (l : list re) : re :=
  match l with
  | [] => Eps
  | [r] => r
  | r :: t => Seq r (seq_of t)
  end.

Definition star (r : re) : re := Rep r 0 None.
Definition plus (r : re) : re := Rep r 1 None.
Definition opt (r : re) : re := Rep r 0 (Some 1%nat).
Definition counted (r : re) (lo hi : nat) : re := Rep r lo (Some hi).

Definition digit : re := Chr Text.is_digit.
Definition space : re := Chr Text.is_space.
Definition nondigit : re := Chr (fun c => negb (Text.is_digit c)).
(** [.] without DOTALL. *)
Definition dot : re := Chr (fun c => negb (Ascii.eqb c (ascii_of_nat 10))).

End Regex.

(** ** Python numbers *)

Module Num.

Local Open Scope Z_scope.

(** A float: the decimal [m * 10^e], an infinity, or NaN. *)
Inductive pyfloat : Type :=
| Fin (m e : Z)
| Inf (negative : bool)
| NaN.

(** Trailing zeros of the mantissa move into the exponent, so that equal
    finite values have equal representations. *)
Fixpoint norm_go (fuel : nat) (m e : Z) : pyfloat :=
  match fuel with
  | O => Fin m e
  | S fuel' =>
      if (m =? 0) then Fin 0 0
      else if (m mod 10 =? 0) then norm_go fuel' (m / 10) (e + 1)
      else Fin m e
  end.

Definition norm (m e : Z) : pyfloat :=
  norm_go (S (Z.to_nat (Z.log2 (Z.abs m)))) m e.

(** The largest magnitude that still rounds to a finite double, and the
    largest that rounds to zero. *)
Definition overflow_bound : Z := 2 ^ 1024 - 2 ^ 970.

Definition too_big (m e : Z) : bool :=
  if 0 <=? e then overflow_bound <=? Z.abs m * 10 ^ e
  else overflow_bound * 10 ^ (- e) <=? Z.abs m.

Definition too_small (m e : Z) : bool :=
  (e <? 0) && (Z.abs m * 2 ^ 1075 <=? 10 ^ (- e)).

(** The double nearest to a decimal, up to binary rounding. *)
Definition of_decimal (m e : Z) : pyfloat :=
  if too_big m e then Inf (m <? 0)
  else if too_small m e then Fin 0 0
  else norm m e.

(** [float(z)] of an [int]: [None] stands for OverflowError. *)
Definition float_of_int (z : Z) : option pyfloat :=
  if too_big z 0 then None else Some (norm z 0).

Definition is_zero (f : pyfloat) : bool :=
  match f with Fin m _ => m =? 0 | _ => false end.


(** [x / 100.0]. *)
Definition div100 (f : pyfloat) : pyfloat :=
  match f with
  | Fin m e => of_decimal m (e - 2)
  | _ => f
  end.

(** [round(x, 2)]: to the nearest multiple of 0.01, ties to even, taken
    on the decimal value. *)
Definition round2 (f : pyfloat) : pyfloat :=
  match f with
  | Fin m e =>
      if -2 <=? e then f
      else
        let k := 10 ^ (- e - 2) in
        let q := m / k in
        let r := m mod k in
        let q' := if 2 * r <? k then q
                  else if k <? 2 * r then q + 1
                  else if Z.even q then q else q + 1 in
        norm q' (-2)
  | _ => f
  end.

(** [int(x)] of a float truncates; [None] stands for the OverflowError
    and ValueError of infinities and NaN. *)
Definition trunc (f : pyfloat) : option Z :=
  match f with
  | Fin m e => Some (if 0 <=? e then m * 10 ^ e else Z.quot m (10 ^ (- e)))
  | _ => None
  end.

(** *** Reading numbers from text *)

Definition digit_val (c : ascii) : Z := Z.of_nat (Text.code c) - 48.

(** A digit part: digits, with single underscores allowed between them.
    Returns the value, the number of digits and the rest. *)
Fixpoint digits_go (acc : Z) (n : Z) (l : list ascii) : Z * Z * list ascii :=
  match l with
  | c :: t =>
      if Text.is_digit c then digits_go (10 * acc + digit_val c) (n + 1) t
      else if Ascii.eqb c "_" then
        match t with
        | d :: _ => if Text.is_digit d then digits_go acc n t else (acc, n, l)
        | [] => (acc, n, l)
        end
      else (acc, n, l)
  | [] => (acc, n, l)
  end.

(** A digit part must start with a digit; otherwise it is absent. *)
Definition digitpart (acc : Z) (l : list ascii) : option (Z * Z * list ascii) :=
  match l with
  | c :: _ => if Text.is_digit c then Some (digits_go acc 0 l) else None
  | [] => None
  end.

Definition sign_of (l : list ascii) : bool * list ascii :=
  match l with
  | c :: t =>
      if Ascii.eqb c "-" then (true, t)
      else if Ascii.eqb c "+" then (false, t)
      else (false, l)
  | [] => (false, l)
  end.

Definition signed (negative : bool) (z : Z) : Z := if negative then - z else z.

(** The exponent part [e[+-]digits], or nothing. *)
Definition exponent (l : list ascii) : option (Z * list ascii) :=
  match l with
  | c :: t =>
      if Ascii.eqb (Text.lower_char c) "e" then
        let '(neg, t') := sign_of t in
        match digitpart 0 t' with
        | Some (v, _, rest) => Some (signed neg v, rest)
        | None => None
        end
      else Some (0, l)
  | [] => Some (0, l)
  end.

(** [float(s)] of a text: [None] stands for ValueError. *)
Definition parse_float (s : string) : option pyfloat :=
  let '(neg, body) := sign_of (list_ascii_of_string (Text.strip s)) in
  let word := Text.lower (string_of_list_ascii body) in
  if String.eqb word "inf" || String.eqb word "infinity" then Some (Inf neg)
  else if String.eqb word "nan" then Some NaN
  else
    let ip := digitpart 0 body in
    let '(iv, after_int) :=
      match ip with Some (v, _, rest) => (v, rest) | None => (0, body) end in
    let '(mant, nfrac, has_frac, after_frac) :=
      match after_int with
      | c :: t =>
          if Ascii.eqb c "." then
            match digitpart iv t with
            | Some (v, n, rest) => (v, n, true, rest)
            | None => (iv, 0, false, t)
            end
          else (iv, 0, false, after_int)
      | [] => (iv, 0, false, after_int)
      end in
    if match ip with Some _ => false | None => true end && negb has_frac then None
    else
      match exponent after_frac with
      | Some (ex, []) => Some (of_decimal (signed neg mant) (ex - nfrac))
      | _ => None
      end.

(** [int(s)] of a text: [None] stands for ValueError. *)
Definition parse_int (s : string) : option Z :=
  let '(neg, body) := sign_of (list_ascii_of_string (Text.strip s)) in
  match digitpart 0 body with
  | Some (v, _, []) => Some (signed neg v)
  | _ => None
  end.

(** *** Writing numbers as text *)

Fixpoint zeros (n : nat) : string :=
  match n with O => EmptyString | S n' => String "0" (zeros n') end.

(** [repr(x)] of a float whose decimal has at most 17 digits. *)
Definition repr_float (f : pyfloat) : string :=
  match f with
  | NaN => "nan"
  | Inf negative => if negative then "-inf" else "inf"
  | Fin m e =>
      if m =? 0 then "0.0"
      else
        let sign := if m <? 0 then "-" else "" in
        let ds := pretty (Z.abs m) in
        let n := Z.of_nat (String.length ds) in
        let decpt := n + e in
        if (-4 <? decpt) && (decpt <=? 16) then
          if decpt <=? 0 then sign ++ "0." ++ zeros (Z.to_nat (- decpt)) ++ ds
          else if n <=? decpt then sign ++ ds ++ zeros (Z.to_nat (decpt - n)) ++ ".0"
          else sign ++ String.substring 0 (Z.to_nat decpt) ds ++ "."
               ++ Text.drop (Z.to_nat decpt) ds
        else
          let x := decpt - 1 in
          let xs := pretty (Z.abs x) in
          sign ++ String.substring 0 1 ds
          ++ (if 1 <? n then "." ++ Text.drop 1 ds else "")
          ++ "e" ++ (if x <? 0 then "-" else "+")
          ++ (if Z.abs x <? 10 then "0" else "") ++ xs
  end.

(** [f"{n:03d}"]. *)
Definition pad3 (n : nat) : string :=
  let ds := pretty n in zeros (3 - String.length ds) ++ ds.

End Num.

(** ** JSON documents as Python values *)

Module Json.

Import Num.

Local Set Warnings "-register-all".

Inductive json : Type :=
| JNull
| JBool (b : bool)
| JInt (z : Z)
| JFloat (f : pyfloat)
| JStr (s : string)
| JList (l : list json)
| JDict (d : list (string * json)).

(** A [dict]: keys in document order. *)
Definition dict : Type := list (string * json).

(** [bool(x)]. *)
Definition truthy (x : json) : bool :=
  match x with
  | JNull => false
  | JBool b => b
  | JInt z => negb (z =? 0)%Z
  | JFloat f => negb (is_zero f)
  | JStr s => Text.nonempty s
  | JList l => match l with [] => false | _ => true end
  | JDict d => match d with [] => false | _ => true end
  end.

(** [a or b]. *)
Definition por (a b : json) : json := if truthy a then a else b.

Fixpoint lookup (k : string) (d : dict) : option json :=
  match d with
  | [] => None
  | (k', v) :: t => if String.eqb k k' then Some v else lookup k t
  end.

(** [k in d]. *)
Definition has_key (k : string) (d : dict) : bool :=
  match lookup k d with Some _ => true | None => false end.

(** [d.get(k)] and [d.get(k, default)]. *)
Definition get (d : dict) (k : string) : json :=
  match lookup k d with Some v => v | None => JNull end.

Definition get_or (d : dict) (k : string) (default : json) : json :=
  match lookup k d with Some v => v | None => default end.

Definition keys (d : dict) : list string := List.map fst d.
Definition values (d : dict) : list json := List.map snd d.

(** [isinstance(x, (int, float))]; a [bool] is an [int]. *)
Definition is_number (x : json) : bool :=
  match x with
  | JBool _ | JInt _ | JFloat _ => true
  | _ => false
  end.

(** [float(x)] of a number: [None] stands for OverflowError. *)
Definition to_float (x : json) : option pyfloat :=
  match x with
  | JBool b => Some (if b then Fin 1 0 else Fin 0 0)
  | JInt z => float_of_int z
  | JFloat f => Some f
  | _ => None
  end.

(** *** [str(x)] and [repr(x)] *)

Definition hex_digit (n : nat) : ascii :=
  ascii_of_nat (if (n <? 10)%nat then 48 + n else 87 + n).

Definition repr_char (quote : ascii) (c : ascii) : string :=
  let n := Text.code c in
  if Ascii.eqb c quote || Ascii.eqb c "\" then String "\" (String c EmptyString)
  else if (n =? 9)%nat then "\t"
  else if (n =? 10)%nat then "\n"
  else if (n =? 13)%nat then "\r"
  else if (n <? 32)%nat || (n =? 127)%nat then
    "\x" ++ String (hex_digit (n / 16)) (String (hex_digit (n mod 16)) EmptyString)
  else String c EmptyString.

Fixpoint concat_map (f : ascii -> string) (s : string) : string :=
  match s with
  | EmptyString => EmptyString
  | String c t => f c ++ concat_map f t
  end.

Definition apostrophe : ascii := ascii_of_nat 39.

(** [repr(s)] of a text: single quotes, unless the text has a single
    quote and no double quote. *)
Definition repr_str (s : string) : string :=
  let q := if Text.contains (String apostrophe EmptyString) s
              && negb (Text.contains Text.dquote s)
           then ascii_of_nat 34 else apostrophe in
  String q (concat_map (repr_char q) s) ++ String q EmptyString.

Fixpoint repr (x : json) : string :=
  match x with
  | JNull => "None"
  | JBool b => if b then "True" else "False"
  | JInt z => pretty z
  | JFloat f => repr_float f
  | JStr s => repr_str s
  | JList l =>
      "[" ++ String.concat ", " (List.map repr l) ++ "]"
  | JDict d =>
      "{" ++ String.concat ", "
               (List.map (fun kv => (repr_str (fst kv) ++ ": " ++ repr (snd kv))%string) d)
      ++ "}"
  end.

(** [str(x)]. *)
Definition str (x : json) : string :=
  match x with
  | JStr s => s
  | _ => repr x
  end.

(** [int(x)]: [None] stands for the TypeError, ValueError or
    OverflowError that the callers catch. *)
Definition to_int (x : json) : option Z :=
  match x with
  | JBool b => Some (if b then 1 else 0)%Z
  | JInt z => Some z
  | JFloat f => trunc f
  | JStr s => parse_int s
  | _ => None
  end.

End Json.

(** ** Pizza Hut: field normalisers ([pizza_hut_scraper.py]) *)

Module PizzaHut.

Import Num Json Regex.

(** [_NUM_INCH = (?<!\d)(8|9|10|11|12|13|14|15|16|18|20|22|24)(?!\d)] *)
Definition inch_sizes : list string :=
  ["8"; "9"; "10"; "11"; "12"; "13"; "14"; "15"; "16"; "18"; "20"; "22"; "24"].

Definition _NUM_INCH : re :=
  Seq (Behind false Text.is_digit)
      (Seq (Grp (alts inch_sizes)) (Ahead false digit)).

(** The text [normalize_size] examines: the value, or the fallback when
    the value is empty. *)
Definition size_text (size_val : json) (fallback_from_text : string) : string :=
  let s := Text.replace "_" "-"
             (Text.lower (Text.strip (if truthy size_val then str size_val else ""))) in
  if negb (Text.nonempty s) && Text.nonempty fallback_from_text
  then Text.lower (Text.strip fallback_from_text) else s.

(** The named tiers, in the order they are tested. *)
Definition named_tier (s : string) : option string :=
  if Text.contains "personal" s then Some "Personal"
  else if Text.contains "small" s then Some "Small"
  else if Text.contains "medium" s then Some "Medium"
  else if Text.contains "large" s then Some "Large"
  else if existsb (fun x => Text.contains x s) ["x-large"; "xlarge"; "xl"]
  then Some "X-Large"
  else None.

(** [normalize_size(size_val, fallback_from_text)] *)
Definition normalize_size (size_val : json) (fallback_from_text : string) : string :=
  let s := size_text size_val fallback_from_text in
  match search false _NUM_INCH s with
  | Some m => group1 m ++ Text.dquote
  | None =>
      match named_tier s with
      | Some tier => tier
      | None => "Medium"
      end
  end.

(** [re.split(r"[.\s]+", ...)] *)
Definition dots_or_spaces : re :=
  plus (Chr (fun c => Ascii.eqb c "." || Text.is_space c)).

(** [_crust_from_keyish(txt)] *)
Definition _crust_from_keyish (txt : string) : string :=
  let t := txt in
  let cand :=
    if Text.contains "Crusts." t then Text.split_once_last "Crusts." t
    else List.last (split false dots_or_spaces (Text.strip t)) "" in
  Text.title (Text.strip (Text.replace "-" " " cand)).

(** The lookup table of [normalize_crust]; the typographic apostrophe is
    U+2019. *)
Definition crust_mapping : list (string * string) :=
  [ ("hand tossed", "Hand Tossed");
    ("handcrafted", "Handcrafted");
    ("original pan", "Original Pan");
    ("pan", "Pan");
    ("stuffed", "Stuffed Crust");
    ("stuffed crust", "Stuffed Crust");
    ("thin ’n’ crispy", "Thin ’n’ Crispy");
    ("thin 'n' crispy", "Thin ’n’ Crispy");
    ("thin n crispy", "Thin ’n’ Crispy");
    ("thin", "Thin ’n’ Crispy");
    ("gluten free", "Gluten Free");
    ("regular", "Regular Dough");
    ("regular dough", "Regular Dough") ].

Fixpoint table_get (k : string) (t : list (string * string)) : option string :=
  match t with
  | [] => None
  | (k', v) :: t' => if String.eqb k k' then Some v else table_get k t'
  end.

(** [^.*Crusts\.] with [re.I] *)
Definition crusts_prefix : re := Seq Bos (Seq (star dot) (lit "Crusts.")).

(** The text [normalize_crust] looks up, once the input is chosen. *)
Definition clean_crust (s : string) : string :=
  Text.strip (Text.replace "." " " (sub true crusts_prefix "" s)).

(** [normalize_crust(crust_val, fallback_from_key)] *)
Definition normalize_crust (crust_val : json) (fallback_from_key : string) : string :=
  let chosen :=
    if truthy crust_val then Some (Text.strip (str crust_val))
    else if Text.nonempty fallback_from_key
         then Some (_crust_from_keyish fallback_from_key)
         else None in
  match chosen with
  | None => "Regular Dough"
  | Some s0 =>
      let s := clean_crust s0 in
      let low := Text.lower s in
      if negb (Text.nonempty low) then "Regular Dough"
      else match table_get low crust_mapping with
           | Some v => v
           | None => Text.title s
           end
  end.

(** [cents_to_dollars(v)]: [None] when [int(v)] or the division raises. *)
Definition cents_to_dollars (v : json) : option pyfloat :=
  match to_int v with
  | Some iv =>
      match float_of_int iv with
      | Some f => Some (round2 (div100 f))
      | None => None
      end
  | None => None
  end.

(** What [price_from_variant] yields: a number, the empty text, or the
    OverflowError of [float(...)] on an integer beyond the doubles. *)
Inductive price : Type :=
| Price (f : pyfloat)
| NoPrice
| PriceError.

(** [round(float(x), 2)] for a number [x]. *)
Definition rounded (x : json) : price :=
  match to_float x with
  | Some f => Price (round2 f)
  | None => PriceError
  end.

(** The first of the keys whose value in [d] is a number. *)
Fixpoint first_number (ks : list string) (d : dict) : option json :=
  match ks with
  | [] => None
  | k :: ks' =>
      match lookup k d with
      | Some x => if is_number x then Some x else first_number ks' d
      | None => first_number ks' d
      end
  end.

(** [cents_to_dollars(d[k])] when [k in d] and the conversion succeeds. *)
Definition cents_at (k : string) (d : dict) : option pyfloat :=
  match lookup k d with
  | Some x => cents_to_dollars x
  | None => None
  end.

(** The product-level fallback of [price_from_variant]. *)
Definition price_from_product (prod : dict) : price :=
  if is_number (get prod "price") then rounded (get prod "price")
  else
    match lookup "priceCents" prod with
    | Some (JInt z) =>
        match cents_to_dollars (JInt z) with Some f => Price f | None => NoPrice end
    | Some (JBool b) =>
        match cents_to_dollars (JBool b) with Some f => Price f | None => NoPrice end
    | _ => NoPrice
    end.

(** [price_from_variant(v, prod)] *)
Definition price_from_variant (v : dict) (prod : option dict) : price :=
  let cand := get v "price" in
  if is_number cand then rounded cand
  else
    let nested :=
      match cand with
      | JDict c =>
          match first_number ["amount"; "value"; "price"] c with
          | Some x => Some (rounded x)
          | None =>
              match cents_at "cents" c with
              | Some f => Some (Price f)
              | None => None
              end
          end
      | _ => None
      end in
    match nested with
    | Some p => p
    | None =>
        match first_number ["unitPrice"; "value"; "amount"] v with
        | Some x => rounded x
        | None =>
            match cents_at "priceCents" v with
            | Some f => Price f
            | None =>
                match prod with
                | Some p => if truthy (JDict p) then price_from_product p else NoPrice
                | None => NoPrice
                end
            end
        end
    end.

End PizzaHut.

(** ** The canonical output row shared by the three scrapers *)

Module Schema.

(** One CSV row; every cell is the text the writer emits. *)
Record row : Type := Row {
  chain_key : string;
  store_key : string;
  city : string;
  province : string;
  category : string;
  recipe : string;
  product_key : string;
  size : string;
  crust : string;
  price : string;
  date_key : string;
  month : string;
  year : string
}.

(** How a worker's attempt at one store ends: with rows, or with an
    exception. *)
Inductive attempt (A : Type) : Type :=
| Returned (rows : list A)
| Raised (message : string).
Arguments Returned {A} rows.
Arguments Raised {A} message.

(** [len({r["store_key"] for r in rows})] *)
Definition store_count (rows : list row) : nat :=
  base.size (list_to_set (List.map store_key rows) : gset string).

End Schema.

(** ** Pizza Hut: throttle flag, workers and the blast loop *)

Module PizzaHutRun.

Import Json Schema.

(** What the HTTP transport does with one request. *)
Inductive response : Type :=
| ConnectionError
| RetryError
| OtherFailure                          (* any other exception of [get] *)
| Status (code : Z) (body : option json). (* [body]: [r.json()], if it parses *)

(** What a call of [fetch_json] does for its caller. *)
Inductive fetched : Type :=
| Parsed (data : option json)   (* the parsed JSON, or [None] *)
| RaisedThrottled
| RaisedOther.

Definition is_throttle_status (c : Z) : bool := (c =? 429)%Z || (c =? 403)%Z.

(** The part of [fetch_json] after the request: the new flag and the
    result. *)
Definition handle_response (r : response) : bool * fetched :=
  match r with
  | ConnectionError => (true, RaisedThrottled)
  | RetryError => (false, Parsed None)
  | OtherFailure => (false, RaisedOther)
  | Status c body =>
      if is_throttle_status c then (true, RaisedThrottled)
      else if (c =? 400)%Z || (c =? 404)%Z || (500 <=? c)%Z then (false, Parsed None)
      else if (400 <=? c)%Z then (false, RaisedOther)  (* [raise_for_status] *)
      else (false, Parsed body)
  end.

(** [fetch_json] run without interruption: flag before, response of the
    transport; flag after, result, and whether a request was sent. *)
Definition fetch_json (stop : bool) (r : response) : bool * fetched * bool :=
  if stop then (stop, RaisedThrottled, false)
  else let '(set, res) := handle_response r in (stop || set, res, true).

(** *** One wave of workers, step by step

    A pool worker runs [fetch_json] calls one after the other.  Between
    the test of [STOP_FLAG] and the request, and between the request and
    its response, other threads run. *)

Inductive pc : Type :=
| Idle       (* outside [fetch_json] *)
| Checked    (* found the flag clear; request not sent yet *)
| Waiting.   (* request sent *)

Inductive action : Type :=
| Enter (w : nat)                  (* worker [w] calls [fetch_json] *)
| Send (w : nat)                   (* worker [w] sends its request *)
| Receive (w : nat) (r : response) (* the transport answers worker [w] *)
| MainSet.                         (* the main thread: [STOP_FLAG.set()] *)

Inductive event : Type :=
| Requested (w : nat) (flag_was_set : bool)
| Refused (w : nat).               (* [fetch_json] raised without a request *)

Record pool : Type := Pool {
  stop_flag : bool;
  workers : list pc;
  events : list event   (* latest first *)
}.

(** The pool of a wave as [blast_all] starts it: flag cleared. *)
Definition fresh_pool (n : nat) : pool := Pool false (List.repeat Idle n) [].

Definition step (p : pool) (a : action) : option pool :=
  match a with
  | Enter w =>
      match workers p !! w with
      | Some Idle =>
          if stop_flag p
          then Some (Pool (stop_flag p) (workers p) (Refused w :: events p))
          else Some (Pool (stop_flag p) (<[w := Checked]> (workers p)) (events p))
      | _ => None
      end
  | Send w =>
      match workers p !! w with
      | Some Checked =>
          Some (Pool (stop_flag p) (<[w := Waiting]> (workers p))
                     (Requested w (stop_flag p) :: events p))
      | _ => None
      end
  | Receive w r =>
      match workers p !! w with
      | Some Waiting =>
          Some (Pool (stop_flag p || fst (handle_response r))
                     (<[w := Idle]> (workers p)) (events p))
      | _ => None
      end
  | MainSet => Some (Pool true (workers p) (events p))
  end.

(** An interleaving is a list of actions; [None] when one of them is not
    enabled. *)
Fixpoint run (p : pool) (sched : list action) : option pool :=
  match sched with
  | [] => Some p
  | a :: rest =>
      match step p a with
      | Some p' => run p' rest
      | None => None
      end
  end.

(** Requests that worker [w] sent while the flag was set. *)
Definition late_requests (w : nat) (evs : list event) : nat :=
  List.length
    (List.filter
       (fun e => match e with
                 | Requested w' true => (w' =? w)%nat
                 | _ => false
                 end) evs).

Definition all_late_requests (evs : list event) : nat :=
  List.length
    (List.filter
       (fun e => match e with Requested _ true => true | _ => false end) evs).

(** *** The blast loop *)

(** How the future of one hut ends. *)
Inductive outcome : Type :=
| Scraped (rows : list row)   (* [scrape_store] returned *)
| Throttled                   (* it raised [Throttled] *)
| Failed.                     (* it raised something else *)

(** What [scrape_store] makes of a non-empty answer: rows, no product
    list (it goes on to the next parameters), or an exception of the row
    building. *)
Inductive built : Type :=
| Built (rows : list row)
| NoProductList
| BuildError.

(** The body of the loop of [scrape_store] after a fetch returned:
    [None] when the loop goes on to the next parameters. *)
Definition usable (rows_of : json -> built) (data : option json) : option outcome :=
  match data with
  | Some d =>
      if truthy d
      then match rows_of d with
           | Built rows => Some (Scraped rows)
           | NoProductList => None
           | BuildError => Some Failed
           end
      else None
  | None => None
  end.

(** [scrape_store] as far as its fetches go: the primary parameters, then
    the minimal ones when the first answer is empty or has no product
    list.  [rows_of] stands for the row building on an answer. *)
Definition scrape_store (rows_of : json -> built)
    (stop : bool) (r1 r2 : response) : bool * outcome :=
  let '(stop1, res1, _) := fetch_json stop r1 in
  match res1 with
  | RaisedThrottled => (stop1, Throttled)
  | RaisedOther => (stop1, Failed)
  | Parsed data1 =>
      match usable rows_of data1 with
      | Some o => (stop1, o)
      | None =>
          let '(stop2, res2, _) := fetch_json stop1 r2 in
          match res2 with
          | RaisedThrottled => (stop2, Throttled)
          | RaisedOther => (stop2, Failed)
          | Parsed data2 =>
              (stop2, match usable rows_of data2 with
                      | Some o => o
                      | None => Scraped []
                      end)
          end
      end
  end.

Record blast : Type := Blast {
  remaining : gset string;
  pizzas_rows : list row;
  warnings : list string;   (* the ids printed by [[warn] hut ... failed] *)
  broke : bool              (* the loop left on [Throttled] *)
}.

(** The loop over [as_completed(futs)]: the [finally] clause discards the
    hut's id on every path, the [break] of the [Throttled] handler
    included.  A worker that sets [STOP_FLAG] raises [Throttled], so the
    flag is set after the pool exactly when the loop left on it. *)
Fixpoint wave_loop (completed : list (string * outcome)) (b : blast) : blast :=
  match completed with
  | [] => b
  | (sid, o) :: rest =>
      match o with
      | Scraped rows =>
          wave_loop rest
            (Blast (remaining b ∖ {[sid]}) (pizzas_rows b ++ rows) (warnings b) false)
      | Throttled =>
          Blast (remaining b ∖ {[sid]}) (pizzas_rows b) (warnings b) true
      | Failed =>
          wave_loop rest
            (Blast (remaining b ∖ {[sid]}) (pizzas_rows b) (warnings b ++ [sid]) false)
      end
  end.

(** What the caller of [blast_all] can observe. *)
Inductive trace_item : Type :=
| Wave (batch : list string)
| Cooldown.

Record blast_result : Type := BlastResult {
  result_rows : list row;
  result_warnings : list string;
  result_trace : list trace_item;
  result_left : gset string   (* empty unless the script ran out *)
}.

(** [blast_all(huts)]: [huts] are the hut ids, [script] gives for each
    wave the futures in the order they complete. *)
Fixpoint blast_loop (huts : list string) (script : list (list (string * outcome)))
    (rem : gset string) (rows : list row) (warns : list string)
    (trace : list trace_item) : blast_result :=
  if decide (rem = ∅) then BlastResult rows warns trace rem
  else
    match script with
    | [] => BlastResult rows warns trace rem
    | completed :: script' =>
        let batch := List.filter (fun h => bool_decide (h ∈ rem)) huts in
        let b := wave_loop completed (Blast rem rows warns false) in
        let cool :=
          if bool_decide (remaining b ≠ ∅) && broke b then [Cooldown] else [] in
        blast_loop huts script' (remaining b) (pizzas_rows b) (warnings b)
                   (trace ++ Wave batch :: cool)
    end.

Definition blast_all (huts : list string) (script : list (list (string * outcome)))
    : blast_result :=
  blast_loop huts script
    (list_to_set (List.filter Text.nonempty huts)) [] [] [].

(** [main]: exit status 1 when the hut list is empty. *)
Inductive run_result : Type :=
| Exit1
| Finished (csv : list row) (huts_processed : nat) (warns : list string).

Definition main (huts : list string) (script : list (list (string * outcome)))
    : run_result :=
  match huts with
  | [] => Exit1
  | _ =>
      let r := blast_all huts script in
      Finished (result_rows r) (store_count (result_rows r)) (result_warnings r)
  end.

End PizzaHutRun.

(** ** Domino's: canonicalisers and the document extractor
    ([dominos_scraper.py]) *)

Module Dominos.

Import Num Json Regex.

(** [html.unescape] and NFKC normalisation leave text without character
    references and compatibility characters unchanged; documents are
    taken in that fragment. *)
Definition html_unescape (s : string) : string := s.
Definition nfkc (s : string) : string := s.

(** [tidy(t)] *)
Definition tidy (t : json) : string :=
  match t with
  | JNull => ""
  | _ => Text.strip (sub false (plus space) " " (nfkc (html_unescape (str t))))
  end.

(** [as_float(x)]: [None] when [float(...)] raises. *)
Definition as_float (x : json) : option pyfloat :=
  parse_float (Text.replace "," "" (str x)).

(** The loop over [v.values()] of a nested price object. *)
Fixpoint first_float (vals : list json) : option pyfloat :=
  match vals with
  | [] => None
  | v :: rest =>
      match as_float v with
      | Some f => Some f
      | None => first_float rest
      end
  end.

(** The loop over [("Prices", "Pricing", "PriceInfo", "Amount", "Amounts")]. *)
Fixpoint nested_price (ks : list string) (d : dict) : option pyfloat :=
  match ks with
  | [] => None
  | k :: ks' =>
      match lookup k d with
      | Some (JDict v) =>
          match first_float (values v) with
          | Some f => Some f
          | None => nested_price ks' d
          end
      | Some v =>
          match as_float v with
          | Some f => Some f
          | None => nested_price ks' d
          end
      | None => nested_price ks' d
      end
  end.

(** The loop over [("PriceCents", "AmountCents", "Cents")]. *)
Fixpoint cents_price (ks : list string) (d : dict) : option pyfloat :=
  match ks with
  | [] => None
  | k :: ks' =>
      match lookup k d with
      | Some v =>
          match as_float v with
          | Some f => Some (round2 (div100 f))
          | None => cents_price ks' d
          end
      | None => cents_price ks' d
      end
  end.

Definition nested_keys : list string :=
  ["Prices"; "Pricing"; "PriceInfo"; "Amount"; "Amounts"].
Definition cents_keys : list string := ["PriceCents"; "AmountCents"; "Cents"].

(** [price_of(d)]: a float, or [None] for the empty text. *)
Definition price_of (d : json) : option pyfloat :=
  match d with
  | JDict d =>
      let direct :=
        match lookup "Price" d with
        | Some x => as_float x
        | None => None
        end in
      match direct with
      | Some f => Some f
      | None =>
          match nested_price nested_keys d with
          | Some f => Some f
          | None => cents_price cents_keys d
          end
      end
  | _ => None
  end.

(** *** Size parsing from names and codes *)

Definition PIZZAISH_RX : re :=
  Grp (alt_of [lit "pizza"; lit "crust";
               seq_of [lit "hand"; star space; lit "tossed"];
               lit "thin"; lit "brooklyn";
               seq_of [lit "new"; opt (chr "-"); lit "york"];
               lit "fingers"]).
Definition PIECEY_NAME_RX : re :=
  Grp (alts ["stix"; "sticks"; "bread"; "bites"; "brownie"; "wings"; "fingers"]).
Definition BEV_NAME_RX : re :=
  Grp (alt_of [lit "coke"; lit "sprite"; lit "ginger"; lit "fanta";
               seq_of [lit "root"; star space; lit "beer"];
               lit "water"; lit "fuz"; lit "zero"; lit "diet"]).

Definition found_in (r : re) (s : string) : bool :=
  match search true r s with Some _ => true | None => false end.

(** [\d+(?:\.\d+)?] *)
Definition decimal_number : re := Seq (plus digit) (opt (Seq (chr ".") (plus digit))).

(** The expressions of [parse_size_from_text], in order. *)
Definition rx_inch_mark : re := (* \b(\d{1,2})\s*(?:Q|”)\s*(?=\D|$), Q the double quote *)
  seq_of [WordB; Grp (counted digit 1 2); star space;
          Alt (lit Text.dquote) (lit "”"); star space;
          Ahead true (Alt nondigit Eos)].
Definition rx_inch_word : re :=      (* \b(\d{1,2})\s*(?:inch|in)\b *)
  seq_of [WordB; Grp (counted digit 1 2); star space;
          Alt (lit "inch") (lit "in"); WordB].
Definition rx_ml : re :=             (* \b(\d{2,4})\s*m\s*l\b *)
  seq_of [WordB; Grp (counted digit 2 4); star space; chr "m"; star space;
          chr "l"; WordB].
Definition rx_litre : re :=  (* \b(\d+(?:\.\d+)?)\s*l(?:itre|iter|iters|itres)?\b *)
  seq_of [WordB; Grp decimal_number; star space; chr "l";
          opt (alts ["itre"; "iter"; "iters"; "itres"]); WordB].
Definition rx_l : re :=              (* \b(\d+(?:\.\d+)?)\s*l\b *)
  seq_of [WordB; Grp decimal_number; star space; chr "l"; WordB].
Definition rx_dash_piece : re :=     (* \b(\d{1,3})\s*-\s*piece\b *)
  seq_of [WordB; Grp (counted digit 1 3); star space; chr "-"; star space;
          lit "piece"; WordB].
Definition rx_pc : re :=             (* \b(\d{1,3})\s*pc\b *)
  seq_of [WordB; Grp (counted digit 1 3); star space; lit "pc"; WordB].
Definition rx_pieces : re :=         (* \b(\d{1,3})\s*pieces\b *)
  seq_of [WordB; Grp (counted digit 1 3); star space; lit "pieces"; WordB].

(** The first expression of the list that is found (with its flag),
    formatted. *)
Fixpoint first_found (s : string)
    (rules : list (re * bool * (string -> string))) : string :=
  match rules with
  | [] => ""
  | (r, ic, fmt) :: rest =>
      match search ic r s with
      | Some m => fmt (group1 m)
      | None => first_found s rest
      end
  end.

(** [parse_size_from_text(name)] *)
Definition parse_size_from_text (name : string) : string :=
  if negb (Text.nonempty name) then ""
  else
    let s := Text.strip name in
    first_found s
      [ (rx_inch_mark, false, fun g => g ++ Text.dquote);
        (rx_inch_word, true, fun g => g ++ Text.dquote);
        (rx_ml, true, fun g => g ++ " mL");
        (rx_litre, true, fun g => g ++ " L");
        (rx_l, true, fun g => g ++ " L");
        (rx_dash_piece, true, fun g => g ++ "-Piece");
        (rx_pc, true, fun g => g ++ " pc");
        (rx_pieces, true, fun g => g ++ "-Piece") ].

(** The expressions of [parse_size_from_code]. *)
Definition rx_code_inches : re :=    (* ^(\d{1,2})(?=[A-Z]) *)
  seq_of [Bos; Grp (counted digit 1 2); Ahead true (Chr Text.is_upper)].
Definition rx_code_pc : re :=        (* (\d{1,3})PC *)
  Seq (Grp (counted digit 1 3)) (lit "PC").
Definition rx_code_lead : re :=      (* ^(\d{1,3}) *)
  Seq Bos (Grp (counted digit 1 3)).
Definition rx_code_tail : re :=      (* (\d{1,3})$ *)
  Seq (Grp (counted digit 1 3)) Eos.
Definition rx_code_ml : re :=        (* ^(\d{3,4}) *)
  Seq Bos (Grp (counted digit 3 4)).
Definition rx_code_l : re :=         (* ^(\d+(?:\.\d+)?)L *)
  seq_of [Bos; Grp decimal_number; chr "L"].

(** [parse_size_from_code(code, v_name, p_name)] *)
Definition parse_size_from_code (code v_name p_name : string) : string :=
  if negb (Text.nonempty code) then ""
  else
    let inches :=
      match rmatch false rx_code_inches code with
      | Some m =>
          let n := default 0%Z (parse_int (group1 m)) in
          if (6 <=? n)%Z && (n <=? 20)%Z
             && (found_in PIZZAISH_RX v_name || found_in PIZZAISH_RX p_name
                 || Text.contains "GARFIN" code)
          then Some (pretty n ++ Text.dquote)
          else None
      | None => None
      end in
    match inches with
    | Some r => r
    | None =>
        match search true rx_code_pc code with
        | Some m => group1 m ++ " pc"
        | None =>
            let piecey :=
              if found_in PIECEY_NAME_RX v_name || found_in PIECEY_NAME_RX p_name
              then match rmatch false rx_code_lead code with
                   | Some m => Some (group1 m ++ " pc")
                   | None =>
                       match search false rx_code_tail code with
                       | Some m => Some (group1 m ++ " pc")
                       | None => None
                       end
                   end
              else None in
            match piecey with
            | Some r => r
            | None =>
                if found_in BEV_NAME_RX v_name || found_in BEV_NAME_RX p_name
                then match rmatch false rx_code_ml code with
                     | Some m => group1 m ++ " mL"
                     | None =>
                         match rmatch true rx_code_l code with
                         | Some m => group1 m ++ " L"
                         | None => ""
                         end
                     end
                else ""
            end
        end
    end.

(** [fallback_size_from_keywords(name)] *)
Definition fallback_size_from_keywords (name : string) : string :=
  if negb (Text.nonempty name) then ""
  else if found_in (seq_of [WordB; lit "cup"; WordB]) name then "Cup"
  else if found_in (seq_of [WordB; lit "bag"; WordB]) name then "Bag"
  else "".

(** [a or b] on texts. *)
Definition sor (a b : string) : string := if Text.nonempty a then a else b.

(** [derive_size(v, prod, v_name, p_name, vcode)] *)
Definition derive_size (v prod : dict) (v_name p_name vcode : string) : string :=
  let size := tidy (por (get v "Size") (por (get v "SizeName") (JStr ""))) in
  let size := if negb (Text.nonempty size)
              then tidy (por (get prod "Size") (por (get prod "SizeName") (JStr "")))
              else size in
  if Text.nonempty size then size
  else
    let size := sor (parse_size_from_text v_name) (parse_size_from_text p_name) in
    if Text.nonempty size then size
    else
      let size := parse_size_from_code (sor vcode "") v_name p_name in
      if Text.nonempty size then size
      else sor (fallback_size_from_keywords v_name)
               (fallback_size_from_keywords p_name).

End Dominos.

(** ** Domino's: category index and products/variants collection *)

Module DominosExtract.

Import Num Json Dominos Schema.

(** A loop whose body may raise: the first failure ends it. *)
Fixpoint each {A S : Type} (body : A -> S -> option S) (l : list A) (st : S)
    : option S :=
  match l with
  | [] => Some st
  | x :: rest =>
      match body x st with
      | Some st' => each body rest st'
      | None => None
      end
  end.

(** [_codes_from_mixed(value)] *)
Definition _codes_from_mixed (value : json) : list string :=
  match value with
  | JList l =>
      List.concat
        (List.map
           (fun x =>
              match x with
              | JStr s => [s]
              | JDict d =>
                  let code := por (get d "Code")
                                (por (get d "ProductCode") (por (get d "Id") (get d "ID"))) in
                  if truthy code then [str code] else []
              | _ => []
              end) l)
  | JDict d => keys d
  | JStr s => [s]
  | _ => []
  end.

(** The two indexes of [collect_category_index]. *)
Record cat_index : Type := CatIndex {
  code_to_cat_names : gmap string (gset string);
  code_to_cat_codes : gmap string (gset string)
}.

(** [m.setdefault(code, set()).add(x)] *)
Definition set_add (code x : string) (m : gmap string (gset string))
    : gmap string (gset string) :=
  <[code := default ∅ (m !! code) ∪ {[x]}]> m.

(** [add_map(code, cname, ccode)] *)
Definition add_map (code cname ccode : string) (ix : cat_index) : cat_index :=
  if negb (Text.nonempty code) then ix
  else CatIndex (set_add code (tidy (JStr cname)) (code_to_cat_names ix))
                (set_add code (tidy (JStr ccode)) (code_to_cat_codes ix)).

Definition product_list_keys : list string :=
  ["Products"; "Items"; "FeaturedProducts"; "PopularProducts"; "RecommendedProducts"].
Definition child_keys : list string := ["Categories"; "Children"; "Subcategories"].

(** The codes a category node refers to, in the order [walk_category]
    records them. *)
Definition referenced_codes (cat : dict) : list string :=
  List.concat (List.map (fun key => _codes_from_mixed (get cat key)) product_list_keys).

(** The child categories [walk_category] descends into, in order. *)
Definition child_categories (cat : dict) : list json :=
  List.concat
    (List.map (fun k => match get cat k with JList kids => kids | _ => [] end)
              child_keys).

Definition category_name (cat : dict) : string := tidy (get_or cat "Name" (JStr "")).
Definition category_code (cat : dict) : string :=
  tidy (por (get_or cat "Code" (JStr "")) (por (get_or cat "Id" (JStr "")) (JStr ""))).

(** [walk_category(cat)].  [depth] is the number of nested calls the
    interpreter still allows; [None] stands for RecursionError. *)
Fixpoint walk_category (depth : nat) (cat : json) (ix : cat_index) : option cat_index :=
  match depth with
  | O => None
  | S depth' =>
      match cat with
      | JDict d =>
          let ix1 :=
            List.fold_left
              (fun acc code => add_map code (category_name d) (category_code d) acc)
              (referenced_codes d) ix in
          each (walk_category depth') (child_categories d) ix1
      | _ => Some ix
      end
  end.

(** What a call on a value that must be a [dict] does. *)
Inductive result (A : Type) : Type :=
| Ok (a : A)
| AttributeError
| RecursionError.
Arguments Ok {A} a.
Arguments AttributeError {A}.
Arguments RecursionError {A}.

(** The category nodes listed under the [Food] and
    [PreconfiguredProducts] sections of [Categorization]. *)
Definition top_categories (cat : dict) : list json :=
  List.concat
    (List.map
       (fun section =>
          match get cat section with
          | JDict node =>
              match get node "Categories" with JList cs => cs | _ => [] end
          | _ => []
          end)
       ["Food"; "PreconfiguredProducts"]).

(** [collect_category_index(menu)] *)
Definition collect_category_index (depth : nat) (menu : dict) : result cat_index :=
  match por (get menu "Categorization") (JDict []) with
  | JDict cat =>
      match each (walk_category depth) (top_categories cat) (CatIndex ∅ ∅) with
      | Some ix => Ok ix
      | None => RecursionError
      end
  | _ => AttributeError
  end.

(** String order of [sorted]: by code point, which on UTF-8 text is the
    order of the bytes. *)
Definition str_le (a b : string) : Prop := String.leb a b = true.

#[global] Instance str_le_dec (a b : string) : Decision (str_le a b).
Proof. unfold str_le. apply _. Defined.

(** [" | ".join(sorted([c for c in cats if c]))], from any enumeration of
    the set. *)
Definition join_sorted (cats : list string) : string :=
  String.concat " | " (merge_sort str_le (List.filter Text.nonempty cats)).

Definition cats_of (m : gmap string (gset string)) (code : string) : gset string :=
  default ∅ (m !! code).

(** [collect_category_strings(pcode, v_codes, names, codes)] *)
Definition collect_category_strings (pcode : string) (v_codes : list string)
    (ix : cat_index) : string * string :=
  let gather m :=
    List.fold_left (fun acc vcode => acc ∪ cats_of m vcode) v_codes (cats_of m pcode) in
  (join_sorted (elements (gather (code_to_cat_names ix))),
   join_sorted (elements (gather (code_to_cat_codes ix)))).

(** *** Products and variants *)

Definition PRODUCT_HINT_KEYS : list string :=
  ["AvailableToppings"; "DefaultToppings"; "ProductType"; "DefaultSides"; "Variants"].
Definition VARIANT_HINT_KEYS : list string :=
  ["Price"; "PriceInfo"; "Size"; "Crust"; "VariantCode"; "VariantName"; "CrustName";
   "SizeName"; "BreadType"; "Portion"; "PortionName"; "Flavor"; "FlavorCode"].

(** [any(k in obj for k in KEYS)] *)
Definition has_any (ks : list string) (obj : dict) : bool :=
  existsb (fun k => has_key k obj) ks.

Definition looks_like_product (obj : dict) : bool :=
  negb (has_key "ProductCode" obj) && has_any PRODUCT_HINT_KEYS obj.
Definition looks_like_variant (obj : dict) : bool :=
  has_key "ProductCode" obj && has_any VARIANT_HINT_KEYS obj.

Record extraction : Type := Extraction {
  products_by_code : gmap string dict;
  variants_by_code : gmap string dict;
  product_to_variants : gmap string (list string)
}.

(** [d[k] = v] on a [dict]: in place when the key exists, at the end
    otherwise. *)
Fixpoint dict_set (k : string) (v : json) (d : dict) : dict :=
  match d with
  | [] => [(k, v)]
  | (k', v') :: t => if String.eqb k k' then (k, v) :: t else (k', v') :: dict_set k v t
  end.

(** The code [add_variant] synthesizes for the next variant of [pcode]. *)
Definition synthesized_code (pcode : json) (variants_so_far : list string) : string :=
  str pcode ++ "__v" ++ pad3 (List.length variants_so_far + 1).

(** [add_variant(vcode, v, pcode)] *)
Definition add_variant (vcode : json) (v : dict) (pcode : json) (st : extraction)
    : extraction :=
  if negb (truthy pcode) then st
  else
    let listed := default [] (product_to_variants st !! str pcode) in
    let '(vcode', v') :=
      if truthy vcode then (str vcode, v)
      else (synthesized_code pcode listed,
            dict_set "__Synthesized" (JBool true) v) in
    Extraction (products_by_code st)
               (<[vcode' := v']> (variants_by_code st))
               (<[str pcode := (listed ++ [vcode'])%list]> (product_to_variants st)).

(** [x in (None, "")] *)
Definition is_blank (x : json) : bool :=
  match x with
  | JNull => true
  | JStr s => negb (Text.nonempty s)
  | _ => false
  end.

(** The merge loop of [walk]: fields of a later occurrence fill the
    missing or blank fields of the registered product. *)
Definition merge_missing (registered later : dict) : dict :=
  List.fold_left
    (fun acc kv => if is_blank (get acc (fst kv)) then dict_set (fst kv) (snd kv) acc else acc)
    later registered.

(** The product branch of [walk]. *)
Definition register_product (obj : dict) (st : extraction) : extraction :=
  let pcode := por (get obj "Code") (por (get obj "Id") (get obj "ID")) in
  if truthy pcode then
    let p := str pcode in
    let products :=
      match products_by_code st !! p with
      | None => <[p := obj]> (products_by_code st)
      | Some registered => <[p := merge_missing registered obj]> (products_by_code st)
      end in
    Extraction products (variants_by_code st) (product_to_variants st)
  else st.

(** The inline [Variants] branch of [walk]. *)
Definition register_inline (obj : dict) (st : extraction) : extraction :=
  let pcode_inline :=
    por (get obj "Code") (por (get obj "Id") (por (get obj "ID") (get obj "ProductCode"))) in
  match lookup "Variants" obj with
  | Some (JList vs) =>
      List.fold_left
        (fun acc v =>
           match v with
           | JDict vd =>
               add_variant (por (get vd "Code") (get vd "VariantCode")) vd
                           (por (get vd "ProductCode") pcode_inline) acc
           | _ => acc
           end) vs st
  | Some (JDict vs) =>
      List.fold_left
        (fun acc kv =>
           match snd kv with
           | JDict vd =>
               add_variant (JStr (fst kv)) vd (por (get vd "ProductCode") pcode_inline) acc
           | _ => acc
           end) vs st
  | _ => st
  end.

(** What [walk] does at a mapping node before it descends. *)
Definition visit (obj : dict) (st : extraction) : extraction :=
  let st1 := if looks_like_product obj then register_product obj st else st in
  let st2 :=
    if looks_like_variant obj
    then add_variant (por (get obj "Code") (get obj "VariantCode")) obj
                     (get obj "ProductCode") st1
    else st1 in
  register_inline obj st2.

(** [walk(obj)]; [depth] and [None] as for [walk_category].  A product
    registered by [visit] is held by value: the in-place update of a
    node that is still being iterated is outside the model. *)
Fixpoint walk (depth : nat) (obj : json) (st : extraction) : option extraction :=
  match depth with
  | O => None
  | S depth' =>
      match obj with
      | JDict d => each (walk depth') (values d) (visit d st)
      | JList l => each (walk depth') l st
      | _ => Some st
      end
  end.

(** The de-duplication loop: first occurrences, in order. *)
Fixpoint dedupe (seen : gset string) (lst : list string) : list string :=
  match lst with
  | [] => []
  | vc :: rest =>
      if bool_decide (vc ∈ seen) then dedupe seen rest
      else vc :: dedupe (seen ∪ {[vc]}) rest
  end.

(** The products of [menu["Products"]], registered before the walk. *)
Definition preregistered (menu : dict) : gmap string dict :=
  match get menu "Products" with
  | JDict ps =>
      List.fold_left
        (fun acc kv =>
           match snd kv with
           | JDict prod => <[fst kv := prod]> acc
           | _ => acc
           end) ps ∅
  | _ => ∅
  end.

(** [collect_products_and_variants(menu)] *)
Definition collect_products_and_variants (depth : nat) (menu : dict)
    : option extraction :=
  match walk depth (JDict menu) (Extraction (preregistered menu) ∅ ∅) with
  | Some st =>
      Some (Extraction (products_by_code st) (variants_by_code st)
                       (dedupe ∅ <$> product_to_variants st))
  | None => None
  end.

(** *** The worker's exception handler *)

(** [scrape_store(store_id)]: the rows and the lines written to stderr. *)
Definition scrape_store {A : Type} (store_id : Z) (body : attempt A)
    : list A * list string :=
  match body with
  | Returned rows => (rows, [])
  | Raised e => ([], ["[store " ++ pretty store_id ++ "] error: " ++ e])
  end.

End DominosExtract.

(** ** Pizza Pizza: crust canonicaliser and the main loop
    ([pizza_pizza_scraper.py]) *)

Module PizzaPizza.

Import Schema.

(** [_canonical_crust(label)] *)
Definition _canonical_crust (label : string) : string :=
  let s := Text.lower (Text.strip label) in
  let has x := Text.contains x s in
  if negb (Text.nonempty s) then "Regular Dough"
  else if has "stuffed" then "Stuffed Crust"
  else if has "gourmet thin" || has "gourmet thins" || (has "thin" && has "crust")
  then "Thin"
  else if has "brooklyn" then "Brooklyn"
  else if has "new-york" || has "new york" then "New York Style"
  else if has "cauliflower" then "Cauliflower"
  else if has "gluten free" || has "gluten-free" then "Gluten Free"
  else if has "regular" || has "original" || has "classic" then "Regular Dough"
  else if has "hand tossed" || has "hand-tossed" then "Hand Tossed"
  else Text.title (Text.strip (if Text.nonempty label then label else "Regular Dough")).

(** The loop over [as_completed(futs)] of [main]: a future that raised
    is passed over. *)
Fixpoint gather (completed : list (attempt row)) (all_rows : list row) : list row :=
  match completed with
  | [] => all_rows
  | Returned rows :: rest => gather rest (all_rows ++ rows)
  | Raised _ :: rest => gather rest all_rows
  end.

(** The final filter: ["product" not in str(r.get("product_key", "")).lower()] *)
Definition keeps (r : row) : bool :=
  negb (Text.contains "product" (Text.lower (product_key r))).

(** Everything a run leaves behind: the CSV rows and the two counts of
    the closing line. *)
Record report : Type := Report {
  csv : list row;
  rows_written : nat;
  stores_done : nat
}.

(** [main], given how the futures of the stores complete. *)
Definition main (completed : list (attempt row)) : report :=
  let all_rows := gather completed [] in
  let filtered_rows := List.filter keeps all_rows in
  Report filtered_rows (List.length filtered_rows) (store_count filtered_rows).


End PizzaPizza.

(** ** The dimensional model ([model.py])

    The SQL script is read as list comprehensions over the staged rows;
    [None] is NULL.  DuckDB's [hash], [TRY_CAST] and date functions are
    parameters of the model. *)

Module Model.

(** A row as [read_csv_auto] yields it. *)
Record raw : Type := Raw {
  chain_key : option string;
  store_key : option string;
  city : option string;
  province : option string;
  category : option string;
  recipe : option string;
  product_key : option string;
  size : option string;
  crust : option string;
  price : option string;
  date_key : option string;
  month : option string;
  year : option string
}.

(** [lower(coalesce(product_key, '')) NOT LIKE '%product%'] *)
Definition passes (r : raw) : bool :=
  negb (Text.contains "product" (Text.lower (default "" (product_key r)))).

(** The view [stg]. *)
Definition stg (files : list raw) : list raw := List.filter passes files.

Section Engine.

Variable hash : list (option string) -> Z.
Variable try_double : option string -> option Num.pyfloat.
Variable try_date : option string -> option string.
Variable date_parts : string -> Z * Z * string * Z * Z.

(** The view [stg_typed]: the casts leave text as it is. *)
Record typed : Type := Typed {
  t_row : raw;
  t_price : option Num.pyfloat;
  t_date : option string
}.

Definition stg_typed (files : list raw) : list typed :=
  List.map (fun r => Typed r (try_double (price r)) (try_date (date_key r))) (stg files).

Definition chain_id (t : typed) : Z := hash [chain_key (t_row t)].
Definition store_id (t : typed) : Z :=
  hash [chain_key (t_row t); store_key (t_row t)].
Definition product_id (t : typed) : Z :=
  hash [chain_key (t_row t); product_key (t_row t)].
Definition date_id (t : typed) : Z := hash [t_date t].

Definition chain_row (t : typed) : Z * option string :=
  (chain_id t, chain_key (t_row t)).
Definition store_row (t : typed)
    : Z * Z * option string * option string * option string :=
  (store_id t, chain_id t, store_key (t_row t), city (t_row t), province (t_row t)).
Definition product_row (t : typed)
    : Z * Z * option string * option string * option string * option string
      * option string :=
  (product_id t, chain_id t, product_key (t_row t), recipe (t_row t),
   size (t_row t), crust (t_row t), category (t_row t)).
Definition date_row (t : typed) : Z * option string * (Z * Z * string * Z * Z) :=
  (date_id t, t_date t, date_parts (default "" (t_date t))).
Definition fact_row (t : typed) : Z * Z * Z * Z * option Num.pyfloat :=
  (chain_id t, store_id t, product_id t, date_id t, t_price t).

Definition not_null {A : Type} (x : option A) : bool :=
  match x with Some _ => true | None => false end.

(** [SELECT DISTINCT ... FROM stg_typed [WHERE ...]] *)
Definition dim_chain (files : list raw) :=
  remove_dups
    (List.map chain_row
       (List.filter (fun t => not_null (chain_key (t_row t))) (stg_typed files))).
Definition dim_store (files : list raw) :=
  remove_dups (List.map store_row (stg_typed files)).
Definition dim_product (files : list raw) :=
  remove_dups (List.map product_row (stg_typed files)).
Definition dim_date (files : list raw) :=
  remove_dups
    (List.map date_row (List.filter (fun t => not_null (t_date t)) (stg_typed files))).
Definition fact_menu_price (files : list raw) :=
  List.map fact_row
    (List.filter (fun t => not_null (t_price t) && not_null (t_date t))
                 (stg_typed files)).

(** A row of [stg_typed] read from a raw row that passes the filter. *)
Definition staged_from (files : list raw) (t : typed) : Prop :=
  exists r, In r files /\ passes r = true
            /\ t = Typed r (try_double (price r)) (try_date (date_key r)).

(** The [product_key] column of a row of [dim_product]. *)
Definition product_key_of
    (x : Z * Z * option string * option string * option string * option string
         * option string) : string :=
  default "" (snd (fst (fst (fst (fst x))))).

End Engine.

(** The CSV row a scraper wrote, as the model reads it back: an empty
    cell is NULL. *)
Definition cell (s : string) : option string :=
  if Text.nonempty s then Some s else None.

Definition read_back (r : Schema.row) : raw :=
  Raw (cell (Schema.chain_key r)) (cell (Schema.store_key r)) (cell (Schema.city r))
      (cell (Schema.province r)) (cell (Schema.category r)) (cell (Schema.recipe r))
      (cell (Schema.product_key r)) (cell (Schema.size r)) (cell (Schema.crust r))
      (cell (Schema.price r)) (cell (Schema.date_key r)) (cell (Schema.month r))
      (cell (Schema.year r)).

End Model.

(** ** The vocabulary of the specification *)

Module Spec.

Import Num Json.

(** The size tokens of the Pizza Hut canonicaliser. *)
Definition numeric_size_tokens : list string :=
  List.map (fun n => n ++ Text.dquote) PizzaHut.inch_sizes.
Definition named_size_tokens : list string :=
  ["Personal"; "Small"; "Medium"; "Large"; "X-Large"].
Definition size_vocabulary : list string :=
  (numeric_size_tokens ++ named_size_tokens)%list.

(** The crust tokens of the two crust canonicalisers. *)
Definition hut_crust_vocabulary : list string :=
  ["Hand Tossed"; "Handcrafted"; "Original Pan"; "Pan"; "Stuffed Crust";
   "Thin ’n’ Crispy"; "Gluten Free"; "Regular Dough"].
Definition pp_crust_vocabulary : list string :=
  ["Regular Dough"; "Stuffed Crust"; "Thin"; "Brooklyn"; "New York Style";
   "Cauliflower"; "Gluten Free"; "Hand Tossed"].

(** The first candidate that yields a value. *)
Fixpoint first_some {A : Type} (l : list (option A)) : option A :=
  match l with
  | [] => None
  | Some a :: _ => Some a
  | None :: rest => first_some rest
  end.









End Spec.
(** ** The scenarios of the specification *)

Module Scenarios.

Import Num Json.






End Scenarios.

(** ** Invariants used in the proofs *)

Module Invariants.

Import Json Dominos DominosExtract PizzaHutRun.




(** The workers of a pool that have tested the flag and not yet sent
    their request. *)
Definition is_checked (c : pc) : bool :=
  match c with Checked => true | _ => false end.

Definition count_checked (ws : list pc) : nat :=
  List.length (List.filter is_checked ws).

(** What every reachable pool satisfies. *)
Record pool_inv (n : nat) (p : pool) : Prop := PoolInv {
  inv_size : List.length (workers p) = n;
  inv_clear : stop_flag p = false -> all_late_requests (events p) = 0%nat;
  inv_checked : forall w, workers p !! w = Some Checked ->
                          late_requests w (events p) = 0%nat;
  inv_each : forall w, (late_requests w (events p) <= 1)%nat;
  inv_total : (all_late_requests (events p)
               + (if stop_flag p then count_checked (workers p) else 0) <= n)%nat
}.

End Invariants.

(** ** Runs of characters, used in the proofs about substitutions *)

Module Runs.

Import Regex.

(** The cursor after the longest run of [q] characters. *)
Fixpoint advance (q : ascii -> bool) (bef aft : list ascii) : cursor :=
  match aft with
  | c :: t => if q c then advance q (c :: bef) t else Cur bef aft
  | [] => Cur bef aft
  end.

(** Every run of [q] characters replaced by [repl]; [in_run] tells that
    the character before was part of a run. *)
Fixpoint squeeze (q : ascii -> bool) (repl : list ascii) (in_run : bool)
    (l : list ascii) : list ascii :=
  match l with
  | [] => []
  | c :: t =>
      if q c
      then (if in_run then [] else repl) ++ squeeze q repl true t
      else c :: squeeze q repl false t
  end.

(** Every [q] character of the text is a blank, and no two of them are
    neighbours; [prev] tells that a blank comes just before. *)
Fixpoint spaced (q : ascii -> bool) (prev : bool) (s : string) : bool :=
  match s with
  | EmptyString => true
  | String c t =>
      if q c then Ascii.eqb c " " && negb prev && spaced q true t
      else spaced q false t
  end.

(** Whitespace occurs in the text only as single blanks. *)
Definition single_spaced (s : string) : bool := spaced Text.is_space false s.

(** The last character, if any, is not whitespace. *)
Fixpoint last_clean (l : list ascii) : bool :=
  match l with
  | [] => true
  | c :: t =>
      match t with
      | [] => negb (Text.is_space c)
      | _ :: _ => last_clean t
      end
  end.

Definition not_dash (c : ascii) : bool := negb (Ascii.eqb c "-").

(** The expression has no capturing group. *)
Fixpoint groupless (r : re) : bool :=
  match r with
  | Grp _ => false
  | Seq r1 r2 | Alt r1 r2 => groupless r1 && groupless r2
  | Rep r _ _ => groupless r
  | Ahead _ r => groupless r
  | _ => true
  end.

(** Every success of the expression ends after a run of [q] characters,
    which is not empty when [strict] is set. *)
Definition eats (ic : bool) (q : ascii -> bool) (strict : bool) (r : re) : Prop :=
  forall cu cap e g, In (e, g) (run ic r (cu, cap)) ->
    exists taken, after cu = (taken ++ after e)%list
                  /\ forallb q taken = true
                  /\ (strict = true -> taken <> []).

(** Every success of the expression has captured a text that satisfies
    [P]. *)
Definition sets (ic : bool) (P : list ascii -> Prop) (r : re) : Prop :=
  forall s e g, In (e, g) (run ic r s) -> exists t, g = Some t /\ P t.

End Runs.

(** ** Exceptions

    A Python computation that may raise: its value, or the exception. *)

Module Py.

Inductive error : Type :=
| AttributeErr     (* a method of [dict] or [str] on another value *)
| TypeErr
| ValueErr
| OverflowErr
| RecursionErr
| HTTPErr (status : Z)
| TimeoutErr
| ConnectionErr
| DecodeErr        (* [r.json()] on a body that is not JSON *)
| OtherErr.        (* any other exception of the transport *)

Inductive res (A : Type) : Type :=
| Val (a : A)
| Exc (e : error).
Arguments Val {A} a.
Arguments Exc {A} e.

#[global] Instance res_ret : MRet res := fun A a => Val a.
#[global] Instance res_bind : MBind res :=
  fun A B f m => match m with Val a => f a | Exc e => Exc e end.
#[global] Instance res_fmap : FMap res :=
  fun A B f m => match m with Val a => Val (f a) | Exc e => Exc e end.

(** [for x in l: st = body(x, st)], leaving at the first exception. *)
Fixpoint for_each {A S : Type} (body : A -> S -> res S) (l : list A) (st : S)
    : res S :=
  match l with
  | [] => Val st
  | x :: rest =>
      match body x st with
      | Val st' => for_each body rest st'
      | Exc e => Exc e
      end
  end.

(** [x.get(...)] is available on a [dict] only. *)
Definition as_dict (x : Json.json) : res Json.dict :=
  match x with
  | Json.JDict d => Val d
  | _ => Exc AttributeErr
  end.

(** [x.strip()] and the like are available on a [str] only. *)
Definition as_str (x : Json.json) : res string :=
  match x with
  | Json.JStr s => Val s
  | _ => Exc AttributeErr
  end.

End Py.

(** ** More text primitives *)

Module Strings.

(** [s.isdigit()] on one-byte characters. *)
Fixpoint all_chars (q : ascii -> bool) (s : string) : bool :=
  match s with
  | EmptyString => true
  | String c t => q c && all_chars q t
  end.

Definition isdigit (s : string) : bool :=
  Text.nonempty s && all_chars Text.is_digit s.

(** The characters that satisfy [q]. *)
Fixpoint keep (q : ascii -> bool) (s : string) : string :=
  match s with
  | EmptyString => EmptyString
  | String c t => if q c then String c (keep q t) else keep q t
  end.

(** [s.strip(chars)], for the characters that satisfy [q]. *)
Fixpoint lstrip_by (q : ascii -> bool) (s : string) : string :=
  match s with
  | String c t => if q c then lstrip_by q t else s
  | EmptyString => EmptyString
  end.

Fixpoint rstrip_by (q : ascii -> bool) (s : string) : string :=
  match s with
  | EmptyString => EmptyString
  | String c t =>
      match rstrip_by q t with
      | EmptyString => if q c then EmptyString else String c EmptyString
      | t' => String c t'
      end
  end.

Definition strip_by (q : ascii -> bool) (s : string) : string :=
  rstrip_by q (lstrip_by q s).

(** [s[:n]] on text of one-byte characters. *)
Fixpoint take (n : nat) (s : string) : string :=
  match n, s with
  | S n', String c t => String c (take n' t)
  | _, _ => EmptyString
  end.

(** [s.split(sep, 1)[0]]: what comes before the first [sep] ([sep] is not
    empty), or the whole text. *)
Fixpoint before_first (sep s : string) : string :=
  if String.prefix sep s then EmptyString
  else match s with
       | EmptyString => EmptyString
       | String c t => String c (before_first sep t)
       end.

(** [s.split(c)] for a one-character separator. *)
Fixpoint split_char (sep : ascii) (s : string) : list string :=
  match s with
  | EmptyString => [EmptyString]
  | String c t =>
      if Ascii.eqb c sep then EmptyString :: split_char sep t
      else match split_char sep t with
           | piece :: rest => String c piece :: rest
           | [] => [String c EmptyString]
           end
  end.

(** [s.endswith(suffix)]. *)
Definition endswith (suffix s : string) : bool :=
  (String.length suffix <=? String.length s)%nat
  && String.eqb (Text.drop (String.length s - String.length suffix) s) suffix.

(** [s[:-1]]. *)
Fixpoint chop (s : string) : string :=
  match s with
  | EmptyString => EmptyString
  | String c EmptyString => EmptyString
  | String c t => String c (chop t)
  end.

(** [len(s)]: the number of code points of UTF-8 text, that is the bytes
    that are not continuation bytes. *)
Fixpoint len (s : string) : nat :=
  match s with
  | EmptyString => O
  | String c t => (if Text.in_range 128 191 c then 0 else 1) + len t
  end.

(** [sep.join(l)]. *)
Definition join (sep : string) (l : list string) : string := String.concat sep l.

End Strings.

(** ** Pizza Pizza: small utilities, categories and key codes
    ([pizza_pizza_scraper.py]) *)

Module PizzaPizzaParse.

Import Num Json Regex Py.

Local Open Scope Z_scope.

(** *** [num], [norm_label], [parse_id_range] *)

(** The characters that [re.sub(r"[^0-9.\-]", "", x)] leaves. *)
Definition numeric_char (c : ascii) : bool :=
  Text.is_digit c || Ascii.eqb c "." || Ascii.eqb c "-".

(** [^-?\d+(\.\d+)?$] *)
Definition rx_number : re :=
  seq_of [Bos; opt (chr "-"); plus digit;
          opt (Grp (Seq (chr ".") (plus digit))); Eos].

(** [num(x)]: a float or [None]; [float(x)] of an integer beyond the
    doubles raises. *)
Definition num (x : json) : res (option pyfloat) :=
  match x with
  | JBool _ | JInt _ | JFloat _ =>
      match to_float x with
      | Some f => Val (Some f)
      | None => Exc OverflowErr
      end
  | JStr s =>
      let z := sub false (Chr (fun c => negb (numeric_char c))) "" s in
      if Text.nonempty z
         && match rmatch false rx_number z with Some _ => true | None => false end
      then Val (parse_float z)
      else Val None
  | _ => Val None
  end.

(** [norm_label(s)] on a text. *)
Definition norm_label_text (s : string) : string :=
  sub false (plus space) " " (Text.strip s).

(** [norm_label(s)]: [(s or "")] is stripped, so a value that is neither
    falsy nor a text raises. *)
Definition norm_label (x : json) : res string :=
  if truthy x then s ← as_str x; Val (norm_label_text s)
  else Val (norm_label_text "").

(** [int(s)] of a text. *)
Definition int_of_text (s : string) : res Z :=
  match parse_int s with
  | Some z => Val z
  | None => Exc ValueErr
  end.

(** [range(a, b)] *)
Definition range (a b : Z) : list Z := seqZ a (b - a).

Definition ID_RANGE_DEFAULT : list Z := range 1 2001.

(** [[int(x) for x in pieces if x.strip()]] *)
Fixpoint ints_of (pieces : list string) : res (list Z) :=
  match pieces with
  | [] => Val []
  | x :: rest =>
      if Text.nonempty (Text.strip x)
      then z ← int_of_text x; zs ← ints_of rest; Val (z :: zs)
      else ints_of rest
  end.

(** [parse_id_range(arg)] *)
Definition parse_id_range (arg : option string) : res (list Z) :=
  match arg with
  | None => Val ID_RANGE_DEFAULT
  | Some arg =>
      let s := Text.strip arg in
      if Text.contains "-" s then
        a ← int_of_text (Strings.before_first "-" s);
        b ← int_of_text (Text.split_once_last "-" s);
        Val (range a (b + 1))
      else if Text.contains "," s then ints_of (Strings.split_char "," s)
      else z ← int_of_text s; Val [z]
  end.

(** *** The Pizza subtree of the categories *)

Definition PIZZA_ROOT_ID : Z := 10020.

(** [isinstance(x, int)]: an [int] or a [bool]; as a key [True] is 1. *)
Definition as_int (x : json) : option Z :=
  match x with
  | JInt z => Some z
  | JBool b => Some (if b then 1 else 0)
  | _ => None
  end.

(** [int(x)] of any value. *)
Definition int_of (x : json) : res Z :=
  match x with
  | JInt z => Val z
  | JBool b => Val (if b then 1 else 0)
  | JFloat f =>
      match f with
      | Fin _ _ => match trunc f with Some z => Val z | None => Exc ValueErr end
      | Inf _ => Exc OverflowErr
      | NaN => Exc ValueErr
      end
  | JStr s => int_of_text s
  | _ => Exc TypeErr
  end.

(** [x == z] for an integer [z]. *)
Definition eq_int (x : json) (z : Z) : bool :=
  match x with
  | JInt n => n =? z
  | JBool b => (if b then 1 else 0) =? z
  | JFloat (Fin m e) => if 0 <=? e then m * 10 ^ e =? z else m =? z * 10 ^ (- e)
  | _ => false
  end.

Record cat_maps : Type := CatMaps {
  id_to_parent : gmap Z Z;
  id_to_name : gmap Z json
}.

(** The first loop of [pizza_category_ids_and_names]. *)
Definition index_category (c : json) (m : cat_maps) : res cat_maps :=
  d ← as_dict c;
  match as_int (get d "id") with
  | Some cid =>
      pid ← int_of (por (get d "parent_id") (JInt 0));
      Val (CatMaps (<[cid := pid]> (id_to_parent m))
                   (<[cid := por (get d "name") (JStr "")]> (id_to_name m)))
  | None => Val m
  end.

Definition category_maps (categories : list json) : res cat_maps :=
  for_each index_category categories (CatMaps ∅ ∅).

(** The loop of [is_descendant]: [fuel] bounds its iterations, [None]
    when it runs out. *)
Fixpoint climb (fuel : nat) (parents : gmap Z Z) (root : Z) (seen : gset Z)
    (cid : Z) : option bool :=
  if (cid =? 0) || bool_decide (cid ∈ seen) then Some false
  else
    match fuel with
    | O => None
    | S fuel' =>
        let pid := default 0 (parents !! cid) in
        if pid =? root then Some true
        else climb fuel' parents root ({[cid]} ∪ seen) pid
    end.

(** [is_descendant(cid, root)]: one more iteration than there are
    categories is enough for the loop to end. *)
Definition is_descendant (parents : gmap Z Z) (cid root : Z) : bool :=
  default false (climb (S (base.size parents)) parents root ∅ cid).

(** The second loop. *)
Definition select_category (parents : gmap Z Z) (c : json) (pizza_ids : list Z)
    : res (list Z) :=
  d ← as_dict c;
  match as_int (get d "id") with
  | Some cid =>
      if ((cid =? PIZZA_ROOT_ID) || is_descendant parents cid PIZZA_ROOT_ID)
         && truthy (get d "products_available")
      then Val (pizza_ids ++ [cid])%list
      else Val pizza_ids
  | None => Val pizza_ids
  end.

(** The fallback loop: the root alone, at its first available entry. *)
Fixpoint root_fallback (categories : list json) : res (list Z) :=
  match categories with
  | [] => Val []
  | c :: rest =>
      d ← as_dict c;
      if eq_int (get d "id") PIZZA_ROOT_ID && truthy (get d "products_available")
      then Val [PIZZA_ROOT_ID]
      else root_fallback rest
  end.

(** [sorted(set(ids))] *)
Definition sorted_set (ids : list Z) : list Z :=
  merge_sort Z.le (remove_dups ids).

(** [pizza_category_ids_and_names(categories)] *)
Definition pizza_category_ids_and_names (categories : list json)
    : res (list Z * gmap Z json) :=
  m ← category_maps categories;
  pizza_ids ← for_each (select_category (id_to_parent m)) categories [];
  pizza_ids ← match pizza_ids with
              | [] => root_fallback categories
              | _ => Val pizza_ids
              end;
  Val (sorted_set pizza_ids, id_to_name m).

(** [fetch_categories(store_id)], given what [get_json] did. *)
Definition fetch_categories (answer : res json) : list json :=
  match answer with
  | Exc _ => []
  | Val cats =>
      let cats :=
        match cats with
        | JDict d => por (get d "categories") (por (get d "items") (JList []))
        | _ => cats
        end in
      match cats with
      | JList l => l
      | _ => []
      end
  end.

(** *** Canonical sizes and crust inference *)

Definition inch_sizes : list string :=
  ["10"; "11"; "12"; "13"; "14"; "15"; "16"; "18"; "20"; "22"; "24"].

(** [_INCHES_RX = (?<!\d)(10|11|12|13|14|15|16|18|20|22|24)\s*[Q”]], Q the
    double quote *)
Definition _INCHES_RX : re :=
  Seq (Behind false Text.is_digit)
      (Seq (Grp (alts inch_sizes))
           (Seq (star space) (Alt (lit Text.dquote) (lit "”")))).

Definition party_labels : list string :=
  ["party"; "party size"; "party xl"; "party pizza"; "square party"].

(** [_canonical_size(label)] *)
Definition _canonical_size (label : string) : string :=
  let s := Text.lower (Text.strip label) in
  let has x := Text.contains x s in
  if has "xxl" || has "x x l" then "Xxl"
  else if existsb (String.eqb s) party_labels then "Party"
  else if has "x-large" || has "x large" || String.eqb s "xl" then "X-Large"
  else if has "large" && negb (has "x") then "Large"
  else if has "medium" then "Medium"
  else if has "small" then "Small"
  else if has "twin" then "Twin"
  else if has "single" then "Single"
  else
    match search false _INCHES_RX label with
    | Some m => (group1 m ++ Text.dquote)%string
    | None =>
        let t := Text.strip label in
        if Text.nonempty t then t else "Small"
    end.

(** The texts [" ".join] is given: a falsy name counts as empty, another
    value that is not a text raises. *)
Fixpoint context_words (cat_names : list json) : res (list string) :=
  match cat_names with
  | [] => Val []
  | c :: rest =>
      w ← (if truthy c
           then match c with JStr s => Val s | _ => Exc TypeErr end
           else Val EmptyString);
      ws ← context_words rest;
      Val (w :: ws)
  end.

(** [infer_crust_from_context(recipe, cat_names)]; [cat_names] in the
    order the set is iterated. *)
Definition infer_crust_from_context (recipe : string) (cat_names : list json)
    : res (option string) :=
  ws ← context_words cat_names;
  let ctx := Text.lower (Strings.join " " (recipe :: ws)) in
  let has x := Text.contains x ctx in
  Val (if has "stuffed" then Some "Stuffed Crust"
       else if has "gourmet thin" || has "gourmet thins" || (has "thin" && has "crust")
       then Some "Thin"
       else if has "brooklyn" then Some "Brooklyn"
       else if has "new-york" || has "new york" then Some "New York Style"
       else if has "cauliflower" then Some "Cauliflower"
       else if has "gluten free" || has "gluten-free" then Some "Gluten Free"
       else if has "hand tossed" || has "hand-tossed" then Some "Hand Tossed"
       else None)%string.

(** *** Key codes *)

Definition upper_or_digit (c : ascii) : bool := Text.is_upper c || Text.is_digit c.

(** [re.sub(r"[^A-Z0-9]+", "", s)] *)
Definition code_chars (s : string) : string :=
  sub false (plus (Chr (fun c => negb (upper_or_digit c)))) "" s.

(** [^(\d{2})Q\s*$], Q the double quote *)
Definition rx_two_digit_inches : re :=
  seq_of [Bos; Grp (counted digit 2 2); lit Text.dquote; star space; Eos].

(** [_size_code(sz)] *)
Definition _size_code (sz : string) : string :=
  let s := Text.strip sz in
  if Strings.endswith Text.dquote s && Strings.isdigit (Strings.chop s)
  then (Strings.chop s ++ "IN")%string
  else
    match rmatch false rx_two_digit_inches s with
    | Some m => (group1 m ++ "IN")%string
    | None =>
        let sl := Text.lower s in
        if String.eqb sl "x-large" then "XL"
        else if String.eqb sl "xxl" || String.eqb sl "x x l" then "XXL"
        else if String.eqb sl "large" then "LG"
        else if String.eqb sl "medium" then "MD"
        else if String.eqb sl "small" then "SM"
        else if String.eqb sl "party" then "PARTY"
        else if String.eqb sl "twin" then "TWIN"
        else if String.eqb sl "single" then "SINGLE"
        else code_chars (Text.upper s)
    end.

(** [_crust_code(cr)] *)
Definition _crust_code (cr : string) : string :=
  let c := Text.lower (Text.strip cr) in
  let has x := Text.contains x c in
  if existsb (String.eqb c) ["regular dough"; "regular"; "original"; "classic"]
  then "REG"
  else if has "stuffed" then "STUFFED"
  else if has "gourmet thin" || (has "thin" && has "crust") then "THIN"
  else if has "brooklyn" then "BROOKLYN"
  else if has "new york" || has "new-york" then "NY"
  else if has "cauliflower" then "CAULI"
  else if has "gluten free" || has "gluten-free" then "GF"
  else if has "hand tossed" || has "hand-tossed" then "HANDTOSSED"
  else
    let code := code_chars (Text.upper (if Text.nonempty cr then cr else "REG")) in
    if Text.nonempty code then code else "REG".

(** [variant_product_key(pid, size, crust)] *)
Definition variant_product_key (pid size crust : string) : string :=
  (pid ++ "_" ++ _size_code size ++ "_" ++ _crust_code crust)%string.

End PizzaPizzaParse.

(** ** Notions used to state the properties of the Pizza Pizza scraper *)

Module PizzaPizzaSpec.

Import Json Py PizzaPizzaParse.

Local Open Scope Z_scope.

(** [cid] lies below [root]: following the parent links from [cid]
    reaches [root], through categories with a non-zero id. *)
Inductive ancestor (parents : gmap Z Z) (root : Z) : Z -> Prop :=
| ancestor_parent cid :
    cid <> 0 -> default 0 (parents !! cid) = root -> ancestor parents root cid
| ancestor_step cid :
    cid <> 0 -> ancestor parents root (default 0 (parents !! cid)) ->
    ancestor parents root cid.

(** The entries of the category list that put the id [i] on offer. *)
Definition offers (categories : list json) (i : Z) : Prop :=
  exists d, In (JDict d) categories
            /\ eq_int (get d "id") i = true
            /\ truthy (get d "products_available") = true.

(** What the loops of [scrape_store] keep true: no two rows share a
    key, and the keys of the rows are those of [seen]. *)
Definition keyed (seen : gset string) (rows : list Schema.row) : Prop :=
  List.NoDup (List.map Schema.product_key rows)
  /\ forall r, In r rows ->
       exists pk, Schema.product_key r = ("PP_" ++ pk)%string /\ pk ∈ seen.

(** The constant and the never-blank cells of a row of store [sk]. *)
Definition well_formed (sk : Z) (r : Schema.row) : Prop :=
  Schema.chain_key r = "PP"
  /\ Schema.store_key r = ("PP_" ++ pretty sk)%string
  /\ Schema.category r = "Pizza"
  /\ Schema.size r <> ""
  /\ Schema.crust r <> "".

End PizzaPizzaSpec.

(** ** Vocabularies of the Pizza Pizza canonicalisers *)

Module PizzaPizzaVocabulary.

(** The named sizes of [_canonical_size]. *)
Definition named_sizes : list string :=
  ["Xxl"; "Party"; "X-Large"; "Large"; "Medium"; "Small"; "Twin"; "Single"].

(** Its inch tokens. *)
Definition inch_tokens : list string :=
  List.map (fun n => n ++ Text.dquote) PizzaPizzaParse.inch_sizes.

End PizzaPizzaVocabulary.

(** ** Pizza Pizza: the HTTP helper and the rows of a store *)

Module PizzaPizzaStore.

Import Num Json Py Schema PizzaPizzaParse.

Local Open Scope Z_scope.

(** *** [get_json] *)

(** What the transport does with one request. *)
Inductive reply : Type :=
| ReadTimeout
| ConnErr
| Failure                                (* another exception of [get] *)
| Status (code : Z) (body : option json). (* [body]: [r.json()], if it parses *)

Definition MAX_RETRIES : nat := 10.
Definition RETRY_STATUS : list Z := [415; 429; 500; 502; 503].

(** How one pass of the loop body ends. *)
Inductive verdict : Type :=
| Return (data : json)
| RaiseNow (e : error)   (* not caught, or re-raised as permanent *)
| Retry (e : error).     (* caught: raised again on the last attempt only *)

(** The [try] block and the test of its handler on the caught exception:
    a retryable status is raised as HTTPError, [raise_for_status] raises
    on the other statuses from 400 to 599, and 400 and 404 are permanent. *)
Definition judge (r : reply) : verdict :=
  match r with
  | ReadTimeout => Retry TimeoutErr
  | ConnErr => Retry ConnectionErr
  | Failure => RaiseNow OtherErr
  | Status c body =>
      if existsb (Z.eqb c) RETRY_STATUS then Retry (HTTPErr c)
      else if (400 <=? c) && (c <? 600) then
        if (c =? 400) || (c =? 404) then RaiseNow (HTTPErr c) else Retry (HTTPErr c)
      else match body with
           | Some data => Return data
           | None => RaiseNow DecodeErr
           end
  end.

(** The loop [for attempt in range(1, MAX_RETRIES + 1)], from [attempt]
    on with [left] passes to go; [transport k] is the reply to the
    request of attempt [k].  The result comes with the number of
    requests sent.  A loop that ends without returning yields [None]. *)
Fixpoint attempts (transport : nat -> reply) (attempt left : nat) : res json * nat :=
  match left with
  | O => (Val JNull, O)
  | S left' =>
      match judge (transport attempt) with
      | Return data => (Val data, 1%nat)
      | RaiseNow e => (Exc e, 1%nat)
      | Retry e =>
          if (attempt =? MAX_RETRIES)%nat then (Exc e, 1%nat)
          else let '(r, n) := attempts transport (S attempt) left' in (r, S n)
      end
  end.

(** [get_json(url, ...)] *)
Definition get_json (transport : nat -> reply) : res json * nat :=
  attempts transport 1 MAX_RETRIES.

(** [fetch_store_meta(store_id)], given what [get_json] did. *)
Definition fetch_store_meta (store_id : Z) (answer : res json)
    : res (option (Z * json * json)) :=
  match answer with
  | Exc _ => Val None
  | Val d =>
      d ← as_dict (por d (JDict []));
      Val (Some (store_id,
                 por (get_or d "city" (JStr "")) (JStr ""),
                 por (get_or d "province" (JStr "")) (JStr "")))
  end.

(** [fetch_config(store_id, slug)], given what [get_json] did. *)
Definition fetch_config (answer : res json) : option dict :=
  match answer with
  | Val (JDict d) => Some d
  | _ => None
  end.

(** [_starting_price_from_product(p)] *)
Definition _starting_price_from_product (p : dict) : res (option pyfloat) :=
  match get p "price_text" with
  | JDict pt =>
      f ← num (get pt "price_value");
      match f with
      | Some f => Val (Some f)
      | None => num (get p "price")
      end
  | _ => num (get p "price")
  end.

(** *** The rows of a store *)

(** An entry of the product index built by [discover_pizza_products];
    [cat_names] in the order the set is iterated. *)
Record entry : Type := Entry {
  pid : string;
  slug : string;
  name : string;
  start_price : option pyfloat;
  cat_names : list json
}.

(** [f"{x:.2f}"]: two decimals, ties to even, on the decimal value. *)
Definition format2 (x : pyfloat) : string :=
  match x with
  | NaN => "nan"
  | Inf negative => if negative then "-inf" else "inf"
  | Fin m e =>
      let a := Z.abs m in
      let hundredths :=
        if -2 <=? e then a * 10 ^ (e + 2)
        else
          let k := 10 ^ (- e - 2) in
          let q := a / k in
          let r := a mod k in
          if 2 * r <? k then q
          else if k <? 2 * r then q + 1
          else if Z.even q then q else q + 1 in
      let cents := hundredths mod 100 in
      ((if (m <? 0)%Z then "-" else "")
       ++ pretty (hundredths / 100)%Z ++ "."
       ++ (if (cents <? 10)%Z then "0" else "") ++ pretty cents)%string
  end.

(** [a or b] on texts. *)
Definition or_text (a b : string) : string := if Text.nonempty a then a else b.

Definition cyo_names : list string := ["create your own"; "create your own pizza"].

(** The recipe of an entry. *)
Definition recipe_of (e : entry) : string :=
  if existsb (String.eqb (Text.lower (name e))) cyo_names then "CYO" else name e.

(** The loop over the variants of one product; [seen] are the keys
    already written for the store. *)
Fixpoint variant_rows (store_key : Z) (city province : json)
    (today : string * string * string) (e : entry)
    (variants : list (string * string * pyfloat))
    (seen : gset string) (rows : list row) : gset string * list row :=
  match variants with
  | [] => (seen, rows)
  | (sz, cr, price) :: rest =>
      let size_val := or_text (norm_label_text sz) "Small" in
      let crust_val := or_text (norm_label_text cr) "Regular Dough" in
      let pk := variant_product_key (pid e) size_val crust_val in
      if bool_decide (pk ∈ seen)
      then variant_rows store_key city province today e rest seen rows
      else
        let '(date_key, month, year) := today in
        variant_rows store_key city province today e rest ({[pk]} ∪ seen)
          (rows ++ [Row "PP" ("PP_" ++ pretty store_key) (str city) (str province)
                        "Pizza" (recipe_of e) ("PP_" ++ pk) size_val crust_val
                        (format2 price) date_key month year])%list
  end.

(** The loop over the products.  [variants_of e context_crust] stands
    for [parse_config_prices] on the configurator of the product (the
    request and the decoding of its answer are not modelled). *)
Fixpoint product_rows (store_key : Z) (city province : json)
    (today : string * string * string)
    (variants_of : entry -> option string -> res (list (string * string * pyfloat)))
    (products : list entry) (seen : gset string) (rows : list row)
    : res (list row) :=
  match products with
  | [] => Val rows
  | e :: rest =>
      context_crust ← infer_crust_from_context (recipe_of e) (cat_names e);
      variants ← variants_of e context_crust;
      let '(seen', rows') :=
        variant_rows store_key city province today e variants seen rows in
      product_rows store_key city province today variants_of rest seen' rows'
  end.

(** [scrape_store(store_id, today_local)], given the store's meta data
    and its product index. *)
Definition scrape_store (meta : option (Z * json * json))
    (today : string * string * string)
    (variants_of : entry -> option string -> res (list (string * string * pyfloat)))
    (products : list entry) : res (list row) :=
  match meta with
  | None => Val []
  | Some (store_key, city, province) =>
      match products with
      | [] => Val []
      | _ => product_rows store_key city province today variants_of products ∅ []
      end
  end.

End PizzaPizzaStore.

(** ** Pizza Hut: recipe names and product keys ([pizza_hut_scraper.py]) *)

Module PizzaHutKeys.

Import Num Json Regex.

(** [\s+[A-Z0-9]{1,3}$] with [re.I] *)
Definition rx_code_suffix : re :=
  seq_of [plus space;
          counted (Chr (fun c => Text.is_upper c || Text.is_digit c)) 1 3;
          Eos].

(** [\bbbq\b] with [re.I] *)
Definition rx_bbq : re := seq_of [WordB; lit "bbq"; WordB].

(** [\s{2,}] *)
Definition rx_spaces : re := Rep space 2 None.

(** [clean_recipe(name)] *)
Definition clean_recipe (name : json) : string :=
  if negb (truthy name) then ""
  else
    let s := Text.strip (str name) in
    let s := sub true rx_code_suffix "" s in
    let s := sub true rx_bbq "BBQ" s in
    Text.strip (sub false rx_spaces " " s).

Definition lower_or_digit (c : ascii) : bool := Text.is_lower c || Text.is_digit c.

(** [_SLUG_BAD_FOR_KEY = [^a-z0-9]+] *)
Definition _SLUG_BAD_FOR_KEY : re := plus (Chr (fun c => negb (lower_or_digit c))).

Definition is_underscore (c : ascii) : bool := Ascii.eqb c "_".

(** [_+] *)
Definition underscores : re := plus (Chr is_underscore).

(** [^pizza\.] *)
Definition rx_pizza_prefix : re := Seq Bos (lit "pizza.").

(** [[-._][a-z0-9]{1,3}$] *)
Definition rx_short_suffix : re :=
  seq_of [Chr (fun c => Ascii.eqb c "-" || Ascii.eqb c "." || Ascii.eqb c "_");
          counted (Chr lower_or_digit) 1 3;
          Eos].

(** [key_slug_from_recipe(recipe, prod_id_like)] *)
Definition key_slug_from_recipe (recipe prod_id_like : string) : string :=
  let base := Text.lower (Text.strip recipe) in
  let base := Strings.strip_by is_underscore (sub false _SLUG_BAD_FOR_KEY "_" base) in
  let base := sub false underscores "_" base in
  if Text.nonempty base then Strings.take 40 base
  else
    let raw := Text.lower prod_id_like in
    let raw := Text.replace "pizza.." "pizza." (Text.replace "pizza," "pizza." raw) in
    let raw := sub false rx_pizza_prefix "" raw in
    let raw := Strings.before_first "." raw in
    let raw := sub false rx_short_suffix "" raw in
    let raw := Strings.strip_by is_underscore (sub false _SLUG_BAD_FOR_KEY "_" raw) in
    let raw := sub false underscores "_" raw in
    Strings.take 40 (if Text.nonempty raw then raw else "recipe").

Definition size_abbreviations : list (string * string) :=
  [ ("PERSONAL", "p"); ("SMALL", "s"); ("MEDIUM", "m"); ("LARGE", "l");
    ("X-LARGE", "xl"); ("XXL", "xxl") ].

(** [abbrev_size_token(size)] *)
Definition abbrev_size_token (size : string) : string :=
  if negb (Text.nonempty size) then "m"
  else
    let s := Text.replace Text.dquote "" (Text.upper size) in
    if Strings.isdigit s then s
    else
      match PizzaHut.table_get s size_abbreviations with
      | Some v => v
      | None =>
          let t := Strings.take 6
                     (Text.lower
                        (sub false
                           (Chr (fun c => negb (Text.is_upper c || Text.is_digit c)))
                           "" s)) in
          if Text.nonempty t then t else "m"
      end.

Definition crust_abbreviations : list (string * string) :=
  [ ("hand tossed", "ht"); ("handcrafted", "hc"); ("original pan", "pan");
    ("pan", "pan"); ("stuffed crust", "stf");
    ("thin ’n’ crispy", "thn"); ("thin 'n' crispy", "thn");
    ("thin n crispy", "thn"); ("gluten free", "gf"); ("regular dough", "reg") ].

(** [abbrev_crust_token(crust)] *)
Definition abbrev_crust_token (crust : string) : string :=
  let s := Text.lower crust in
  match PizzaHut.table_get s crust_abbreviations with
  | Some v => v
  | None =>
      let t := Strings.take 6
                 (sub false (Chr (fun c => negb (lower_or_digit c))) "" s) in
      if Text.nonempty t then t else "reg"
  end.

(** The identifier of a variant, cleaned for the key: [None] when the
    field is absent, null or blank, or nothing is left of it. *)
Definition variant_id (v : json) : option string :=
  match v with
  | JNull => None
  | _ =>
      if Text.nonempty (Text.strip (str v)) then
        let vid := sub false _SLUG_BAD_FOR_KEY "_" (Text.lower (str v)) in
        let vid := Strings.take 32
                     (Strings.strip_by is_underscore (sub false underscores "_" vid)) in
        if Text.nonempty vid then Some vid else None
      else None
  end.

(** The loop over [("id", "sku", "code", "variantId", "variant_id")]. *)
Fixpoint first_variant_id (ks : list string) (variant : dict) : option string :=
  match ks with
  | [] => None
  | k :: rest =>
      match variant_id (get variant k) with
      | Some vid => Some vid
      | None => first_variant_id rest variant
      end
  end.

(** [product_key_for_variant(recipe, prod, size, crust, variant)] *)
Definition product_key_for_variant (recipe : string) (prod : dict)
    (size crust : string) (variant : dict) : string :=
  let tail := "_" ++ abbrev_size_token size ++ "_" ++ abbrev_crust_token crust in
  match first_variant_id ["id"; "sku"; "code"; "variantId"; "variant_id"] variant with
  | Some vid => "ph_" ++ vid ++ tail
  | None =>
      let base :=
        key_slug_from_recipe recipe
          (str (por (get prod "id") (por (get prod "code")
                  (por (get prod "slug") (JStr ""))))) in
      "ph_" ++ base ++ tail
  end.

End PizzaHutKeys.

(** ** Pizza Hut: the rows of a hut *)

Module PizzaHutRows.

Import Num Json Py Schema PizzaHut PizzaHutKeys PizzaHutRun.

(** [(x or "").strip()] *)
Definition stripped (x : json) : res string :=
  s ← as_str (por x (JStr ""));
  Val (Text.strip s).

(** [lines[-2]] of a list with at least two elements. *)
Definition last_but_one (l : list json) : json :=
  match rev l with
  | _ :: x :: _ => x
  | _ => JNull
  end.

(** [_hut_city_province(h)] *)
Definition _hut_city_province (h : dict) : res (string * string) :=
  addr ← as_dict (por (get h "address") (JDict []));
  city ← stripped (get addr "city");
  prov ← stripped (por (get addr "region")
                     (por (get addr "province") (por (get addr "state") (JStr ""))));
  let city :=
    match get addr "lines" with
    | JList lines =>
        if negb (Text.nonempty city) && (2 <=? List.length lines)%nat
        then Text.strip (str (last_but_one lines))
        else city
    | _ => city
    end in
  Val (city, prov).

(** [d.get(k1) or d.get(k2) or ... or ""] *)
Fixpoint first_truthy (d : dict) (ks : list string) : json :=
  match ks with
  | [] => JStr ""
  | k :: rest => por (get d k) (first_truthy d rest)
  end.

Definition variant_list_keys : list string :=
  ["priceVariants"; "sizePrices"; "variants"; "variantPrices"; "sizes"; "items"].

(** The first of the keys that holds a non-empty list. *)
Fixpoint listed_variants (ks : list string) (prod : dict) : option (list json) :=
  match ks with
  | [] => None
  | k :: rest =>
      match get prod k with
      | JList (x :: l) => Some (x :: l)
      | _ => listed_variants rest prod
      end
  end.

Definition product_level_keys : list string :=
  ["size"; "sizeKey"; "sizeName"; "crust"; "dough"; "style"; "price";
   "unitPrice"; "priceCents"; "key"; "label"; "id"].

(** The variant synthesized from the fields of the product. *)
Fixpoint synthesized (ks : list string) (prod : dict) : dict :=
  match ks with
  | [] => []
  | k :: rest =>
      match lookup k prod with
      | Some x => (k, x) :: synthesized rest prod
      | None => synthesized rest prod
      end
  end.

Definition variants_of (prod : dict) : list json :=
  match listed_variants variant_list_keys prod with
  | Some l => l
  | None =>
      match synthesized product_level_keys prod with
      | [] => []
      | v => [JDict v]
      end
  end.

(** The recipe of a product. *)
Definition recipe_of (prod : dict) : string :=
  let recipe := clean_recipe (first_truthy prod ["name"; "displayName"]) in
  if Text.nonempty recipe then recipe
  else clean_recipe (JStr (str (first_truthy prod ["kind"; "slug"]))).

(** The row of one variant; [v.get] raises on a variant that is not a
    mapping, [float] on a price beyond the doubles. *)
Definition variant_row (sid : json) (city province : string)
    (today : string * string * string) (prod : dict) (recipe : string) (v : json)
    : res row :=
  v ← as_dict v;
  let keyish := str (first_truthy v ["key"; "label"; "id"]) in
  let size :=
    normalize_size (first_truthy v ["size"; "sizeKey"; "sizeSlug"; "sizeName"]) keyish in
  let crust := normalize_crust (first_truthy v ["crust"; "dough"; "style"]) keyish in
  let crust := if Text.nonempty crust then crust else "Regular Dough" in
  cell ← match price_from_variant v (Some prod) with
         | Price f => Val (repr_float f)
         | NoPrice => Val ""
         | PriceError => Exc OverflowErr
         end;
  let '(date_key, month, year) := today in
  Val (Row "PH" ("PH_" ++ str sid) city province "Pizza" recipe
           ("PH_" ++ product_key_for_variant recipe prod size crust v)
           size crust cell date_key month year).

(** The loop over the variants of a product. *)
Fixpoint variant_rows (sid : json) (city province : string)
    (today : string * string * string) (prod : dict) (recipe : string)
    (variants : list json) (rows : list row) : res (list row) :=
  match variants with
  | [] => Val rows
  | v :: rest =>
      r ← variant_row sid city province today prod recipe v;
      variant_rows sid city province today prod recipe rest (rows ++ [r])%list
  end.

(** The loop over the products; an entry that is not a mapping is
    passed over. *)
Fixpoint product_rows (sid : json) (city province : string)
    (today : string * string * string) (products : list json) (rows : list row)
    : res (list row) :=
  match products with
  | [] => Val rows
  | JDict prod :: rest =>
      rows' ← variant_rows sid city province today prod (recipe_of prod)
                (variants_of prod) rows;
      product_rows sid city province today rest rows'
  | _ :: rest => product_rows sid city province today rest rows
  end.

(** The product list of a non-empty answer. *)
Definition products_of (data : json) : json :=
  match data with
  | JDict d =>
      match lookup "data" d with
      | Some (JDict inner) => por (get inner "products") (JList [])
      | _ => get d "products"
      end
  | _ => data
  end.

(** What [scrape_store] makes of a non-empty answer. *)
Definition rows_of (sid : json) (city province : string)
    (today : string * string * string) (data : json) : built :=
  match products_of data with
  | JList products =>
      match product_rows sid city province today products [] with
      | Val rows => Built rows
      | Exc _ => BuildError
      end
  | _ => NoProductList
  end.

(** [scrape_store(hut)]: the city and the province are read before the
    first request. *)
Definition scrape_store (hut : dict) (today : string * string * string)
    (stop : bool) (r1 r2 : response) : bool * outcome :=
  let sid := por (get hut "id") (JStr "") in
  match _hut_city_province hut with
  | Exc _ => (stop, Failed)
  | Val (city, province) =>
      PizzaHutRun.scrape_store (rows_of sid city province today) stop r1 r2
  end.

(** *** [fetch_huts_with_backoff] *)

Record huts_result : Type := HutsResult {
  huts : list json;
  requests : nat;       (* requests sent *)
  slept : list Z;       (* the seconds of each [time.sleep] *)
  flag : bool           (* [STOP_FLAG] on return *)
}.

Definition COOLDOWN_SECS : Z := 15.

(** The loop [for attempt in range(1, max_attempts + 1)] from [attempt]
    on, with [left] passes to go; [transport k] answers the request of
    attempt [k].  The flag is cleared before each request. *)
Fixpoint huts_attempts (transport : nat -> response) (attempt left : nat)
    (flag : bool) : huts_result :=
  match left with
  | O => HutsResult [] 0 [] flag
  | S left' =>
      let '(flag', fetched, _) := fetch_json false (transport attempt) in
      let again pause :=
        let r := huts_attempts transport (S attempt) left' flag' in
        HutsResult (huts r) (S (requests r)) (pause :: slept r) (PizzaHutRows.flag r) in
      match fetched with
      | Parsed (Some (JList (h :: l))) => HutsResult (h :: l) 1 [] flag'
      | Parsed _ => again (2 + Z.of_nat attempt)%Z
      | RaisedThrottled => again COOLDOWN_SECS
      | RaisedOther => again (2 + Z.of_nat attempt)%Z
      end
  end.

(** [fetch_huts_with_backoff(max_attempts)] *)
Definition fetch_huts_with_backoff (max_attempts : nat) (transport : nat -> response)
    (flag : bool) : huts_result :=
  huts_attempts transport 1 max_attempts flag.

End PizzaHutRows.

(** ** Notions used to state the properties of the Pizza Hut scraper *)

Module PizzaHutSpec.

Import Json Schema.

(** The characters of a product key: small letters, digits and the
    underscore. *)
Definition key_char (c : ascii) : bool :=
  PizzaHutKeys.lower_or_digit c || PizzaHutKeys.is_underscore c.

(** The constant cells of a row of the hut [sid], and the cells that are
    never blank. *)
Definition well_formed (sid : json) (r : row) : Prop :=
  chain_key r = "PH"
  /\ store_key r = "PH_" ++ str sid
  /\ category r = "Pizza"
  /\ In (size r) Spec.size_vocabulary
  /\ crust r <> ""
  /\ exists key, product_key r = "PH_ph_" ++ key
                 /\ key <> "" /\ Strings.all_chars key_char key = true.

(** The hut list an answer of the transport amounts to, if any: the
    parsed body of a response that [fetch_json] returns, when it is a
    non-empty list. *)
Definition hut_list (r : PizzaHutRun.response) : option (list json) :=
  match snd (PizzaHutRun.handle_response r) with
  | PizzaHutRun.Parsed (Some (JList (h :: l))) => Some (h :: l)
  | _ => None
  end.

(** The attempts [first], ..., [first + n - 1]. *)
Definition attempts_from (first n : nat) : list nat := seq first n.

(** The ids still to do after a wave whose futures complete in the
    order [completed]. *)
Definition after_wave (rem : gset string)
    (completed : list (string * PizzaHutRun.outcome)) : gset string :=
  PizzaHutRun.remaining
    (PizzaHutRun.wave_loop completed (PizzaHutRun.Blast rem [] [] false)).

(** A script the pool can produce: as long as ids remain, a wave
    completes at least one future, and its futures are those of huts
    that remained when it started. *)
Fixpoint admissible (rem : gset string)
    (script : list (list (string * PizzaHutRun.outcome))) : Prop :=
  match script with
  | [] => True
  | completed :: rest =>
      rem = ∅
      \/ (completed <> []
          /\ Forall (fun so => fst so ∈ rem) completed
          /\ admissible (after_wave rem completed) rest)
  end.

(** The number of waves of a trace. *)
Definition waves (trace : list PizzaHutRun.trace_item) : nat :=
  List.length
    (List.filter (fun t => match t with PizzaHutRun.Wave _ => true | _ => false end)
                 trace).

End PizzaHutSpec.

(** ** Domino's: consistency of the collected products and variants *)

Module DominosSpec.

Import Json DominosExtract.

(** Every listed code is a non-empty text with a record, every record is
    listed, and no list is empty. *)
Definition agree (st : extraction) : Prop :=
  (forall p l, product_to_variants st !! p = Some l ->
     l <> [] /\ forall vc, In vc l ->
       Text.nonempty vc = true /\ is_Some (variants_by_code st !! vc))
  /\ (forall vc, is_Some (variants_by_code st !! vc) ->
        exists p l, product_to_variants st !! p = Some l /\ In vc l).

(** A number as the size parsers read it: digits, possibly with a
    decimal point. *)
Definition number_char (c : ascii) : bool := Text.is_digit c || Ascii.eqb c ".".
Definition number_text (s : string) : bool :=
  Text.nonempty s && Strings.all_chars number_char s.

(** What group 1 of a size expression holds. *)
Definition numeric (t : list ascii) : Prop :=
  t <> [] /\ forallb number_char t = true.

(** The units the size parsers write after the number. *)
Definition size_units : list string := [Text.dquote; " mL"; " L"; "-Piece"; " pc"].

(** A number followed by a unit. *)
Definition measured (s : string) : Prop :=
  exists n u, s = n ++ u /\ number_text n = true /\ In u size_units.

End DominosSpec.

(** ** Domino's: the work rows of one store ([scrape_store]) *)

Module DominosRows.

Import Num Json Dominos DominosExtract.

(** [extract_province(flat)] *)
Fixpoint extract_province (flat : dict) : string :=
  match flat with
  | [] => ""
  | (k, v) :: rest =>
      match v with
      | JStr s =>
          if (Strings.len (Text.strip s) =? 2)%nat
             && existsb (fun x => Text.contains x (Text.lower k))
                        ["province"; "region"; "state"]
          then Text.strip s
          else extract_province rest
      | _ => extract_province rest
      end
  end.

(** [extract_city(flat)] *)
Fixpoint extract_city (flat : dict) : string :=
  match flat with
  | [] => ""
  | (k, v) :: rest =>
      match v with
      | JStr s => if Text.contains "city" (Text.lower k) then tidy v
                  else extract_city rest
      | _ => extract_city rest
      end
  end.

(** The first loop of [extract_store_name]. *)
Fixpoint named_store (ks : list string) (flat : dict) : option string :=
  match ks with
  | [] => None
  | key :: ks' =>
      match lookup key flat with
      | Some (JStr s) => Some (tidy (JStr s))
      | _ => named_store ks' flat
      end
  end.

(** The second loop of [extract_store_name]. *)
Fixpoint any_store_name (flat : dict) : string :=
  match flat with
  | [] => ""
  | (k, v) :: rest =>
      match v with
      | JStr s =>
          if Text.contains "store" (Text.lower k) || Text.contains "name" (Text.lower k)
          then tidy v
          else any_store_name rest
      | _ => any_store_name rest
      end
  end.

(** [extract_store_name(flat)] *)
Definition extract_store_name (flat : dict) : string :=
  match named_store ["StoreName"; "PublicName"; "StorePublicName"; "Name";
                     "profile_name"] flat with
  | Some s => s
  | None => any_store_name flat
  end.

Definition CRUST_PATTERNS : list string :=
  ["Parmesan Stuffed Crust"; "Crunchy Thin Crust"; "New-York Style"; "Hand Tossed";
   "Brooklyn"; "Gluten Free"; "Pan Pizza"].

(** [parse_crust_from_name(name)] *)
Definition parse_crust_from_name (name : string) : string :=
  let low := Text.lower name in
  default "" (List.find (fun pat => Text.contains (Text.lower pat) low) CRUST_PATTERNS).

(** A row of [rows]: a [dict] with the keys of [WORK_COLS]; the price is
    a float, or [None] for the empty text. *)
Record work_row : Type := WorkRow {
  store_id : Z;
  store_name : string;
  city : string;
  province : string;
  category_names : string;
  category_codes : string;
  product_code : string;
  product_name : string;
  product_desc : string;
  variant_code : string;
  variant_name : string;
  size : string;
  crust : string;
  flavor : string;
  portion : string;
  price : option pyfloat
}.

(** [tidy(d.get(k1) or ... or "")] *)
Definition first_of (d : dict) (ks : list string) : json :=
  List.fold_right (fun k rest => por (get d k) rest) (JStr "") ks.

(** The set [prod_codes]. *)
Definition variant_product_codes (variants : gmap string dict) : list string :=
  omap (fun kv =>
          let pc := get (snd kv) "ProductCode" in
          if truthy pc then Some (str pc) else None)
       (map_to_list variants).

Definition prod_codes (st : extraction) : gset string :=
  dom (products_by_code st) ∪ list_to_set (variant_product_codes (variants_by_code st)).

(** [sorted(prod_codes)] *)
Definition sorted_codes (st : extraction) : list string :=
  merge_sort str_le (elements (prod_codes st)).

Section Store.

Variable sid : Z.
Variables the_name the_city the_province : string.
Variable st : extraction.
Variable ix : cat_index.

(** The row of a product without variants. *)
Definition product_row (pcode : string) (prod : dict) (p_name p_desc : string)
    (cats : string * string) : work_row :=
  WorkRow sid the_name the_city the_province (fst cats) (snd cats)
    pcode p_name p_desc "" ""
    (derive_size [] prod "" p_name "")
    (sor (tidy (first_of prod ["Crust"; "CrustName"; "BreadType"]))
         (parse_crust_from_name p_name))
    (tidy (first_of prod ["Flavor"; "FlavorName"; "FlavorCode"]))
    (tidy (first_of prod ["Portion"]))
    (price_of (JDict prod)).

(** The row of one variant. *)
Definition variant_row (pcode : string) (prod : dict) (p_name p_desc : string)
    (cats : string * string) (vcode : string) : work_row :=
  let v := if Text.nonempty vcode then default [] (variants_by_code st !! vcode)
           else [] in
  let v_name := tidy (first_of v ["Name"; "VariantName"]) in
  let crust := tidy (first_of v ["Crust"; "CrustName"; "BreadType"]) in
  let crust :=
    if negb (Text.nonempty crust)
    then sor (tidy (first_of prod ["Crust"; "CrustName"; "BreadType"]))
             (sor (parse_crust_from_name v_name) (parse_crust_from_name p_name))
    else crust in
  let price := if truthy (JDict v) then price_of (JDict v) else None in
  let price := match price with Some f => Some f | None => price_of (JDict prod) end in
  WorkRow sid the_name the_city the_province (fst cats) (snd cats)
    pcode p_name p_desc vcode v_name
    (derive_size v prod v_name p_name vcode)
    crust
    (tidy (por (get v "Flavor")
             (por (get v "FlavorName")
                (por (get v "FlavorCode") (por (get prod "Flavor") (JStr ""))))))
    (tidy (first_of v ["Portion"; "PortionName"]))
    price.

(** The body of the loop over [sorted(prod_codes)]. *)
Definition rows_of_product (pcode : string) : list work_row :=
  let prod := default [] (products_by_code st !! pcode) in
  let p_name := tidy (first_of prod ["Name"; "ProductName"]) in
  let p_desc := tidy (first_of prod ["Description"]) in
  let v_codes := default [] (product_to_variants st !! pcode) in
  let cats := collect_category_strings pcode v_codes ix in
  match v_codes with
  | [] => [product_row pcode prod p_name p_desc cats]
  | _ :: _ => List.map (variant_row pcode prod p_name p_desc cats) v_codes
  end.

(** The keep rule. *)
Definition kept (r : work_row) : bool :=
  Text.nonempty (product_name r) || Text.nonempty (variant_name r)
  || match price r with Some _ => true | None => false end.

(** [rows], and [cleaned]. *)
Definition rows : list work_row := List.concat (List.map rows_of_product (sorted_codes st)).
Definition cleaned : list work_row := List.filter kept rows.

End Store.

(** The [try] block of [scrape_store(store_id)], from the two documents
    fetched; [flat] is the flattened profile.  [None] stands for an
    exception, which the handler turns into the empty list. *)
Definition scrape_body (depth : nat) (sid : Z) (menu : json) (flat : dict)
    : option (list work_row) :=
  let province := extract_province flat in
  let city := extract_city flat in
  let store_name := extract_store_name flat in
  match menu with
  | JDict m =>
      match collect_products_and_variants depth m with
      | Some st =>
          match collect_category_index depth m with
          | Ok ix => Some (cleaned sid store_name city province st ix)
          | _ => None
          end
      | None => None
      end
  | _ => None
  end.

(** The key of a work row within its store. *)
Definition row_key (r : work_row) : string * string := (product_code r, variant_code r).

End DominosRows.

(** * Properties *)

(** ** Text *)

Lemma title_from_nonempty b s : s <> "" -> Text.title_from b s <> "".
Proof. destruct s; [congruence | discriminate]. Qed.

Lemma nonempty_true s : Text.nonempty s = true <-> s <> "".
Proof. destruct s; simpl; split; congruence. Qed.


Lemma append_dquote_nonempty s : s ++ Text.dquote <> "".
Proof. destruct s; discriminate. Qed.

(** ** The matcher *)

Section RegexFacts.

Import Regex.

Lemma test_exact c c' : test false (Ascii.eqb c) c' = true -> c' = c.
Proof.
  unfold test. rewrite andb_false_l, orb_false_r.
  intros H. apply Ascii.eqb_eq in H. congruence.
Qed.

(** A literal consumes exactly its own text. *)
Lemma run_lit x : forall cu cap e g,
  In (e, g) (run false (lit x) (cu, cap)) ->
  after cu = (list_ascii_of_string x ++ after e)%list /\ g = cap.
Proof.
  induction x as [|c x IH]; intros cu cap e g Hin.
  - simpl in Hin. destruct Hin as [[= <- <-]|[]]. auto.
  - assert (Hc : forall cu cap e g,
               In (e, g) (run false (chr c) (cu, cap)) ->
               after cu = c :: after e /\ g = cap).
    { clear. intros cu cap e g Hin. simpl in Hin.
      destruct (after cu) as [|c' t] eqn:Ha; [destruct Hin|].
      destruct (test false (Ascii.eqb c) c') eqn:Ht; [|destruct Hin].
      apply test_exact in Ht. subst c'.
      destruct Hin as [[= <- <-]|[]]. auto. }
    destruct x as [|c2 x].
    + apply Hc in Hin. exact Hin.
    + change (lit (String c (String c2 x))) with (Seq (chr c) (lit (String c2 x))) in Hin.
      simpl run in Hin. apply in_flat_map in Hin.
      destruct Hin as [[e1 g1] [H1 H2]].
      apply Hc in H1. destruct H1 as [Ha ->].
      apply IH in H2. destruct H2 as [Hb ->].
      split; [|reflexivity]. rewrite Ha, Hb. reflexivity.
Qed.

(** An alternation of literals consumes one of them. *)
Lemma run_alts l : forall cu cap e g,
  In (e, g) (run false (alts l) (cu, cap)) ->
  exists x, In x l /\ after cu = (list_ascii_of_string x ++ after e)%list /\ g = cap.
Proof.
  induction l as [|x l IH]; intros cu cap e g Hin.
  - simpl in Hin. destruct Hin.
  - destruct l as [|y l].
    + apply run_lit in Hin. exists x. simpl. tauto.
    + change (alts (x :: y :: l)) with (Alt (lit x) (alts (y :: l))) in Hin.
      simpl run in Hin. apply in_app_or in Hin. destruct Hin as [Hin|Hin].
      * apply run_lit in Hin. exists x. simpl. tauto.
      * apply IH in Hin. destruct Hin as (z & Hz & H). exists z. split; [right; exact Hz|exact H].
Qed.

Lemma firstn_app_exact {A} (l1 l2 : list A) :
  firstn (List.length (l1 ++ l2) - List.length l2) (l1 ++ l2)%list = l1.
Proof.
  rewrite length_app.
  replace (List.length l1 + List.length l2 - List.length l2)%nat with (List.length l1 + 0)%nat by lia.
  rewrite firstn_app_2. simpl. apply app_nil_r.
Qed.

Lemma run_seq ic r1 r2 s :
  run ic (Seq r1 r2) s = flat_map (run ic r2) (run ic r1 s).
Proof. destruct s; reflexivity. Qed.

Lemma in_run_behind ic b p s s' : In s' (run ic (Behind b p) s) -> s' = s.
Proof.
  destruct s as [cu cap]. simpl.
  destruct (before cu); [destruct b|destruct (Bool.eqb _ _)]; simpl; intuition.
Qed.

Lemma in_run_ahead ic b r s s' : In s' (run ic (Ahead b r) s) -> s' = s.
Proof.
  destruct s as [cu cap]. simpl.
  destruct (run ic r (cu, cap)); destruct b; simpl; intuition.
Qed.

Lemma in_run_grp ic r cu cap e g :
  In (e, g) (run ic (Grp r) (cu, cap)) ->
  (exists g', In (e, g') (run ic r (cu, cap)))
  /\ g = Some (firstn (List.length (after cu) - List.length (after e)) (after cu)).
Proof.
  simpl. intros Hin. apply in_map_iff in Hin.
  destruct Hin as [[e' g'] [Heq Hin]]. simpl in Heq. injection Heq as <- <-.
  split; [exists g'; exact Hin | reflexivity].
Qed.

(** Group 1 of a match of [_NUM_INCH] is one of the listed sizes. *)
Lemma num_inch_group cu f :
  match_at false PizzaHut._NUM_INCH cu = Some f ->
  In (group1 f) PizzaHut.inch_sizes.
Proof.
  unfold match_at, PizzaHut._NUM_INCH.
  destruct (run _ _ _) as [|[e g] rest] eqn:Hrun; [discriminate|].
  intros [= <-].
  assert (Hin : In (e, g) (run false
            (Seq (Behind false Text.is_digit)
                 (Seq (Grp (alts PizzaHut.inch_sizes)) (Ahead false digit))) (cu, None)))
    by (rewrite Hrun; left; reflexivity).
  clear Hrun. rewrite run_seq in Hin.
  apply in_flat_map in Hin. destruct Hin as [s1 [H1 H2]].
  apply in_run_behind in H1. subst s1.
  rewrite run_seq in H2.
  apply in_flat_map in H2. destruct H2 as [[c2 g2] [H2 H3]].
  apply in_run_ahead in H3. injection H3 as -> ->.
  apply in_run_grp in H2. destruct H2 as [[g' H2] ->].
  apply run_alts in H2. destruct H2 as (x & Hx & Ha & _).
  unfold group1. simpl m_group. rewrite Ha.
  rewrite firstn_app_exact, string_of_list_ascii_of_string. exact Hx.
Qed.

Lemma search_from_num_inch n : forall cu f,
  search_from n false PizzaHut._NUM_INCH cu = Some f ->
  In (group1 f) PizzaHut.inch_sizes.
Proof.
  induction n as [|n IH]; intros cu f; simpl;
    destruct (match_at false PizzaHut._NUM_INCH cu) eqn:Hm.
  - intros [= <-]. eapply num_inch_group; eauto.
  - discriminate.
  - intros [= <-]. eapply num_inch_group; eauto.
  - destruct (after cu); [discriminate|]. apply IH.
Qed.

End RegexFacts.

(** ** Size canonicalisers (C4) *)

Section SizeFacts.

Import Json Regex PizzaHut.

Lemma named_tier_vocabulary s t :
  named_tier s = Some t -> In t Spec.named_size_tokens.
Proof.
  unfold named_tier, Spec.named_size_tokens.
  repeat match goal with
         | |- context [if ?b then _ else _] => destruct b
         end; intros [= <-]; simpl; tauto.
Qed.

Lemma search_num_inch s m :
  search false _NUM_INCH s = Some m -> In (group1 m) inch_sizes.
Proof. apply search_from_num_inch. Qed.

End SizeFacts.




(** ** Crust canonicalisers (C5) *)

Section CrustFacts.

Import Json PizzaHut.

Lemma crust_mapping_vocabulary k v :
  table_get k crust_mapping = Some v -> In v Spec.hut_crust_vocabulary.
Proof.
  unfold crust_mapping, Spec.hut_crust_vocabulary. simpl.
  repeat match goal with
         | |- context [if ?b then _ else _] => destruct b
         end; intros [= <-]; simpl; tauto.
Qed.

Lemma lower_empty s : Text.lower s = "" -> s = "".
Proof. destruct s; [reflexivity | discriminate]. Qed.

Lemma vocabulary_nonempty r :
  In r Spec.hut_crust_vocabulary \/ In r Spec.pp_crust_vocabulary -> r <> "".
Proof.
  intros [H|H] ->; vm_compute in H;
    repeat (destruct H as [H|H]; [discriminate H|]); exact H.
Qed.

(** What [normalize_crust] does once the text has been chosen. *)
Lemma normalize_crust_chosen s :
  let r := if negb (Text.nonempty (Text.lower (clean_crust s))) then "Regular Dough"
           else match table_get (Text.lower (clean_crust s)) crust_mapping with
                | Some v => v
                | None => Text.title (clean_crust s)
                end in
  In r Spec.hut_crust_vocabulary
  \/ (clean_crust s <> ""
      /\ table_get (Text.lower (clean_crust s)) crust_mapping = None
      /\ r = Text.title (clean_crust s)).
Proof.
  intros r. subst r.
  destruct (Text.nonempty (Text.lower (clean_crust s))) eqn:Hne; cbn [negb].
  - destruct (table_get (Text.lower (clean_crust s)) crust_mapping) as [v|] eqn:Hget.
    + left. eapply crust_mapping_vocabulary; eauto.
    + right. split; [|auto].
      intros He. rewrite He in Hne. discriminate Hne.
  - left. vm_compute. tauto.
Qed.

End CrustFacts.




(** ** Price extraction (C3) *)

Section PriceFacts.

Import Num Json.









End PriceFacts.



(** ** The document walk: fuel and totality *)

Section WalkFacts.

Import Json DominosExtract.





Lemma dedupe_spec lst : forall seen,
  NoDup (dedupe seen lst)
  /\ forall x, In x (dedupe seen lst) <-> (In x lst /\ x ∉ seen).
Proof.
  induction lst as [|vc lst IH]; intros seen; simpl.
  - split; [constructor | intros x; split; [intros [] | intros [[] _]]].
  - destruct (bool_decide (vc ∈ seen)) eqn:Hb.
    + apply bool_decide_eq_true in Hb.
      destruct (IH seen) as [Hnd Hin]. split; [exact Hnd|].
      intros x. rewrite Hin. split.
      * intros [H Hx]. split; [right; exact H | exact Hx].
      * intros [[->|H] Hx]; [contradiction | split; assumption].
    + apply bool_decide_eq_false in Hb.
      destruct (IH (seen ∪ {[vc]})) as [Hnd Hin]. split.
      * apply NoDup_cons_2; [|exact Hnd].
        intros Hx. apply list_elem_of_In in Hx.
        apply Hin in Hx. destruct Hx as [_ Hx].
        apply Hx. apply elem_of_union_r, elem_of_singleton. reflexivity.
      * intros x. simpl. rewrite Hin. split.
        -- intros [->|[H Hx]]; [split; [left; reflexivity | exact Hb]|].
           split; [right; exact H|].
           intros Hs. apply Hx. apply elem_of_union_l. exact Hs.
        -- intros [[->|H] Hx]; [left; reflexivity|].
           destruct (decide (x = vc)) as [->|Hne]; [left; reflexivity|].
           right. split; [exact H|].
           intros Hs. apply elem_of_union in Hs. destruct Hs as [Hs|Hs];
             [exact (Hx Hs) | apply elem_of_singleton in Hs; exact (Hne Hs)].
Qed.

Lemma add_variant_products vcode v pcode st :
  products_by_code (add_variant vcode v pcode st) = products_by_code st.
Proof.
  unfold add_variant. destruct (truthy pcode); simpl; [|reflexivity].
  destruct (truthy vcode); reflexivity.
Qed.

Lemma register_inline_products obj st :
  products_by_code (register_inline obj st) = products_by_code st.
Proof.
  unfold register_inline. destruct (lookup "Variants" obj) as [[]|]; try reflexivity.
  - revert st. induction l as [|v vs IH]; intros st; simpl; [reflexivity|].
    rewrite IH. destruct v; try reflexivity. apply add_variant_products.
  - revert st. induction d as [|[k v] vs IH]; intros st; simpl; [reflexivity|].
    rewrite IH. destruct v; try reflexivity. apply add_variant_products.
Qed.

End WalkFacts.



(** ** Item and variant signatures (C7) *)




(** ** Category index (C8) *)

Section CategoryFacts.

Import Json Dominos DominosExtract Invariants.

(** The text order of [sorted] is a total order. *)
Lemma ascii_compare_lt_trans a b c :
  Ascii.compare a b = Lt -> Ascii.compare b c = Lt -> Ascii.compare a c = Lt.
Proof.
  unfold Ascii.compare. rewrite !N.compare_lt_iff. apply N.lt_trans.
Qed.

#[local] Instance str_le_trans : Transitive str_le.
Proof.
  unfold str_le, String.leb. intros x.
  induction x as [|a x IH]; intros [|b y] [|c z]; simpl; try congruence.
  destruct (Ascii.compare a b) eqn:E1; try congruence;
    destruct (Ascii.compare b c) eqn:E2; try congruence.
  - apply Ascii.compare_eq_iff in E1. subst b. rewrite E2. apply IH.
  - apply Ascii.compare_eq_iff in E1. subst b. rewrite E2. auto.
  - apply Ascii.compare_eq_iff in E2. subst c. rewrite E1. auto.
  - rewrite (ascii_compare_lt_trans _ _ _ E1 E2). auto.
Qed.

#[local] Instance str_le_antisym : AntiSymm (=) str_le.
Proof. intros x y. apply String.leb_antisym. Qed.

#[local] Instance str_le_total : Total str_le.
Proof. intros x y. apply String.leb_total. Qed.

























End CategoryFacts.



(** ** The blast loop (C1) *)

Section BlastFacts.

Import PizzaHutRun.

(** The hut whose [Throttled] the loop observes is discarded, like every
    hut seen before it. *)
Lemma wave_loop_observed_throttle completed : forall b,
  broke b = false ->
  broke (wave_loop completed b) = true ->
  exists sid, In (sid, Throttled) completed
              /\ sid ∉ remaining (wave_loop completed b).
Proof.
  induction completed as [|[sid o] rest IH]; intros b Hb; simpl.
  - congruence.
  - destruct o.
    + intros H. apply IH in H; [|reflexivity].
      destruct H as (s & Hin & Hs). exists s. split; [right; exact Hin | exact Hs].
    + intros _. exists sid. split; [left; reflexivity|]. simpl.
      intros Hs. apply elem_of_difference in Hs. destruct Hs as [_ Hs].
      apply Hs, elem_of_singleton. reflexivity.
    + intros H. apply IH in H; [|reflexivity].
      destruct H as (s & Hin & Hs). exists s. split; [right; exact Hin | exact Hs].
Qed.

(** A hut whose future the loop has not reached stays in [remaining]. *)
Lemma wave_loop_keeps_unseen completed : forall b sid,
  sid ∈ remaining b ->
  ~ In sid (List.map fst completed) ->
  sid ∈ remaining (wave_loop completed b).
Proof.
  induction completed as [|[s o] rest IH]; intros b sid Hin Hnot; simpl; [exact Hin|].
  assert (Hne : s <> sid) by (intros ->; apply Hnot; left; reflexivity).
  assert (Hrest : ~ In sid (List.map fst rest)) by (intros H; apply Hnot; right; exact H).
  assert (Hkeep : sid ∈ remaining b ∖ {[s]}).
  { apply elem_of_difference. split; [exact Hin|].
    intros Hs. apply elem_of_singleton in Hs. congruence. }
  destruct o; [apply IH; assumption | exact Hkeep | apply IH; assumption].
Qed.

End BlastFacts.

(** C1, evaluated on scenario D.  The fetch for the only target T1 is
    answered with HTTP 429: [fetch_json] sets the flag and [scrape_store]
    raises [Throttled].  The loop of [blast_all] then discards T1 from
    [remaining] in its [finally] clause, so the run ends after this single
    wave, without cooldown and without rows, although a second attempt
    would have succeeded.  In general, whenever a wave ends on a throttle
    signal the target that signalled it has been discarded, while the
    targets whose futures the loop had not reached stay in [remaining]. *)
Theorem C1_throttled_target_is_discarded :
  PizzaHutRun.scrape_store (fun _ => PizzaHutRun.Built []) false
    (PizzaHutRun.Status 429 None) (PizzaHutRun.Status 200 None)
  = (true, PizzaHutRun.Throttled)
  /\ PizzaHutRun.remaining
       (PizzaHutRun.wave_loop [("T1", PizzaHutRun.Throttled)]
          (PizzaHutRun.Blast {[ "T1" ]} [] [] false)) = ∅
  /\ PizzaHutRun.blast_all ["T1"]
       [[("T1", PizzaHutRun.Throttled)];
        [("T1", PizzaHutRun.Scraped
                  [Schema.Row "PH" "PH_T1" "" "" "Pizza" "Pepperoni" "PH_ph_pepperoni_m_reg"
                              "Medium" "Regular Dough" "12.99" "2025-01-01" "January" "2025"])]]
     = PizzaHutRun.BlastResult [] [] [PizzaHutRun.Wave ["T1"]] ∅
  /\ (forall completed rem rows warns,
        PizzaHutRun.broke
          (PizzaHutRun.wave_loop completed (PizzaHutRun.Blast rem rows warns false)) = true ->
        exists sid,
          In (sid, PizzaHutRun.Throttled) completed
          /\ sid ∉ PizzaHutRun.remaining
                     (PizzaHutRun.wave_loop completed
                        (PizzaHutRun.Blast rem rows warns false)))
  /\ (forall completed b sid,
        sid ∈ PizzaHutRun.remaining b ->
        ~ In sid (List.map fst completed) ->
        sid ∈ PizzaHutRun.remaining (PizzaHutRun.wave_loop completed b)).
Proof.
  split; [reflexivity|]. split; [vm_compute; reflexivity|].
  split; [vm_compute; reflexivity|]. split.
  - intros completed rem rows warns Hb.
    apply wave_loop_observed_throttle; [reflexivity | exact Hb].
  - exact wave_loop_keeps_unseen.
Qed.

(** ** The throttle flag under interleaving (C2) *)

Section PoolFacts.

Import PizzaHutRun Invariants.

Lemma count_checked_le ws : (count_checked ws <= List.length ws)%nat.
Proof.
  unfold count_checked. induction ws as [|c ws IH]; simpl; [lia|].
  destruct (is_checked c); simpl; lia.
Qed.

Lemma count_checked_insert ws : forall w old new,
  ws !! w = Some old ->
  (count_checked (<[w := new]> ws) + (if is_checked old then 1 else 0)
   = count_checked ws + (if is_checked new then 1 else 0))%nat.
Proof.
  unfold count_checked.
  induction ws as [|c ws IH]; intros [|w] old new; simpl; try discriminate.
  - intros [= ->]. destruct (is_checked old), (is_checked new); simpl; lia.
  - intros H. specialize (IH w old new H).
    destruct (is_checked c); simpl; lia.
Qed.

Lemma late_requests_cons w e evs :
  late_requests w (e :: evs)
  = ((match e with
      | Requested w' true => if (w' =? w)%nat then 1 else 0
      | _ => 0
      end) + late_requests w evs)%nat.
Proof.
  unfold late_requests. simpl.
  destruct e as [w' [|]|w']; simpl; try reflexivity.
  destruct (w' =? w)%nat; reflexivity.
Qed.

Lemma all_late_requests_cons e evs :
  all_late_requests (e :: evs)
  = ((match e with Requested _ true => 1 | _ => 0 end) + all_late_requests evs)%nat.
Proof.
  unfold all_late_requests. simpl. destruct e as [w' [|]|w']; reflexivity.
Qed.

Lemma late_le_all w evs : (late_requests w evs <= all_late_requests evs)%nat.
Proof.
  induction evs as [|e evs IH]; [reflexivity|].
  rewrite late_requests_cons, all_late_requests_cons.
  destruct e as [w' [|]|w']; try lia. destruct (w' =? w)%nat; lia.
Qed.

Lemma fresh_pool_inv n : pool_inv n (fresh_pool n).
Proof.
  constructor; simpl.
  - apply repeat_length.
  - reflexivity.
  - intros w H. reflexivity.
  - intros w. unfold late_requests. simpl. lia.
  - unfold all_late_requests. simpl. lia.
Qed.

Lemma step_inv n p a p' : pool_inv n p -> step p a = Some p' -> pool_inv n p'.
Proof.
  intros [Hsize Hclear Hchecked Heach Htotal] Hstep.
  assert (Hzero : stop_flag p = false -> forall w, late_requests w (events p) = 0%nat).
  { intros Hf w. pose proof (late_le_all w (events p)) as H.
    rewrite (Hclear Hf) in H. lia. }
  pose proof (count_checked_le (workers p)) as Hle.
  destruct a as [w|w|w r|]; simpl in Hstep.
  - (* Enter *)
    destruct (workers p !! w) as [[]|] eqn:Hw; try discriminate.
    destruct (stop_flag p) eqn:Hf; injection Hstep as <-; constructor; simpl.
    + exact Hsize.
    + discriminate.
    + intros w' Hw'. rewrite late_requests_cons. simpl. auto.
    + intros w'. rewrite late_requests_cons. simpl. apply Heach.
    + rewrite all_late_requests_cons. simpl. exact Htotal.
    + rewrite length_insert. exact Hsize.
    + intros _. apply Hclear. reflexivity.
    + intros w' _. apply Hzero. reflexivity.
    + exact Heach.
    + exact Htotal.
  - (* Send *)
    destruct (workers p !! w) as [[]|] eqn:Hw; try discriminate.
    injection Hstep as <-. pose proof (Hchecked w Hw) as Hw0.
    pose proof (count_checked_insert (workers p) w Checked Waiting Hw) as Hcount.
    simpl in Hcount.
    constructor; simpl.
    + rewrite length_insert. exact Hsize.
    + intros Hf. rewrite Hf, all_late_requests_cons. simpl. auto.
    + intros w' Hw'. rewrite late_requests_cons.
      destruct (decide (w = w')) as [->|Hne].
      * rewrite list_lookup_insert_eq in Hw'; [discriminate|].
        apply lookup_lt_Some in Hw. exact Hw.
      * rewrite list_lookup_insert_ne in Hw' by exact Hne.
        rewrite (Hchecked w' Hw').
        destruct (stop_flag p); [|reflexivity].
        destruct (w =? w')%nat eqn:E; [apply Nat.eqb_eq in E; contradiction | reflexivity].
    + intros w'. rewrite late_requests_cons.
      destruct (stop_flag p); [|apply Heach].
      destruct (w =? w')%nat eqn:E; [|apply Heach].
      apply Nat.eqb_eq in E. subst w'. rewrite Hw0. lia.
    + rewrite all_late_requests_cons.
      destruct (stop_flag p); simpl; lia.
  - (* Receive *)
    destruct (workers p !! w) as [[]|] eqn:Hw; try discriminate.
    injection Hstep as <-.
    pose proof (count_checked_insert (workers p) w Waiting Idle Hw) as Hcount.
    simpl in Hcount.
    constructor; simpl.
    + rewrite length_insert. exact Hsize.
    + intros Hf. apply orb_false_iff in Hf. apply Hclear. tauto.
    + intros w' Hw'. destruct (decide (w = w')) as [->|Hne].
      * rewrite list_lookup_insert_eq in Hw'; [discriminate|].
        apply lookup_lt_Some in Hw. exact Hw.
      * rewrite list_lookup_insert_ne in Hw' by exact Hne. auto.
    + exact Heach.
    + destruct (stop_flag p) eqn:Hf; simpl; [lia|].
      rewrite (Hclear eq_refl).
      destruct (fst (handle_response r)); lia.
  - (* MainSet *)
    injection Hstep as <-.
    constructor; simpl.
    + exact Hsize.
    + discriminate.
    + exact Hchecked.
    + exact Heach.
    + destruct (stop_flag p) eqn:Hf; [exact Htotal|].
      rewrite (Hclear eq_refl). lia.
Qed.

Lemma run_inv n sched : forall p p',
  pool_inv n p -> run p sched = Some p' -> pool_inv n p'.
Proof.
  induction sched as [|a sched IH]; intros p p' Hinv; simpl.
  - intros [= <-]. exact Hinv.
  - destruct (step p a) as [p1|] eqn:Hs; [|discriminate].
    apply IH. eapply step_inv; eauto.
Qed.

Lemma step_flag p a p' : step p a = Some p' -> stop_flag p = true -> stop_flag p' = true.
Proof.
  destruct a as [w|w|w r|]; simpl;
    try (destruct (workers p !! w) as [[]|]; try discriminate);
    try destruct (stop_flag p) eqn:Hf; intros [= <-]; simpl; auto; discriminate.
Qed.

Lemma run_flag sched : forall p p',
  run p sched = Some p' -> stop_flag p = true -> stop_flag p' = true.
Proof.
  induction sched as [|a sched IH]; intros p p'; simpl.
  - intros [= <-]. auto.
  - destruct (step p a) as [p1|] eqn:Hs; [|discriminate].
    intros Hr Hf. apply (IH p1 p' Hr). eapply step_flag; eauto.
Qed.

End PoolFacts.

(** C2, as amended.  A call of [fetch_json] that tests the flag while it
    is set raises without sending a request, and the flag, once set, stays
    set until the wave ends.  Between the test and the request other
    threads run, so a worker that found the flag clear may still send its
    request after another worker has set it; in every interleaving each
    worker sends at most one such request in a wave, hence at most as many
    as the pool has workers.  When no worker is inside [fetch_json] (the
    pool has shut down, as it has before the cooldown sleep starts) no
    request can be sent. *)
Theorem C2_no_new_fetch_after_check (n : nat) (sched : list PizzaHutRun.action)
    (p : PizzaHutRun.pool) :
  PizzaHutRun.run (PizzaHutRun.fresh_pool n) sched = Some p ->
  (forall w, PizzaHutRun.stop_flag p = true ->
             PizzaHutRun.workers p !! w = Some PizzaHutRun.Idle ->
             PizzaHutRun.step p (PizzaHutRun.Enter w)
             = Some (PizzaHutRun.Pool true (PizzaHutRun.workers p)
                       (PizzaHutRun.Refused w :: PizzaHutRun.events p)))
  /\ (forall w, (PizzaHutRun.late_requests w (PizzaHutRun.events p) <= 1)%nat)
  /\ (PizzaHutRun.all_late_requests (PizzaHutRun.events p) <= n)%nat
  /\ (forall more p', PizzaHutRun.run p more = Some p' ->
                      PizzaHutRun.stop_flag p = true -> PizzaHutRun.stop_flag p' = true)
  /\ (forall w, Forall (fun c => c = PizzaHutRun.Idle) (PizzaHutRun.workers p) ->
                PizzaHutRun.step p (PizzaHutRun.Send w) = None).
Proof.
  intros Hrun.
  pose proof (run_inv n sched _ _ (fresh_pool_inv n) Hrun) as Hinv.
  split; [|split; [|split; [|split]]].
  - intros w Hf Hw. simpl. rewrite Hw, Hf. reflexivity.
  - apply (Invariants.inv_each _ _ Hinv).
  - pose proof (Invariants.inv_total _ _ Hinv). lia.
  - intros more p'. apply run_flag.
  - intros w Hall. simpl.
    destruct (PizzaHutRun.workers p !! w) as [c|] eqn:Hw; [|reflexivity].
    rewrite Forall_forall in Hall.
    rewrite (Hall c); [reflexivity|].
    eapply list_elem_of_lookup_2. exact Hw.
Qed.

(** Two workers: the second enters once the first has been throttled, and
    is refused. *)
Lemma C2_no_new_fetch_witness :
  PizzaHutRun.step
    (PizzaHutRun.Pool true [PizzaHutRun.Idle; PizzaHutRun.Idle]
       [PizzaHutRun.Requested 0 false])
    (PizzaHutRun.Enter 1)
  = Some (PizzaHutRun.Pool true [PizzaHutRun.Idle; PizzaHutRun.Idle]
            [PizzaHutRun.Refused 1; PizzaHutRun.Requested 0 false]).
Proof.
  apply (proj1 (C2_no_new_fetch_after_check 2
           [PizzaHutRun.Enter 0; PizzaHutRun.Send 0;
            PizzaHutRun.Receive 0 (PizzaHutRun.Status 429 None)]
           (PizzaHutRun.Pool true [PizzaHutRun.Idle; PizzaHutRun.Idle]
              [PizzaHutRun.Requested 0 false]) eq_refl) 1); reflexivity.
Defined.

(** The claim as stated fails: worker 1 finds the flag clear, worker 0 is
    answered with HTTP 429 and sets the flag, and worker 1 then sends its
    request while the flag is set. *)
Lemma C2_request_sent_while_flag_set :
  (PizzaHutRun.events
     <$> PizzaHutRun.run (PizzaHutRun.fresh_pool 2)
           [PizzaHutRun.Enter 0; PizzaHutRun.Enter 1; PizzaHutRun.Send 0;
            PizzaHutRun.Receive 0 (PizzaHutRun.Status 429 None);
            PizzaHutRun.Send 1])
  = Some [PizzaHutRun.Requested 1 true; PizzaHutRun.Requested 0 false]
  /\ PizzaHutRun.all_late_requests
       [PizzaHutRun.Requested 1 true; PizzaHutRun.Requested 0 false] = 1%nat.
Proof. vm_compute. auto. Qed.

(** ** Per-target failures (C9) *)

Section RunFacts.

Import Schema PizzaPizza.




End RunFacts.




(** ** The product-key filter (C10) *)

Section FilterFacts.

Import Model.

Variable hash : list (option string) -> Z.
Variable try_double : option string -> option Num.pyfloat.
Variable try_date : option string -> option string.
Variable date_parts : string -> Z * Z * string * Z * Z.

Lemma stg_typed_staged files t :
  In t (stg_typed try_double try_date files) -> staged_from try_double try_date files t.
Proof.
  unfold stg_typed, stg. intros Hin. apply in_map_iff in Hin.
  destruct Hin as (r & <- & Hr). apply filter_In in Hr.
  exists r. tauto.
Qed.

Lemma distinct_staged {B} `{EqDecision B} (f : typed -> B) (keep : typed -> bool) files :
  Forall (fun x => exists t, staged_from try_double try_date files t /\ x = f t)
         (remove_dups (List.map f (List.filter keep (stg_typed try_double try_date files)))).
Proof.
  apply Forall_forall. intros x Hx. rewrite elem_of_remove_dups in Hx.
  apply list_elem_of_In, in_map_iff in Hx. destruct Hx as (t & <- & Ht).
  apply filter_In in Ht. exists t. split; [apply stg_typed_staged; tauto | reflexivity].
Qed.

Lemma distinct_staged_all {B} `{EqDecision B} (f : typed -> B) files :
  Forall (fun x => exists t, staged_from try_double try_date files t /\ x = f t)
         (remove_dups (List.map f (stg_typed try_double try_date files))).
Proof.
  apply Forall_forall. intros x Hx. rewrite elem_of_remove_dups in Hx.
  apply list_elem_of_In, in_map_iff in Hx. destruct Hx as (t & <- & Ht).
  exists t. split; [apply stg_typed_staged; exact Ht | reflexivity].
Qed.

Lemma read_back_passes r : passes (read_back r) = PizzaPizza.keeps r.
Proof.
  unfold passes, PizzaPizza.keeps, read_back, cell. simpl.
  destruct (Schema.product_key r); reflexivity.
Qed.

End FilterFacts.

(** C10.  Every row that the Pizza Pizza scraper writes has a product key
    whose lower-cased text does not contain "product": the rows written
    are exactly the collected rows that pass this test.  The model builder
    applies the same test to every staged row (a missing key counts as the
    empty text), and every row of the four dimension tables and of the
    fact table is computed from a staged row that passes it; in
    particular no product key of [dim_product] contains "product". *)
Theorem C10_product_keys_filtered
    (hash : list (option string) -> Z)
    (try_double : option string -> option Num.pyfloat)
    (try_date : option string -> option string)
    (date_parts : string -> Z * Z * string * Z * Z)
    (completed : list (Schema.attempt Schema.row)) (files : list Model.raw) :
  Forall (fun r => Text.contains "product" (Text.lower (Schema.product_key r)) = false)
         (PizzaPizza.csv (PizzaPizza.main completed))
  /\ (forall r,
        In r (PizzaPizza.csv (PizzaPizza.main completed)) <->
        In r (PizzaPizza.gather completed [])
        /\ Text.contains "product" (Text.lower (Schema.product_key r)) = false)
  /\ (forall r, Model.passes (Model.read_back r) = PizzaPizza.keeps r)
  /\ Forall (fun x => exists t, Model.staged_from try_double try_date files t
                               /\ x = Model.chain_row hash t)
            (Model.dim_chain hash try_double try_date files)
  /\ Forall (fun x => exists t, Model.staged_from try_double try_date files t
                               /\ x = Model.store_row hash t)
            (Model.dim_store hash try_double try_date files)
  /\ Forall (fun x => exists t, Model.staged_from try_double try_date files t
                               /\ x = Model.product_row hash t)
            (Model.dim_product hash try_double try_date files)
  /\ Forall (fun x => exists t, Model.staged_from try_double try_date files t
                               /\ x = Model.date_row hash date_parts t)
            (Model.dim_date hash try_double try_date date_parts files)
  /\ Forall (fun x => exists t, Model.staged_from try_double try_date files t
                               /\ x = Model.fact_row hash t)
            (Model.fact_menu_price hash try_double try_date files)
  /\ Forall (fun x => Text.contains "product" (Text.lower (Model.product_key_of x)) = false)
            (Model.dim_product hash try_double try_date files).
Proof.
  assert (Hcsv : forall r,
        In r (PizzaPizza.csv (PizzaPizza.main completed)) <->
        In r (PizzaPizza.gather completed [])
        /\ Text.contains "product" (Text.lower (Schema.product_key r)) = false).
  { intros r. unfold PizzaPizza.main. cbn [PizzaPizza.csv].
    rewrite filter_In. unfold PizzaPizza.keeps. rewrite negb_true_iff. reflexivity. }
  assert (Hprod : Forall (fun x => exists t, Model.staged_from try_double try_date files t
                               /\ x = Model.product_row hash t)
            (Model.dim_product hash try_double try_date files)).
  { apply distinct_staged_all. }
  split; [apply Forall_forall; intros r Hr; apply list_elem_of_In, Hcsv in Hr; tauto|].
  split; [exact Hcsv|]. split; [exact read_back_passes|].
  split; [apply distinct_staged|].
  split; [apply distinct_staged_all|].
  split; [exact Hprod|].
  split; [apply distinct_staged|].
  split.
  - apply Forall_forall. intros x Hx. apply list_elem_of_In, in_map_iff in Hx.
    destruct Hx as (t & <- & Ht). apply filter_In in Ht.
    exists t. split; [apply stg_typed_staged; tauto | reflexivity].
  - eapply Forall_impl; [exact Hprod|]. intros x (t & (r & _ & Hp & ->) & ->).
    unfold Model.product_key_of, Model.product_row. cbn [fst snd Model.t_row].
    unfold Model.passes in Hp. apply negb_true_iff in Hp. exact Hp.
Qed.

(** Two collected rows, one of them a placeholder whose key contains
    "Product": the first is written and the placeholder is not, and no key
    of [dim_product] built from the two contains "product". *)
Lemma C10_product_keys_filtered_witness :
  let good := Schema.Row "PP" "PP_7" "Toronto" "ON" "Pizza" "Pepperoni"
                "PP_collection_12900_XL_REG" "X-Large" "Regular Dough" "18.99"
                "2025-01-01" "January" "2025" in
  let bad := Schema.Row "PP" "PP_7" "Toronto" "ON" "Pizza" "Combo"
               "PP_Product_1_SM_REG" "Small" "Regular Dough" "9.99"
               "2025-01-01" "January" "2025" in
  In good (PizzaPizza.csv (PizzaPizza.main [Schema.Returned [good; bad]]))
  /\ ~ In bad (PizzaPizza.csv (PizzaPizza.main [Schema.Returned [good; bad]]))
  /\ Forall (fun x => Text.contains "product" (Text.lower (Model.product_key_of x)) = false)
            (Model.dim_product (fun _ => 0%Z) (fun _ => None) (fun x => x)
               [Model.read_back good; Model.read_back bad]).
Proof.
  intros good bad.
  pose proof (C10_product_keys_filtered (fun _ => 0%Z) (fun _ => None) (fun x => x)
                (fun _ => (0, 0, "", 0, 0)%Z) [Schema.Returned [good; bad]]
                [Model.read_back good; Model.read_back bad]) as H.
  destruct H as (_ & H2 & _ & _ & _ & _ & _ & _ & H9).
  split; [|split; [|exact H9]].
  - apply H2. split; [left; reflexivity | vm_compute; reflexivity].
  - intros Hb. apply H2 in Hb. destruct Hb as [_ Hb]. vm_compute in Hb. discriminate Hb.
Defined.

(** * Further properties of the code *)

(** ** Substitution of character runs *)

Section ClassRuns.

Import Regex Runs.

Variable ic : bool.
Variable p : ascii -> bool.
Let q := test ic p.

Lemma advance_length bef aft :
  (List.length (after (advance q bef aft)) <= List.length aft)%nat.
Proof.
  revert bef. induction aft as [|c t IH]; intros bef; simpl; [lia|].
  destruct (q c); simpl; [specialize (IH (c :: bef)); lia | lia].
Qed.

Lemma run_class bef aft cap :
  run ic (Chr p) (Cur bef aft, cap) =
  match aft with
  | c :: t => if q c then [(Cur (c :: bef) t, cap)] else []
  | [] => []
  end.
Proof. reflexivity. Qed.

Lemma run_class_any cu cap :
  run ic (Chr p) (cu, cap) =
  match after cu with
  | c :: t => if q c then [(Cur (c :: before cu) t, cap)] else []
  | [] => []
  end.
Proof. reflexivity. Qed.

Lemma run_rep r lo hi cu cap :
  run ic (Rep r lo hi) (cu, cap)
  = repeat (S (List.length (after cu))) (run ic r) lo hi (cu, cap).
Proof. reflexivity. Qed.

Lemma repeat_S fuel step lo hi s :
  repeat (S fuel) step lo hi s =
  (match hi with
   | Some O => []
   | _ =>
       flat_map
         (fun s' =>
            if (List.length (after (fst s')) <? List.length (after (fst s)))%nat
            then repeat fuel step (Nat.pred lo) (Nat.pred <$> hi) s'
            else match lo with
                 | S O => [s']
                 | _ => []
                 end)
         (step s)
   end ++ match lo with O => [s] | S _ => [] end)%list.
Proof. reflexivity. Qed.

Lemma repeat_class_star step aft :
  (forall bef aft cap, step (Cur bef aft, cap) = run ic (Chr p) (Cur bef aft, cap)) ->
  forall bef cap fuel,
  (List.length aft < fuel)%nat ->
  exists tl,
    repeat fuel step 0 None (Cur bef aft, cap) = (advance q bef aft, cap) :: tl.
Proof.
  intros Hstep.
  induction aft as [|c t IH]; intros bef cap fuel Hf.
  - destruct fuel; [simpl in Hf; lia|]. cbn [repeat]. rewrite Hstep, run_class.
    simpl. eauto.
  - destruct fuel as [|fuel]; [simpl in Hf; lia|].
    cbn [repeat]. rewrite Hstep, run_class.
    cbn [advance]. destruct (q c) eqn:Hq.
    + cbn [flat_map after fst List.length].
      replace (List.length t <? S (List.length t))%nat with true
        by (symmetry; apply Nat.ltb_lt; lia).
      cbn [Nat.pred fmap option_fmap option_map].
      destruct (IH (c :: bef) cap fuel) as [tl Htl]; [simpl in Hf; lia|].
      rewrite Htl. simpl. eauto.
    + simpl. eauto.
Qed.

Lemma match_at_plus_class bef aft :
  match_at ic (plus (Chr p)) (Cur bef aft) =
  match aft with
  | c :: t =>
      if q c then Some (Found (Cur bef aft) (advance q (c :: bef) t) None) else None
  | [] => None
  end.
Proof.
  unfold match_at, plus. rewrite run_rep. cbn [after].
  remember (run ic (Chr p)) as step eqn:Hstep.
  assert (Hs : forall bef aft cap,
            step (Cur bef aft, cap) = run ic (Chr p) (Cur bef aft, cap))
    by (intros; subst; reflexivity).
  clear Hstep.
  destruct aft as [|c t].
  - rewrite repeat_S, Hs, run_class. reflexivity.
  - rewrite repeat_S, Hs, run_class.
    destruct (q c); [|reflexivity].
    cbn [flat_map after fst List.length].
    replace (List.length t <? S (List.length t))%nat with true
      by (symmetry; apply Nat.ltb_lt; lia).
    cbn [Nat.pred fmap option_fmap option_map].
    destruct (repeat_class_star step t Hs (c :: bef) None (S (List.length t)))
      as [tl ->]; [lia|].
    reflexivity.
Qed.

(** The first match of a run in a scan from the left. *)
Lemma search_from_plus_class aft : forall bef fuel,
  (List.length aft <= fuel)%nat ->
  (search_from fuel ic (plus (Chr p)) (Cur bef aft) = None
   /\ Forall (fun c => q c = false) aft)
  \/ exists pre c t,
       aft = (pre ++ c :: t)%list
       /\ Forall (fun c => q c = false) pre
       /\ q c = true
       /\ search_from fuel ic (plus (Chr p)) (Cur bef aft)
          = Some (Found (Cur (rev pre ++ bef) (c :: t))
                        (advance q (c :: rev pre ++ bef) t) None).
Proof.
  induction aft as [|c t IH]; intros bef fuel Hf.
  - left. split; [|constructor].
    destruct fuel; cbn [search_from]; rewrite match_at_plus_class; reflexivity.
  - destruct fuel as [|fuel]; [simpl in Hf; lia|].
    cbn [search_from]. rewrite match_at_plus_class.
    destruct (q c) eqn:Hq.
    + right. exists [], c, t. repeat split; auto.
    + cbn [after before]. destruct (IH (c :: bef) fuel) as [[Hnone Hall]|Hsome];
        [simpl in Hf; lia| |].
      * left. split; [exact Hnone | constructor; assumption].
      * destruct Hsome as (pre & d & t' & -> & Hpre & Hd & Hfound).
        right. exists (c :: pre), d, t'. repeat split; auto.
        rewrite Hfound. cbn [rev]. rewrite <- !app_assoc. reflexivity.
Qed.

Lemma squeeze_none repl l :
  Forall (fun c => q c = false) l -> forall b, squeeze q repl b l = l.
Proof.
  induction 1 as [|c l Hc _ IH]; intros b; simpl; [reflexivity|].
  rewrite Hc, IH. reflexivity.
Qed.

Lemma squeeze_prefix repl pre l :
  Forall (fun c => q c = false) pre ->
  forall b, squeeze q repl b (pre ++ l) =
            (pre ++ squeeze q repl (match pre with [] => b | _ => false end) l)%list.
Proof.
  induction 1 as [|c pre Hc Hpre IH]; intros b; simpl; [reflexivity|].
  rewrite Hc, IH. destruct pre; reflexivity.
Qed.

Lemma squeeze_in_run repl t : forall bef,
  squeeze q repl true t = squeeze q repl false (after (advance q bef t)).
Proof.
  induction t as [|c t IH]; intros bef; simpl; [reflexivity|].
  destruct (q c) eqn:Hc; simpl.
  - apply IH.
  - rewrite Hc. reflexivity.
Qed.

Lemma sub_from_plus_class repl n : forall aft bef fuel,
  (List.length aft <= n)%nat -> (List.length aft < fuel)%nat ->
  sub_from fuel ic (plus (Chr p)) repl (Cur bef aft) = squeeze q repl false aft.
Proof.
  induction n as [|n IH]; intros aft bef fuel Hn Hf.
  - destruct aft; [|simpl in Hn; lia]. destruct fuel; reflexivity.
  - destruct fuel as [|fuel]; [lia|].
    cbn [sub_from after].
    destruct (search_from_plus_class aft bef (List.length aft) (le_n _))
      as [[-> Hall]|(pre & c & t & Haft & Hpre & Hc & ->)].
    + symmetry. apply squeeze_none. exact Hall.
    + cbn [m_start m_end]. unfold between. cbn [after].
      pose proof (advance_length (c :: rev pre ++ bef) t) as Hlen.
      subst aft. rewrite length_app in *. cbn [List.length] in *.
      replace (List.length pre + S (List.length t) - S (List.length t))%nat
        with (List.length pre) by lia.
      rewrite firstn_app, Nat.sub_diag, firstn_all. cbn [firstn]. rewrite app_nil_r.
      replace (List.length (after (advance q (c :: rev pre ++ bef) t))
               <? List.length pre + S (List.length t))%nat
        with true by (symmetry; apply Nat.ltb_lt; lia).
      rewrite squeeze_prefix by assumption.
      f_equal.
      assert (Hsq : forall b, squeeze q repl b (c :: t)
                = ((if b then [] else repl) ++ squeeze q repl true t)%list).
      { intros b. simpl. rewrite Hc. reflexivity. }
      destruct (advance q (c :: rev pre ++ bef) t) as [b' a'] eqn:Hadv.
      cbn [after] in *.
      rewrite IH by lia.
      rewrite Hsq.
      rewrite (squeeze_in_run repl t (c :: rev pre ++ bef)), Hadv. cbn [after].
      destruct pre; reflexivity.
Qed.

Lemma list_ascii_length s : List.length (list_ascii_of_string s) = String.length s.
Proof. induction s; simpl; congruence. Qed.

(** [re.sub] of a character class repeated one or more times. *)
Lemma sub_plus_class repl s :
  sub ic (plus (Chr p)) repl s =
  string_of_list_ascii
    (squeeze q (list_ascii_of_string repl) false (list_ascii_of_string s)).
Proof.
  unfold sub, start. f_equal.
  apply (sub_from_plus_class _ (String.length s)); rewrite list_ascii_length; lia.
Qed.

End ClassRuns.

(** ** Whitespace normal forms *)

Section SpaceFacts.

Import Regex Runs.

Lemma test_plain p c : test false p c = p c.
Proof. unfold test. simpl. apply orb_false_r. Qed.

Lemma append_cons c r s : String c r ++ s = String c (r ++ s).
Proof. reflexivity. Qed.

Lemma append_nil s : "" ++ s = s.
Proof. reflexivity. Qed.

Lemma lstrip_suffix s : exists r, s = r ++ Text.lstrip s.
Proof.
  induction s as [|c t [r IH]]; [exists ""; reflexivity|].
  simpl. destruct (Text.is_space c).
  - exists (String c r). rewrite IH at 1. reflexivity.
  - exists "". reflexivity.
Qed.

Lemma rstrip_prefix s : exists r, s = Text.rstrip s ++ r.
Proof.
  induction s as [|c t [r IH]]; [exists ""; reflexivity|].
  simpl. destruct (Text.rstrip t) eqn:Ht.
  - destruct (Text.is_space c).
    + exists (String c t). reflexivity.
    + exists r. rewrite IH at 1. reflexivity.
  - exists r. rewrite IH at 1. reflexivity.
Qed.

Lemma spaced_weaken q s : spaced q true s = true -> spaced q false s = true.
Proof.
  destruct s as [|c t]; simpl; [auto|].
  destruct (q c); [|auto]. rewrite andb_false_r. discriminate.
Qed.

Lemma spaced_suffix q r : forall b s,
  spaced q b (r ++ s) = true -> spaced q false s = true.
Proof.
  induction r as [|c r IH]; intros b s H;
    rewrite ?append_cons, ?append_nil in H; cbn [spaced] in *.
  - destruct b; [apply spaced_weaken|]; exact H.
  - destruct (q c).
    + apply andb_prop in H as [_ H]. eapply IH; eauto.
    + eapply IH; eauto.
Qed.

Lemma spaced_prefix q s : forall b r,
  spaced q b (s ++ r) = true -> spaced q b s = true.
Proof.
  induction s as [|c s IH]; intros b r H;
    rewrite ?append_cons, ?append_nil in H; cbn [spaced] in *; [reflexivity|].
  destruct (q c).
  - apply andb_prop in H as [H1 H2]. rewrite H1. simpl. eapply IH; eauto.
  - eapply IH; eauto.
Qed.

Lemma spaced_strip s : single_spaced s = true -> single_spaced (Text.strip s) = true.
Proof.
  unfold single_spaced, Text.strip. intros H.
  destruct (lstrip_suffix s) as [r Hr].
  destruct (rstrip_prefix (Text.lstrip s)) as [r' Hr'].
  rewrite Hr in H. apply spaced_suffix in H.
  rewrite Hr' in H. eapply spaced_prefix; eauto.
Qed.

Lemma spaced_squeeze (q : ascii -> bool) l : q " "%char = true -> forall b,
  spaced q b (string_of_list_ascii (squeeze q [" "%char] b l)) = true.
Proof.
  intros Hq. induction l as [|c t IH]; intros b; simpl; [reflexivity|].
  destruct (q c) eqn:Hc.
  - destruct b; simpl; [apply IH|]. rewrite Hq. simpl. apply IH.
  - simpl. rewrite Hc. apply IH.
Qed.

Lemma squeeze_spaced q l : forall b,
  spaced q b (string_of_list_ascii l) = true -> squeeze q [" "%char] b l = l.
Proof.
  induction l as [|c t IH]; intros b H; simpl in *; [reflexivity|].
  destruct (q c) eqn:Hc.
  - apply andb_prop in H as [H1 H2]. apply andb_prop in H1 as [H0 H1].
    destruct b; [discriminate|]. simpl.
    apply Ascii.eqb_eq in H0. subst c. f_equal. apply IH. exact H2.
  - f_equal. apply IH. exact H.
Qed.

Lemma lstrip_fixed s :
  match s with String c _ => Text.is_space c = false | EmptyString => True end ->
  Text.lstrip s = s.
Proof. destruct s; simpl; [auto|]. intros ->. reflexivity. Qed.

Lemma lstrip_head s :
  match Text.lstrip s with
  | String c _ => Text.is_space c = false
  | EmptyString => True
  end.
Proof.
  induction s as [|c t IH]; simpl; [exact I|].
  destruct (Text.is_space c) eqn:Hc; [exact IH | exact Hc].
Qed.

Lemma rstrip_cons c t :
  Text.rstrip (String c t) =
  match Text.rstrip t with
  | EmptyString => if Text.is_space c then EmptyString else String c EmptyString
  | t' => String c t'
  end.
Proof. reflexivity. Qed.

Lemma rstrip_rstrip s : Text.rstrip (Text.rstrip s) = Text.rstrip s.
Proof.
  induction s as [|c t IH]; [reflexivity|].
  rewrite rstrip_cons.
  destruct (Text.rstrip t) eqn:Ht.
  - destruct (Text.is_space c) eqn:Hc; simpl; [reflexivity|]. rewrite Hc. reflexivity.
  - rewrite rstrip_cons, IH. reflexivity.
Qed.

Lemma rstrip_head s :
  match s with String c _ => Text.is_space c = false | EmptyString => True end ->
  match Text.rstrip s with
  | String c _ => Text.is_space c = false
  | EmptyString => True
  end.
Proof.
  destruct s as [|c t]; simpl; [auto|]. intros Hc.
  destruct (Text.rstrip t); [rewrite Hc|]; exact Hc.
Qed.

Lemma strip_strip s : Text.strip (Text.strip s) = Text.strip s.
Proof.
  unfold Text.strip.
  rewrite (lstrip_fixed (Text.rstrip (Text.lstrip s))).
  - apply rstrip_rstrip.
  - apply rstrip_head, lstrip_head.
Qed.

End SpaceFacts.

(** ** Substitution of single characters *)

Section ClassChars.

Import Regex Runs.

Variable ic : bool.
Variable p : ascii -> bool.
Let q := test ic p.

Lemma match_at_class bef aft :
  match_at ic (Chr p) (Cur bef aft) =
  match aft with
  | c :: t => if q c then Some (Found (Cur bef aft) (Cur (c :: bef) t) None) else None
  | [] => None
  end.
Proof.
  unfold match_at. rewrite run_class. destruct aft as [|c t]; [reflexivity|].
  unfold q. destruct (test ic p c); reflexivity.
Qed.

Lemma search_from_class aft : forall bef fuel,
  (List.length aft <= fuel)%nat ->
  (search_from fuel ic (Chr p) (Cur bef aft) = None
   /\ Forall (fun c => q c = false) aft)
  \/ exists pre c t,
       aft = (pre ++ c :: t)%list
       /\ Forall (fun c => q c = false) pre
       /\ q c = true
       /\ search_from fuel ic (Chr p) (Cur bef aft)
          = Some (Found (Cur (rev pre ++ bef) (c :: t))
                        (Cur (c :: rev pre ++ bef) t) None).
Proof.
  induction aft as [|c t IH]; intros bef fuel Hf.
  - left. split; [|constructor].
    destruct fuel; cbn [search_from]; rewrite match_at_class; reflexivity.
  - destruct fuel as [|fuel]; [simpl in Hf; lia|].
    cbn [search_from]. rewrite match_at_class.
    destruct (q c) eqn:Hq.
    + right. exists [], c, t. repeat split; auto.
    + cbn [after before]. destruct (IH (c :: bef) fuel) as [[Hnone Hall]|Hsome];
        [simpl in Hf; lia| |].
      * left. split; [exact Hnone | constructor; assumption].
      * destruct Hsome as (pre & d & t' & -> & Hpre & Hd & Hfound).
        right. exists (c :: pre), d, t'. repeat split; auto.
        rewrite Hfound. cbn [rev]. rewrite <- !app_assoc. reflexivity.
Qed.

Lemma filter_none l :
  Forall (fun c => q c = false) l -> List.filter (fun c => negb (q c)) l = l.
Proof.
  induction 1 as [|c l Hc _ IH]; simpl; [reflexivity|]. rewrite Hc. simpl. congruence.
Qed.

Lemma sub_from_class n : forall aft bef fuel,
  (List.length aft <= n)%nat -> (List.length aft < fuel)%nat ->
  sub_from fuel ic (Chr p) [] (Cur bef aft) = List.filter (fun c => negb (q c)) aft.
Proof.
  induction n as [|n IH]; intros aft bef fuel Hn Hf.
  - destruct aft; [|simpl in Hn; lia]. destruct fuel; reflexivity.
  - destruct fuel as [|fuel]; [lia|].
    cbn [sub_from after].
    destruct (search_from_class aft bef (List.length aft) (le_n _))
      as [[-> Hall]|(pre & c & t & Haft & Hpre & Hc & ->)].
    + symmetry. apply filter_none. exact Hall.
    + cbn [m_start m_end]. unfold between. cbn [after].
      subst aft. rewrite length_app in *. cbn [List.length] in *.
      replace (List.length pre + S (List.length t) - S (List.length t))%nat
        with (List.length pre) by lia.
      rewrite firstn_app, Nat.sub_diag, firstn_all. cbn [firstn]. rewrite app_nil_r.
      replace (List.length t <? List.length pre + S (List.length t))%nat
        with true by (symmetry; apply Nat.ltb_lt; lia).
      rewrite List.filter_app, filter_none by assumption.
      cbn [List.filter app]. rewrite Hc. cbn [negb]. f_equal.
      apply IH; lia.
Qed.

End ClassChars.

Section KeepFacts.

Import Regex Strings.

Lemma keep_filter q s :
  keep q s = string_of_list_ascii (List.filter q (list_ascii_of_string s)).
Proof.
  induction s as [|c t IH]; simpl; [reflexivity|].
  destruct (q c); simpl; congruence.
Qed.

(** [re.sub] of a character class by the empty text keeps the other
    characters. *)
Lemma sub_class_empty p s :
  sub false (Chr p) "" s = keep (fun c => negb (p c)) s.
Proof.
  rewrite keep_filter. unfold sub, start. f_equal.
  rewrite (sub_from_class false p (String.length s));
    [| rewrite list_ascii_length; lia | rewrite list_ascii_length; lia].
  apply List.filter_ext. intros c. rewrite test_plain. reflexivity.
Qed.

Lemma keep_keep q s : keep q (keep q s) = keep q s.
Proof.
  induction s as [|c t IH]; simpl; [reflexivity|].
  destruct (q c) eqn:Hc; simpl; rewrite ?Hc; congruence.
Qed.

Lemma all_chars_keep q s : all_chars q (keep q s) = true.
Proof.
  induction s as [|c t IH]; simpl; [reflexivity|].
  destruct (q c) eqn:Hc; simpl; rewrite ?Hc; auto.
Qed.

Lemma all_chars_app q a b :
  all_chars q (a ++ b) = all_chars q a && all_chars q b.
Proof.
  induction a as [|c a IH]; [reflexivity|].
  rewrite append_cons. simpl. rewrite IH, andb_assoc. reflexivity.
Qed.

Lemma all_chars_strip q s : all_chars q s = true -> all_chars q (Text.strip s) = true.
Proof.
  intros H. unfold Text.strip.
  destruct (lstrip_suffix s) as [r Hr].
  destruct (rstrip_prefix (Text.lstrip s)) as [r' Hr'].
  rewrite Hr, all_chars_app in H. apply andb_prop in H as [_ H].
  rewrite Hr', all_chars_app in H. apply andb_prop in H as [H _]. exact H.
Qed.

End KeepFacts.

(** ** Pizza Pizza: numbers and labels *)

Section NumFacts.

Import Num Json Regex Py Strings PizzaPizzaParse.

Lemma norm_go_fin fuel : forall m e, exists m' e', norm_go fuel m e = Fin m' e'.
Proof.
  induction fuel as [|fuel IH]; intros m e; simpl; [eauto|].
  destruct (m =? 0)%Z; [eauto|]. destruct (m mod 10 =? 0)%Z; eauto.
Qed.

Lemma of_decimal_not_nan m e : of_decimal m e <> NaN.
Proof.
  unfold of_decimal. destruct (too_big m e); [discriminate|].
  destruct (too_small m e); [discriminate|].
  unfold norm. destruct (norm_go_fin (S (Z.to_nat (Z.log2 (Z.abs m)))) m e) as (m' & e' & ->).
  discriminate.
Qed.

Lemma parse_float_nan s :
  parse_float s = Some NaN ->
  Text.lower
    (string_of_list_ascii (snd (sign_of (list_ascii_of_string (Text.strip s)))))
  = "nan".
Proof.
  unfold parse_float.
  destruct (sign_of (list_ascii_of_string (Text.strip s))) as [neg body]. cbn [snd].
  destruct (String.eqb _ "inf" || String.eqb _ "infinity"); [discriminate|].
  destruct (String.eqb _ "nan") eqn:Hnan; [intros _; apply String.eqb_eq; exact Hnan|].
  intros H. exfalso.
  repeat match type of H with
         | context [match ?x with _ => _ end] => destruct x; try discriminate
         end;
    injection H as H; eapply of_decimal_not_nan; eauto.
Qed.

Lemma numeric_not_n c : numeric_char c = true -> Text.lower_char c <> "n"%char.
Proof.
  destruct c as [[] [] [] [] [] [] [] []]; vm_compute; congruence.
Qed.

Lemma all_chars_list q s :
  all_chars q s = true -> Forall (fun c => q c = true) (list_ascii_of_string s).
Proof.
  induction s as [|c t IH]; simpl; [constructor|].
  intros H. apply andb_prop in H as [H1 H2]. constructor; auto.
Qed.

Lemma parse_float_numeric s :
  all_chars numeric_char s = true -> parse_float s <> Some NaN.
Proof.
  intros Hall Hnan. apply parse_float_nan in Hnan.
  apply all_chars_strip, all_chars_list in Hall.
  destruct (list_ascii_of_string (Text.strip s)) as [|c t]; [discriminate|].
  assert (Hbody : Forall (fun c => numeric_char c = true)
                         (snd (sign_of (c :: t)))).
  { unfold sign_of. destruct (Ascii.eqb c "-"); [inversion Hall; assumption|].
    destruct (Ascii.eqb c "+"); [inversion Hall; assumption | exact Hall]. }
  destruct (snd (sign_of (c :: t))) as [|d body]; [discriminate|].
  simpl in Hnan. injection Hnan as Hd _.
  inversion Hbody; subst. eapply numeric_not_n; eauto.
Qed.

Lemma keep_ext q q' s : (forall c, q c = q' c) -> keep q s = keep q' s.
Proof.
  intros H. induction s as [|c t IH]; simpl; [reflexivity|].
  rewrite H, IH. reflexivity.
Qed.

Lemma sub_non_numeric s :
  sub false (Chr (fun c => negb (numeric_char c))) "" s = keep numeric_char s.
Proof.
  rewrite sub_class_empty. apply keep_ext. intros c. apply negb_involutive.
Qed.

End NumFacts.

(** X1.  [num] on a text never raises and never yields NaN, and it reads
    only the digits, dots and minus signs of the text: every other
    character (currency signs, blanks, thousands separators) is ignored. *)
Theorem num_reads_numeric_characters (s : string) :
  exists o,
    PizzaPizzaParse.num (Json.JStr s) = Py.Val o
    /\ o <> Some Num.NaN
    /\ PizzaPizzaParse.num
         (Json.JStr (Strings.keep PizzaPizzaParse.numeric_char s)) = Py.Val o.
Proof.
  unfold PizzaPizzaParse.num. rewrite !sub_non_numeric, keep_keep.
  destruct (Text.nonempty _ && _).
  - eexists. split; [reflexivity|]. split; [|reflexivity].
    apply parse_float_numeric, all_chars_keep.
  - exists None. repeat split; discriminate.
Qed.

Section LabelFacts.

Import Regex Runs.

Lemma rstrip_last_clean s : last_clean (list_ascii_of_string (Text.rstrip s)) = true.
Proof.
  induction s as [|c t IH]; [reflexivity|].
  rewrite rstrip_cons. destruct (Text.rstrip t) as [|d u].
  - destruct (Text.is_space c) eqn:Hc; simpl; [reflexivity|]. rewrite Hc. reflexivity.
  - exact IH.
Qed.

Lemma last_clean_rstrip l :
  last_clean l = true -> Text.rstrip (string_of_list_ascii l) = string_of_list_ascii l.
Proof.
  induction l as [|c t IH]; [reflexivity|].
  intros H. cbn [string_of_list_ascii]. rewrite rstrip_cons.
  destruct t as [|d u].
  - simpl in *. destruct (Text.is_space c); [discriminate | reflexivity].
  - rewrite IH by exact H. reflexivity.
Qed.

Lemma last_clean_app pre l :
  l <> [] -> last_clean (pre ++ l) = last_clean l.
Proof.
  intros Hl. induction pre as [|c pre IH]; [reflexivity|].
  cbn [app last_clean]. destruct (pre ++ l)%list eqn:E; [|exact IH].
  apply app_eq_nil in E as [_ ->]. congruence.
Qed.

Lemma last_clean_cons c t : t <> [] -> last_clean (c :: t) = last_clean t.
Proof. destruct t; [congruence | reflexivity]. Qed.

Lemma squeeze_cons q repl b c t :
  squeeze q repl b (c :: t) =
  if q c then ((if b then [] else repl) ++ squeeze q repl true t)%list
  else c :: squeeze q repl false t.
Proof. reflexivity. Qed.

Lemma squeeze_last_clean q repl l : forall b,
  (forall c, q c = Text.is_space c) ->
  l <> [] -> last_clean l = true ->
  squeeze q repl b l <> [] /\ last_clean (squeeze q repl b l) = true.
Proof.
  intros b Hq. revert b. induction l as [|c t IH]; intros b Hl H; [congruence|].
  destruct t as [|d u].
  - simpl in H. cbn [squeeze]. rewrite Hq.
    destruct (Text.is_space c) eqn:Hc; [discriminate|].
    split; [discriminate|]. simpl. rewrite Hc. reflexivity.
  - rewrite last_clean_cons in H by discriminate.
    rewrite squeeze_cons. destruct (q c).
    + destruct (IH true) as [Hne Hlast]; [discriminate | exact H |].
      split.
      * intros E. apply app_eq_nil in E as [_ E]. exact (Hne E).
      * rewrite last_clean_app by exact Hne. exact Hlast.
    + destruct (IH false) as [Hne Hlast]; [discriminate | exact H |].
      split; [discriminate|].
      rewrite last_clean_cons by exact Hne. exact Hlast.
Qed.

Lemma strip_ends s :
  let l := list_ascii_of_string (Text.strip s) in
  match l with c :: _ => Text.is_space c = false | [] => True end
  /\ last_clean l = true.
Proof.
  unfold Text.strip. split; [|apply rstrip_last_clean].
  pose proof (rstrip_head (Text.lstrip s) (lstrip_head s)) as H.
  destruct (Text.rstrip (Text.lstrip s)); exact H.
Qed.

Lemma ends_strip l :
  match l with c :: _ => Text.is_space c = false | [] => True end ->
  last_clean l = true ->
  Text.strip (string_of_list_ascii l) = string_of_list_ascii l.
Proof.
  intros Hhead Hlast. unfold Text.strip.
  rewrite lstrip_fixed; [apply last_clean_rstrip; exact Hlast|].
  destruct l; exact Hhead.
Qed.

Lemma spaced_ext q q' s : (forall c, q c = q' c) ->
  forall b, spaced q b s = spaced q' b s.
Proof.
  intros H. induction s as [|c t IH]; intros b; simpl; [reflexivity|].
  rewrite H, !IH. reflexivity.
Qed.

Lemma spaced_sub x :
  single_spaced (sub false (plus space) " " x) = true.
Proof.
  unfold space. rewrite sub_plus_class. cbn [list_ascii_of_string].
  unfold single_spaced.
  rewrite <- (spaced_ext (test false Text.is_space)) by apply test_plain.
  apply spaced_squeeze, test_plain.
Qed.

Lemma sub_spaced y :
  single_spaced y = true -> sub false (plus space) " " y = y.
Proof.
  intros H. unfold space. rewrite sub_plus_class. cbn [list_ascii_of_string].
  rewrite squeeze_spaced; [apply string_of_list_ascii_of_string|].
  rewrite string_of_list_ascii_of_string.
  rewrite (spaced_ext _ Text.is_space) by apply test_plain. exact H.
Qed.

(** The blank-squeezed form of a stripped text is stripped and
    single-spaced, and squeezing it again changes nothing. *)
Lemma squeeze_stripped s :
  let y := sub false (plus space) " " (Text.strip s) in
  Text.strip y = y /\ single_spaced y = true
  /\ sub false (plus space) " " y = y.
Proof.
  cbv zeta. split; [|split; [apply spaced_sub | apply sub_spaced, spaced_sub]].
  unfold space. rewrite sub_plus_class. cbn [list_ascii_of_string].
  set (q := test false Text.is_space).
  assert (Hq : forall c, q c = Text.is_space c) by (intros; apply test_plain).
  destruct (strip_ends s) as [Hhead Hlast].
  set (l := list_ascii_of_string (Text.strip s)) in *.
  apply ends_strip.
  - destruct l as [|c t]; [exact I|]. cbn [squeeze]. rewrite Hq, Hhead. exact Hhead.
  - destruct l as [|c t] eqn:El; [reflexivity|].
    apply squeeze_last_clean; [exact Hq | discriminate | exact Hlast].
Qed.

End LabelFacts.

(** X2.  [norm_label] returns, for every text, a text without leading
    or trailing whitespace in which whitespace occurs only as single
    blanks, and it is idempotent. *)
Theorem norm_label_normal_form (s : string) :
  let y := PizzaPizzaParse.norm_label_text s in
  PizzaPizzaParse.norm_label (Json.JStr s) = Py.Val y
  /\ Text.strip y = y
  /\ Runs.single_spaced y = true
  /\ PizzaPizzaParse.norm_label (Json.JStr y) = Py.Val y.
Proof.
  cbv zeta. unfold PizzaPizzaParse.norm_label_text.
  destruct (squeeze_stripped s) as (H1 & H2 & H3).
  assert (Hnl : forall t, PizzaPizzaParse.norm_label (Json.JStr t)
                          = Py.Val (PizzaPizzaParse.norm_label_text t)).
  { intros t. unfold PizzaPizzaParse.norm_label. simpl.
    destruct t; reflexivity. }
  split; [apply Hnl|]. split; [exact H1|]. split; [exact H2|].
  rewrite Hnl. unfold PizzaPizzaParse.norm_label_text. rewrite H1, H3. reflexivity.
Qed.

(** X3.  Domino's [tidy] returns a text without leading or trailing
    whitespace in which whitespace occurs only as single blanks. *)
Theorem tidy_whitespace_normal_form (t : Json.json) :
  Text.strip (Dominos.tidy t) = Dominos.tidy t
  /\ Runs.single_spaced (Dominos.tidy t) = true.
Proof.
  assert (H : forall x,
    Text.strip (Text.strip (Regex.sub false (Regex.plus Regex.space) " " x))
    = Text.strip (Regex.sub false (Regex.plus Regex.space) " " x)
    /\ Runs.single_spaced
         (Text.strip (Regex.sub false (Regex.plus Regex.space) " " x)) = true).
  { intros x. split; [apply strip_strip | apply spaced_strip, spaced_sub]. }
  unfold Dominos.tidy, Dominos.nfkc, Dominos.html_unescape.
  destruct t; try apply H. split; reflexivity.
Qed.

(** ** Pizza Pizza: store ids *)

Section IdFacts.

Import Num Json Py Strings PizzaPizzaParse.

Local Open Scope Z_scope.

Lemma digits_go_nonneg l : forall acc n,
  0 <= acc -> 0 <= fst (fst (digits_go acc n l)).
Proof.
  induction l as [|c t IH]; intros acc n Hacc; simpl; [exact Hacc|].
  destruct (Text.is_digit c) eqn:Hd.
  - apply IH. unfold digit_val.
    unfold Text.is_digit, Text.in_range in Hd.
    apply andb_prop in Hd as [H1 _]. apply Nat.leb_le in H1. lia.
  - destruct (Ascii.eqb c "_"); [|exact Hacc].
    destruct t as [|d u]; [exact Hacc|].
    destruct (Text.is_digit d); [apply IH; exact Hacc | exact Hacc].
Qed.

Lemma parse_int_nonneg s z :
  all_chars Runs.not_dash s = true -> parse_int s = Some z -> 0 <= z.
Proof.
  intros Hs. apply all_chars_strip, all_chars_list in Hs.
  unfold parse_int.
  destruct (list_ascii_of_string (Text.strip s)) as [|c t] eqn:E.
  - simpl. discriminate.
  - unfold sign_of. inversion Hs as [|? ? Hc Ht]; subst.
    unfold Runs.not_dash in Hc. apply negb_true_iff in Hc. rewrite Hc.
    assert (Hd : forall body, match digitpart 0 body with
                              | Some (v, _, []) => Some (signed false v)
                              | _ => None
                              end = Some z -> 0 <= z).
    { intros body. unfold digitpart. destruct body as [|d u]; [discriminate|].
      destruct (Text.is_digit d); [|discriminate].
      pose proof (digits_go_nonneg (d :: u) 0 0 (Z.le_refl 0)) as Hn.
      destruct (digits_go 0 0 (d :: u)) as [[v n] rest]. simpl in Hn.
      destruct rest; [|discriminate]. simpl. intros [= <-]. exact Hn. }
    destruct (Ascii.eqb c "+"); apply Hd.
Qed.

Lemma prefix_dash c t : String.prefix "-" (String c t) = Ascii.eqb c "-".
Proof.
  change (String.prefix "-" (String c t))
    with (if ascii_dec "-" c then String.prefix "" t else false).
  destruct (ascii_dec "-" c) as [<-|Hn].
  - rewrite Ascii.eqb_refl. destruct t; reflexivity.
  - symmetry. apply Ascii.eqb_neq. congruence.
Qed.

Lemma contains_dash s :
  Text.contains "-" s = false -> all_chars Runs.not_dash s = true.
Proof.
  induction s as [|c t IH]; [reflexivity|].
  cbn [Text.contains all_chars]. rewrite prefix_dash. unfold Runs.not_dash at 1.
  destruct (Ascii.eqb c "-"); [discriminate|]. simpl. exact IH.
Qed.

Lemma before_first_dash s : all_chars Runs.not_dash (before_first "-" s) = true.
Proof.
  induction s as [|c t IH]; [reflexivity|].
  cbn [before_first]. rewrite prefix_dash.
  destruct (Ascii.eqb c "-") eqn:E; [reflexivity|].
  cbn [all_chars]. unfold Runs.not_dash at 1. rewrite E. exact IH.
Qed.

Lemma split_char_chars q sep s :
  all_chars q s = true -> Forall (fun x => all_chars q x = true) (split_char sep s).
Proof.
  induction s as [|c t IH]; intros H; simpl in *; [repeat constructor|].
  apply andb_prop in H as [Hc Ht]. specialize (IH Ht).
  destruct (Ascii.eqb c sep).
  - constructor; [reflexivity | exact IH].
  - destruct (split_char sep t) as [|piece rest].
    + repeat constructor. simpl. rewrite Hc. reflexivity.
    + inversion IH; subst. constructor; [|assumption].
      simpl. rewrite Hc. assumption.
Qed.

Lemma ints_of_nonneg pieces : forall zs,
  Forall (fun x => all_chars Runs.not_dash x = true) pieces ->
  ints_of pieces = Val zs -> Forall (fun z => 0 <= z) zs.
Proof.
  induction pieces as [|x rest IH]; intros zs Hall; simpl.
  - intros [= <-]. constructor.
  - inversion Hall as [|? ? Hx Hrest]; subst.
    destruct (Text.nonempty (Text.strip x)); [|apply IH; exact Hrest].
    unfold int_of_text. destruct (parse_int x) as [z|] eqn:Hz; [|discriminate].
    cbn. destruct (ints_of rest) as [zs'|] eqn:Hr; [|discriminate].
    cbn. intros [= <-]. constructor; [eapply parse_int_nonneg; eauto|].
    apply IH; auto.
Qed.

End IdFacts.

(** X4.  [parse_id_range] never yields a negative store id: whatever the
    [--ids] argument, the ids it returns are non-negative (an argument
    that starts with a minus sign raises ValueError), and without the
    argument they are the 2000 ids from 1 to 2000. *)
Theorem parse_id_range_nonnegative (arg : option string) (ids : list Z)
    (H : PizzaPizzaParse.parse_id_range arg = Py.Val ids) :
  Forall (fun i => (0 <= i)%Z) ids
  /\ (arg = None -> ids = seqZ 1 2000).
Proof.
  unfold PizzaPizzaParse.parse_id_range in H.
  destruct arg as [arg|].
  - split; [|discriminate].
    destruct (Text.contains "-" (Text.strip arg)) eqn:Hdash.
    + unfold PizzaPizzaParse.int_of_text in H.
      destruct (Num.parse_int (Strings.before_first "-" (Text.strip arg)))
        as [a|] eqn:Ha; [|discriminate].
      cbn in H.
      destruct (Num.parse_int (Text.split_once_last "-" (Text.strip arg)))
        as [b|]; [|discriminate].
      cbn in H. injection H as <-.
      apply Forall_forall. intros i Hi.
      unfold PizzaPizzaParse.range in Hi. apply elem_of_seqZ in Hi.
      pose proof (parse_int_nonneg _ _ (before_first_dash _) Ha). lia.
    + apply contains_dash in Hdash.
      destruct (Text.contains "," (Text.strip arg)).
      * eapply ints_of_nonneg; [|exact H]. apply split_char_chars. exact Hdash.
      * unfold PizzaPizzaParse.int_of_text in H.
        destruct (Num.parse_int (Text.strip arg)) as [z|] eqn:Hz; [|discriminate].
        cbn in H. injection H as <-. repeat constructor.
        eapply parse_int_nonneg; eauto.
  - injection H as <-. split; [|reflexivity].
    apply Forall_forall. intros i Hi.
    unfold PizzaPizzaParse.ID_RANGE_DEFAULT, PizzaPizzaParse.range in Hi.
    apply elem_of_seqZ in Hi. lia.
Qed.

(** The argument ["3-7"] gives the ids 3 to 7. *)
Lemma parse_id_range_nonnegative_witness :
  PizzaPizzaParse.parse_id_range (Some "3-7") = Py.Val [3; 4; 5; 6; 7]%Z
  /\ Forall (fun i => (0 <= i)%Z) [3; 4; 5; 6; 7]%Z.
Proof.
  split; [reflexivity|].
  exact (proj1 (parse_id_range_nonnegative (Some "3-7") [3; 4; 5; 6; 7]%Z eq_refl)).
Defined.

(** ** Pizza Pizza: the Pizza subtree *)

Section CategoryTree.

Import Json Py PizzaPizzaParse PizzaPizzaSpec.

Local Open Scope Z_scope.

Variable parents : gmap Z Z.
Variable root : Z.

Lemma climb_zero fuel seen : climb fuel parents root seen 0 = Some false.
Proof. destruct fuel; reflexivity. Qed.

Lemma climb_unfold fuel seen cid :
  climb (S fuel) parents root seen cid =
  if (cid =? 0) || bool_decide (cid ∈ seen) then Some false
  else if default 0 (parents !! cid) =? root then Some true
       else climb fuel parents root ({[cid]} ∪ seen) (default 0 (parents !! cid)).
Proof. reflexivity. Qed.

Lemma climb_total fuel : forall seen cid,
  (base.size (dom parents ∖ seen) < fuel)%nat ->
  is_Some (climb fuel parents root seen cid).
Proof.
  induction fuel as [|fuel IH]; intros seen cid Hf; [lia|].
  rewrite climb_unfold.
  destruct ((cid =? 0) || bool_decide (cid ∈ seen)) eqn:Hstop; [eauto|].
  apply orb_false_iff in Hstop as [_ Hseen]. apply bool_decide_eq_false in Hseen.
  destruct (default 0 (parents !! cid) =? root); [eauto|].
  destruct (parents !! cid) as [pid|] eqn:Hp; simpl.
  - apply IH.
    assert (Hsub : dom parents ∖ ({[cid]} ∪ seen) ⊂ dom parents ∖ seen).
    { split.
      - intros x Hx. apply elem_of_difference in Hx as [Hx1 Hx2].
        apply elem_of_difference. split; [exact Hx1|].
        intros Hx3. apply Hx2, elem_of_union. right. exact Hx3.
      - intros Hc.
        assert (cid ∈ dom parents ∖ seen) as Hin
          by (apply elem_of_difference; split; [apply elem_of_dom; eauto | exact Hseen]).
        apply Hc, elem_of_difference in Hin as [_ Hin].
        apply Hin, elem_of_union. left. apply elem_of_singleton. reflexivity. }
    apply subset_size in Hsub. lia.
  - rewrite climb_zero. eauto.
Qed.

Lemma climb_sound fuel : forall seen cid,
  climb fuel parents root seen cid = Some true -> ancestor parents root cid.
Proof.
  induction fuel as [|fuel IH]; intros seen cid.
  - simpl. destruct ((cid =? 0) || bool_decide (cid ∈ seen)); discriminate.
  - rewrite climb_unfold.
    destruct ((cid =? 0) || bool_decide (cid ∈ seen)) eqn:Hstop; [discriminate|].
    apply orb_false_iff in Hstop as [Hz _]. apply Z.eqb_neq in Hz.
    destruct (default 0 (parents !! cid) =? root) eqn:Hr.
    + intros _. apply ancestor_parent; [exact Hz | apply Z.eqb_eq; exact Hr].
    + intros H. apply ancestor_step; [exact Hz | eapply IH; exact H].
Qed.

(** A set closed under the parent link, none of whose members has
    [root] as its parent, holds no category below [root]. *)
Lemma ancestor_outside (C : gset Z) cid :
  (forall s, s ∈ C -> default 0 (parents !! s) ≠ root /\ default 0 (parents !! s) ∈ C) ->
  ancestor parents root cid -> cid ∉ C.
Proof.
  intros HC Ha. induction Ha as [cid Hz Hr | cid Hz Ha IH]; intros Hin.
  - destruct (HC _ Hin) as [Hn _]. congruence.
  - destruct (HC _ Hin) as [_ Hp]. exact (IH Hp).
Qed.

Lemma climb_complete fuel : forall seen cid,
  (forall s, s ∈ seen ->
     default 0 (parents !! s) ≠ root
     /\ (default 0 (parents !! s) ∈ seen \/ default 0 (parents !! s) = cid)) ->
  climb fuel parents root seen cid = Some false -> ~ ancestor parents root cid.
Proof.
  induction fuel as [|fuel IH]; intros seen cid Hinv.
  - simpl. destruct (cid =? 0) eqn:Hz.
    + intros _ Ha. apply Z.eqb_eq in Hz. inversion Ha; congruence.
    + simpl. destruct (bool_decide (cid ∈ seen)) eqn:Hs; [|discriminate].
      apply bool_decide_eq_true in Hs. intros _ Ha.
      refine (ancestor_outside seen cid _ Ha Hs).
      intros s Hin. destruct (Hinv s Hin) as [Hn [Hp | Hp]]; split; auto.
      rewrite Hp. exact Hs.
  - rewrite climb_unfold. destruct (cid =? 0) eqn:Hz.
    + intros _ Ha. apply Z.eqb_eq in Hz. inversion Ha; congruence.
    + simpl. destruct (bool_decide (cid ∈ seen)) eqn:Hs.
      * apply bool_decide_eq_true in Hs. intros _ Ha.
        refine (ancestor_outside seen cid _ Ha Hs).
        intros s Hin. destruct (Hinv s Hin) as [Hn [Hp | Hp]]; split; auto.
        rewrite Hp. exact Hs.
      * destruct (default 0 (parents !! cid) =? root) eqn:Hr; [discriminate|].
        apply Z.eqb_neq in Hr. intros H Ha.
        assert (Hnext : ~ ancestor parents root (default 0 (parents !! cid))).
        { eapply IH; [|exact H]. intros s Hin.
          apply elem_of_union in Hin as [Hin|Hin].
          - apply elem_of_singleton in Hin. subst s. split; [exact Hr | right; reflexivity].
          - destruct (Hinv s Hin) as [Hn [Hp | Hp]].
            + split; [exact Hn | left; apply elem_of_union; right; exact Hp].
            + split; [exact Hn | left; apply elem_of_union; left;
                                  apply elem_of_singleton; exact Hp]. }
        inversion Ha; subst; congruence.
Qed.

End CategoryTree.

Lemma climb_enough (parents : gmap Z Z) (cid root : Z) :
  PizzaPizzaParse.climb (S (base.size parents)) parents root ∅ cid
  = Some (PizzaPizzaParse.is_descendant parents cid root).
Proof.
  unfold PizzaPizzaParse.is_descendant.
  destruct (climb_total parents root (S (base.size parents)) ∅ cid) as [b Hb].
  { rewrite difference_empty_L, size_dom. lia. }
  rewrite Hb. reflexivity.
Qed.

Lemma is_descendant_ancestor (parents : gmap Z Z) (cid root : Z) :
  PizzaPizzaParse.is_descendant parents cid root = true
  <-> PizzaPizzaSpec.ancestor parents root cid.
Proof.
  pose proof (climb_enough parents cid root) as Hb.
  split.
  - intros E. rewrite E in Hb. eapply climb_sound; exact Hb.
  - intros Ha. destruct (PizzaPizzaParse.is_descendant parents cid root); [reflexivity|].
    exfalso. eapply climb_complete; [|exact Hb|exact Ha].
    intros s Hs. apply elem_of_empty in Hs. destruct Hs.
Qed.

(** X5.  [is_descendant] always terminates, cyclic parent links
    included: one more iteration than there are categories is enough.
    It answers True exactly for the categories from which the parent
    links lead to the root. *)
Theorem is_descendant_decides (parents : gmap Z Z) (cid root : Z) :
  PizzaPizzaParse.climb (S (base.size parents)) parents root ∅ cid
  = Some (PizzaPizzaParse.is_descendant parents cid root)
  /\ (PizzaPizzaParse.is_descendant parents cid root = true
      <-> PizzaPizzaSpec.ancestor parents root cid).
Proof.
  split; [apply climb_enough | apply is_descendant_ancestor].
Qed.

Section CategoryIds.

Import Json Py PizzaPizzaParse PizzaPizzaSpec.

Local Open Scope Z_scope.

Lemma sorted_lt l :
  StronglySorted Z.le l -> List.NoDup l -> StronglySorted Z.lt l.
Proof.
  induction 1 as [|x l Hs IH Hall]; intros Hnd; constructor.
  - apply IH. inversion Hnd; assumption.
  - inversion Hnd as [|? ? Hx _]; subst.
    rewrite List.Forall_forall in *. intros y Hy.
    specialize (Hall y Hy). assert (x <> y) by (intros ->; exact (Hx Hy)). lia.
Qed.

Lemma sorted_set_sorted l : StronglySorted Z.lt (sorted_set l).
Proof.
  unfold sorted_set. apply sorted_lt.
  - apply StronglySorted_merge_sort; [intros x y z; lia|].
    intros x y. lia.
  - apply NoDup_ListNoDup.
    rewrite merge_sort_Permutation. apply NoDup_remove_dups.
Qed.

Lemma sorted_set_elem l i : In i (sorted_set l) -> In i l.
Proof.
  unfold sorted_set. intros H. apply list_elem_of_In in H.
  rewrite merge_sort_Permutation in H. rewrite elem_of_remove_dups in H.
  apply list_elem_of_In. exact H.
Qed.

Lemma as_int_eq x i : as_int x = Some i -> eq_int x i = true.
Proof.
  destruct x; simpl; try discriminate; intros [= <-]; apply Z.eqb_refl.
Qed.

Lemma select_elem parents cats : forall acc l i,
  for_each (select_category parents) cats acc = Val l ->
  In i l ->
  In i acc
  \/ (offers cats i
      /\ (i = PIZZA_ROOT_ID \/ is_descendant parents i PIZZA_ROOT_ID = true)).
Proof.
  induction cats as [|c rest IH]; intros acc l i; simpl.
  - intros [= <-] Hi. left. exact Hi.
  - destruct (select_category parents c acc) as [acc'|] eqn:Hsel; [|discriminate].
    intros Hrest Hi.
    assert (Hweak : forall j, offers rest j -> offers (c :: rest) j).
    { intros j (d & Hd & Hrestd). exists d. split; [right; exact Hd | exact Hrestd]. }
    destruct (IH _ _ _ Hrest Hi) as [Hacc | [Hoff Hroot]];
      [|right; split; [apply Hweak; exact Hoff | exact Hroot]].
    unfold select_category in Hsel.
    destruct c; try discriminate. cbn in Hsel.
    destruct (as_int (get d "id")) as [cid|] eqn:Hid;
      [|assert (acc' = acc) by congruence; subst; left; exact Hacc].
    match type of Hsel with
    | context [if ?b then _ else _] =>
        change b with (((cid =? PIZZA_ROOT_ID) || is_descendant parents cid PIZZA_ROOT_ID)
                       && truthy (get d "products_available")) in Hsel
    end.
    destruct (((cid =? PIZZA_ROOT_ID) || is_descendant parents cid PIZZA_ROOT_ID)
              && truthy (get d "products_available")) eqn:Hcond;
      [|assert (acc' = acc) by congruence; subst; left; exact Hacc].
    assert (acc' = (acc ++ [cid])%list) by congruence; subst. apply in_app_or in Hacc as [Hacc|[<-|[]]]; [left; exact Hacc|].
    right. apply andb_prop in Hcond as [Hwhere Havail]. split.
    + exists d. split; [left; reflexivity|]. split; [apply as_int_eq; exact Hid | exact Havail].
    + apply orb_prop in Hwhere as [Hr|Hd]; [left; apply Z.eqb_eq; exact Hr | right; exact Hd].
Qed.

Lemma root_fallback_elem cats : forall l i,
  root_fallback cats = Val l -> In i l -> i = PIZZA_ROOT_ID /\ offers cats i.
Proof.
  induction cats as [|c rest IH]; intros l i; simpl.
  - intros [= <-] [].
  - destruct c; try discriminate. cbn.
    destruct (eq_int (get d "id") PIZZA_ROOT_ID && truthy (get d "products_available"))
      eqn:Hcond.
    + intros [= <-] [<-|[]]. split; [reflexivity|].
      apply andb_prop in Hcond as [H1 H2].
      exists d. split; [left; reflexivity | split; assumption].
    + intros Hrest Hi. destruct (IH _ _ Hrest Hi) as [-> (d' & Hd' & Hoff)].
      split; [reflexivity|]. exists d'. split; [right; exact Hd' | exact Hoff].
Qed.

End CategoryIds.

(** X6.  The ids [pizza_category_ids_and_names] returns are in strictly
    increasing order (so without duplicates); each of them is the id of
    an entry of the list with [products_available] set, and is the Pizza
    root or a category from which the parent links lead to the root. *)
Theorem pizza_category_ids_sound
    (categories : list Json.json) (ids : list Z) (names : gmap Z Json.json)
    (H : PizzaPizzaParse.pizza_category_ids_and_names categories = Py.Val (ids, names)) :
  StronglySorted Z.lt ids
  /\ exists m,
       PizzaPizzaParse.category_maps categories = Py.Val m
       /\ names = PizzaPizzaParse.id_to_name m
       /\ forall i, In i ids ->
            PizzaPizzaSpec.offers categories i
            /\ (i = PizzaPizzaParse.PIZZA_ROOT_ID
                \/ PizzaPizzaSpec.ancestor (PizzaPizzaParse.id_to_parent m)
                     PizzaPizzaParse.PIZZA_ROOT_ID i).
Proof.
  unfold PizzaPizzaParse.pizza_category_ids_and_names in H.
  remember PizzaPizzaParse.sorted_set as sorted eqn:Hsorted.
  destruct (PizzaPizzaParse.category_maps categories) as [m|] eqn:Hm; [|discriminate].
  cbn in H.
  destruct (Py.for_each _ categories []) as [l|] eqn:Hl; [|discriminate].
  cbn in H.
  assert (Hl' : forall i, In i l ->
            PizzaPizzaSpec.offers categories i
            /\ (i = PizzaPizzaParse.PIZZA_ROOT_ID
                \/ PizzaPizzaSpec.ancestor (PizzaPizzaParse.id_to_parent m)
                     PizzaPizzaParse.PIZZA_ROOT_ID i)).
  { intros i Hi. destruct (select_elem _ _ _ _ _ Hl Hi) as [[]|[Hoff Hr]].
    split; [exact Hoff|]. destruct Hr as [Hr|Hr]; [left; exact Hr|].
    right. apply is_descendant_ancestor. exact Hr. }
  destruct l as [|x l].
  - destruct (PizzaPizzaParse.root_fallback categories) as [l'|] eqn:Hfb; [|discriminate].
    cbn in H. injection H as <- <-. subst sorted.
    split; [apply sorted_set_sorted|]. exists m. repeat split; auto.
    + apply sorted_set_elem in H.
      destruct (root_fallback_elem _ _ _ Hfb H) as [_ Hoff]. exact Hoff.
    + apply sorted_set_elem in H.
      destruct (root_fallback_elem _ _ _ Hfb H) as [-> _]. left. reflexivity.
  - cbn in H. injection H as <- <-. subst sorted.
    split; [apply sorted_set_sorted|]. exists m. repeat split; auto;
      apply sorted_set_elem in H; apply Hl'; exact H.
Qed.

(** The root and one child on offer give the ids 5 and 10020. *)
Lemma pizza_category_ids_sound_witness :
  PizzaPizzaParse.pizza_category_ids_and_names
    [Json.JDict [("id", Json.JInt 10020); ("name", Json.JStr "Pizza");
                 ("products_available", Json.JBool true)];
     Json.JDict [("id", Json.JInt 5); ("parent_id", Json.JInt 10020);
                 ("name", Json.JStr "Specialty");
                 ("products_available", Json.JBool true)]]
  = Py.Val ([5; 10020]%Z,
            <[5%Z := Json.JStr "Specialty"]> (<[10020%Z := Json.JStr "Pizza"]> ∅))
  /\ StronglySorted Z.lt [5; 10020]%Z.
Proof.
  split; [vm_compute; reflexivity|].
  refine (proj1 (pizza_category_ids_sound
    [Json.JDict [("id", Json.JInt 10020); ("name", Json.JStr "Pizza");
                 ("products_available", Json.JBool true)];
     Json.JDict [("id", Json.JInt 5); ("parent_id", Json.JInt 10020);
                 ("name", Json.JStr "Specialty");
                 ("products_available", Json.JBool true)]]
    [5; 10020]%Z
    (<[5%Z := Json.JStr "Specialty"]> (<[10020%Z := Json.JStr "Pizza"]> ∅))
    _)).
  vm_compute. reflexivity.
Defined.

(** ** More facts about the matcher *)

Section MatcherFacts.

Import Regex Runs.

Lemma repeat_keeps_capture step :
  (forall s s', In s' (step s) -> snd s' = snd s) ->
  forall fuel lo hi s s', In s' (repeat fuel step lo hi s) -> snd s' = snd s.
Proof.
  intros Hstep. induction fuel as [|fuel IH]; intros lo hi s s' Hin.
  - simpl in Hin. destruct lo; [|destruct Hin].
    destruct Hin as [<-|[]]. reflexivity.
  - rewrite repeat_S in Hin. apply in_app_or in Hin as [Hin|Hin].
    + assert (Hflat : In s' (flat_map
                (fun s'0 =>
                   if (List.length (after (fst s'0)) <? List.length (after (fst s)))%nat
                   then repeat fuel step (Nat.pred lo) (Nat.pred <$> hi) s'0
                   else match lo with 1%nat => [s'0] | _ => [] end) (step s))).
      { destruct hi as [[|n]|]; [destruct Hin | exact Hin | exact Hin]. }
      apply in_flat_map in Hflat as [s1 [H1 H2]].
      rewrite <- (Hstep _ _ H1).
      destruct (List.length (after (fst s1)) <? List.length (after (fst s)))%nat.
      * eapply IH; exact H2.
      * destruct lo as [|[|lo]]; try destruct H2 as [<-|[]]; try destruct H2. reflexivity.
    + destruct lo; [|destruct Hin]. destruct Hin as [<-|[]]. reflexivity.
Qed.

(** An expression without a group leaves the capture as it is. *)
Lemma run_keeps_capture ic r :
  groupless r = true ->
  forall s s', In s' (run ic r s) -> snd s' = snd s.
Proof.
  induction r as [| p | r1 IH1 r2 IH2 | r1 IH1 r2 IH2 | r IH lo hi | r IH | | | | b r IH | b p];
    intros Hg [cu cap] s' Hin; cbn [groupless] in Hg.
  - destruct Hin as [<-|[]]. reflexivity.
  - rewrite run_class_any in Hin. destruct (after cu) as [|c t]; [destruct Hin|].
    destruct (test ic p c); [|destruct Hin]. destruct Hin as [<-|[]]. reflexivity.
  - apply andb_prop in Hg as [H1 H2]. rewrite run_seq in Hin.
    apply in_flat_map in Hin as [s1 [Ha Hb]].
    rewrite (IH2 H2 _ _ Hb). apply (IH1 H1 _ _ Ha).
  - apply andb_prop in Hg as [H1 H2].
    change (run ic (Alt r1 r2) (cu, cap))
      with (run ic r1 (cu, cap) ++ run ic r2 (cu, cap))%list in Hin.
    apply in_app_or in Hin as [Hin|Hin]; [apply (IH1 H1 _ _ Hin) | apply (IH2 H2 _ _ Hin)].
  - rewrite run_rep in Hin. eapply repeat_keeps_capture; [|exact Hin].
    intros s0 s1. apply IH. exact Hg.
  - discriminate.
  - simpl in Hin. destruct (before cu); [|destruct Hin]. destruct Hin as [<-|[]]. reflexivity.
  - simpl in Hin. destruct (at_end cu); [|destruct Hin]. destruct Hin as [<-|[]]. reflexivity.
  - simpl in Hin. destruct (at_word_boundary cu); [|destruct Hin].
    destruct Hin as [<-|[]]. reflexivity.
  - apply in_run_ahead in Hin. subst. reflexivity.
  - apply in_run_behind in Hin. subst. reflexivity.
Qed.


End MatcherFacts.

(** ** Pizza Pizza: canonical sizes, inferred crusts and key codes *)

Section SizeCodeFacts.

Import Regex Runs Strings PizzaPizzaParse.

Lemma inches_group cu f :
  match_at false _INCHES_RX cu = Some f -> In (group1 f) inch_sizes.
Proof.
  unfold match_at, _INCHES_RX.
  destruct (run _ _ _) as [|[e g] rest] eqn:Hrun; [discriminate|].
  intros [= <-].
  assert (Hin : In (e, g) (run false
            (Seq (Behind false Text.is_digit)
                 (Seq (Grp (alts inch_sizes))
                      (Seq (star space) (Alt (lit Text.dquote) (lit "”"))))) (cu, None)))
    by (rewrite Hrun; left; reflexivity).
  clear Hrun. rewrite run_seq in Hin.
  apply in_flat_map in Hin. destruct Hin as [s1 [H1 H2]].
  apply in_run_behind in H1. subst s1.
  rewrite run_seq in H2.
  apply in_flat_map in H2. destruct H2 as [[c2 g2] [H2 H3]].
  apply run_keeps_capture in H3; [|reflexivity]. cbn [snd] in H3. subst g.
  apply in_run_grp in H2. destruct H2 as [[g' H2] ->].
  apply run_alts in H2. destruct H2 as (x & Hx & Ha & _).
  unfold group1. cbn [m_group]. rewrite Ha.
  rewrite firstn_app_exact, string_of_list_ascii_of_string. exact Hx.
Qed.

Lemma search_from_inches n : forall cu f,
  search_from n false _INCHES_RX cu = Some f -> In (group1 f) inch_sizes.
Proof.
  induction n as [|n IH]; intros cu f; simpl;
    destruct (match_at false _INCHES_RX cu) eqn:Hm.
  - intros [= <-]. eapply inches_group; eauto.
  - discriminate.
  - intros [= <-]. eapply inches_group; eauto.
  - destruct (after cu); [discriminate|]. apply IH.
Qed.


Lemma all_chars_of_list q l :
  Forall (fun c => q c = true) l -> all_chars q (string_of_list_ascii l) = true.
Proof.
  induction 1 as [|c l Hc _ IH]; simpl; [reflexivity|]. rewrite Hc. exact IH.
Qed.




End SizeCodeFacts.

(** X7.  Pizza Pizza's [_canonical_size] never returns the empty text
    and never a text with whitespace around it: the result is one of the
    eight named sizes, one of the listed inch numbers followed by the
    inch mark, or the stripped label itself. *)
Theorem canonical_size_shape (label : string) :
  let r := PizzaPizzaParse._canonical_size label in
  r <> ""
  /\ Text.strip r = r
  /\ (In r PizzaPizzaVocabulary.named_sizes
      \/ In r PizzaPizzaVocabulary.inch_tokens
      \/ r = Text.strip label).
Proof.
  cbv zeta. unfold PizzaPizzaParse._canonical_size.
  repeat match goal with
         | |- context [if ?b then _ else _] =>
             lazymatch b with
             | Text.nonempty _ => fail
             | _ => destruct b;
                    [split; [discriminate | split; [reflexivity | left; simpl; tauto]]|]
             end
         end.
  destruct (Regex.search false PizzaPizzaParse._INCHES_RX label) as [m|] eqn:Hs.
  - apply search_from_inches in Hs.
    split; [apply append_dquote_nonempty|]. split.
    + unfold PizzaPizzaParse.inch_sizes in Hs. simpl in Hs.
      repeat destruct Hs as [<-|Hs]; try reflexivity. destruct Hs.
    + right. left. unfold PizzaPizzaVocabulary.inch_tokens.
      apply in_map_iff. eexists. split; [reflexivity | exact Hs].
  - destruct (Text.nonempty (Text.strip label)) eqn:Hl.
    + split; [apply nonempty_true; exact Hl|].
      split; [apply strip_strip | right; right; reflexivity].
    + split; [discriminate|]. split; [reflexivity | left; simpl; tauto].
Qed.

(** X8.  A crust that [infer_crust_from_context] infers from the recipe
    and the category names is a token of the crust vocabulary that
    [_canonical_crust] maps to itself, whatever the order in which the
    set of category names is iterated. *)
Theorem inferred_crust_is_canonical
    (recipe : string) (cat_names : list Json.json) (crust : string)
    (H : PizzaPizzaParse.infer_crust_from_context recipe cat_names
         = Py.Val (Some crust)) :
  In crust Spec.pp_crust_vocabulary
  /\ PizzaPizza._canonical_crust crust = crust.
Proof.
  unfold PizzaPizzaParse.infer_crust_from_context in H.
  destruct (PizzaPizzaParse.context_words cat_names) as [ws|]; [|discriminate].
  cbn [mbind Py.res_bind] in H.
  repeat match type of H with
         | context [if ?b then _ else _] => destruct b
         end;
    try discriminate;
    injection H as <-; (split; [simpl; tauto | vm_compute; reflexivity]).
Qed.

(** A recipe in the Brooklyn category is given the Brooklyn crust. *)
Lemma inferred_crust_is_canonical_witness :
  PizzaPizzaParse.infer_crust_from_context "Pepperoni" [Json.JStr "Brooklyn Style"]
  = Py.Val (Some "Brooklyn")
  /\ In "Brooklyn" Spec.pp_crust_vocabulary
  /\ PizzaPizza._canonical_crust "Brooklyn" = "Brooklyn".
Proof.
  split; [vm_compute; reflexivity|].
  exact (inferred_crust_is_canonical "Pepperoni" [Json.JStr "Brooklyn Style"]
           "Brooklyn" eq_refl).
Defined.


(** ** Pizza Pizza: retries and the rows of a store *)

Section RetryFacts.

Import Json Py PizzaPizzaStore.

Lemma attempts_spec transport left : forall attempt r n,
  (1 <= left)%nat -> (attempt + left = S MAX_RETRIES)%nat ->
  attempts transport attempt left = (r, n) ->
  (1 <= n <= left)%nat
  /\ (forall k, (attempt <= k < attempt + n - 1)%nat ->
        exists e, judge (transport k) = Retry e)
  /\ match judge (transport (attempt + n - 1)) with
     | Return data => r = Val data
     | RaiseNow e => r = Exc e
     | Retry e => (attempt + n - 1)%nat = MAX_RETRIES /\ r = Exc e
     end.
Proof.
  induction left as [|left IH]; intros attempt r n Hl Hsum; [lia|].
  cbn [attempts]. destruct (judge (transport attempt)) as [data|e|e] eqn:Hj.
  - intros [= <- <-]. replace (attempt + 1 - 1)%nat with attempt by lia.
    rewrite Hj. repeat split; intros; lia.
  - intros [= <- <-]. replace (attempt + 1 - 1)%nat with attempt by lia.
    rewrite Hj. repeat split; intros; lia.
  - destruct (attempt =? MAX_RETRIES)%nat eqn:Hlast.
    + apply Nat.eqb_eq in Hlast.
      intros [= <- <-]. replace (attempt + 1 - 1)%nat with attempt by lia.
      rewrite Hj. repeat split; intros; lia.
    + apply Nat.eqb_neq in Hlast.
      destruct (attempts transport (S attempt) left) as [r' n'] eqn:Hrest.
      intros [= <- <-].
      destruct (IH (S attempt) r' n') as (Hn & Hretry & Hfinal); [lia | lia | exact Hrest |].
      replace (attempt + S n' - 1)%nat with (S attempt + n' - 1)%nat by lia.
      split; [lia|]. split; [|exact Hfinal].
      intros k Hk. destruct (Nat.eq_dec k attempt) as [->|Hne]; [eauto|].
      apply Hretry. lia.
Qed.

End RetryFacts.

(** X10.  [get_json] sends at least one and at most ten requests.  Every
    request before the last one ended in a retryable failure (a
    timeout, a connection error, or an HTTP error status other than 400
    and 404), and the last one decides: its JSON is returned, or its
    exception is raised, a retryable failure only on the tenth attempt.
    The loop never ends without returning or raising. *)
Theorem get_json_bounded_retries (transport : nat -> PizzaPizzaStore.reply) :
  let r := fst (PizzaPizzaStore.get_json transport) in
  let n := snd (PizzaPizzaStore.get_json transport) in
  (1 <= n <= 10)%nat
  /\ (forall k, (1 <= k < n)%nat ->
        exists e, PizzaPizzaStore.judge (transport k) = PizzaPizzaStore.Retry e)
  /\ match PizzaPizzaStore.judge (transport n) with
     | PizzaPizzaStore.Return data => r = Py.Val data
     | PizzaPizzaStore.RaiseNow e => r = Py.Exc e
     | PizzaPizzaStore.Retry e => n = 10%nat /\ r = Py.Exc e
     end.
Proof.
  cbv zeta. unfold PizzaPizzaStore.get_json.
  destruct (PizzaPizzaStore.attempts transport 1 PizzaPizzaStore.MAX_RETRIES)
    as [r n] eqn:H.
  apply attempts_spec in H; [|unfold PizzaPizzaStore.MAX_RETRIES; lia | reflexivity].
  destruct H as (Hn & Hretry & Hfinal). cbn [fst snd].
  replace (1 + n - 1)%nat with n in * by lia.
  split; [exact Hn|]. split; [|exact Hfinal].
  intros k Hk. apply Hretry. lia.
Qed.

Section StoreRowFacts.

Import Json Py Schema PizzaPizzaParse PizzaPizzaStore.

Lemma append_prefix_inj p a b : p ++ a = p ++ b -> a = b.
Proof.
  induction p as [|c p IH]; [auto|].
  rewrite !append_cons. intros [= H]. auto.
Qed.

Lemma or_text_nonempty a b : b <> "" -> or_text a b <> "".
Proof.
  unfold or_text. destruct (Text.nonempty a) eqn:Ha; [|auto].
  intros _. apply nonempty_true. exact Ha.
Qed.

Lemma variant_rows_keyed sk city province today e variants :
  forall seen rows seen' rows',
  PizzaPizzaSpec.keyed seen rows ->
  Forall (PizzaPizzaSpec.well_formed sk) rows ->
  variant_rows sk city province today e variants seen rows = (seen', rows') ->
  PizzaPizzaSpec.keyed seen' rows' /\ Forall (PizzaPizzaSpec.well_formed sk) rows'.
Proof.
  induction variants as [|[[sz cr] price] rest IH]; intros seen rows seen' rows' Hk Hw.
  - simpl. intros [= <- <-]. auto.
  - cbn [variant_rows].
    destruct (bool_decide _) eqn:Hseen; [apply IH; assumption|].
    apply bool_decide_eq_false in Hseen.
    destruct today as [[date_key month] year].
    apply IH.
    + destruct Hk as [Hnd Hkeys]. split.
      * rewrite List.map_app. cbn [List.map product_key].
        apply NoDup_ListNoDup, NoDup_app. split; [apply NoDup_ListNoDup; exact Hnd|].
        split; [|apply NoDup_singleton].
        intros x Hx Hx'. apply list_elem_of_In in Hx. apply list_elem_of_singleton in Hx'.
        subst x. apply in_map_iff in Hx as (r & Hr & Hin).
        destruct (Hkeys r Hin) as (pk & Hpk & Hin'). rewrite Hpk in Hr.
        apply append_prefix_inj in Hr. rewrite Hr in Hin'. exact (Hseen Hin').
      * intros r Hin. apply in_app_or in Hin as [Hin|[<-|[]]].
        -- destruct (Hkeys r Hin) as (pk & Hpk & Hin'). exists pk.
           split; [exact Hpk | apply elem_of_union; right; exact Hin'].
        -- eexists. split; [reflexivity|]. apply elem_of_union. left.
           apply elem_of_singleton. reflexivity.
    + apply Forall_app. split; [exact Hw|]. constructor; [|constructor].
      repeat split; apply or_text_nonempty; discriminate.
Qed.

Lemma product_rows_keyed sk city province today variants_of products :
  forall seen rows result,
  PizzaPizzaSpec.keyed seen rows ->
  Forall (PizzaPizzaSpec.well_formed sk) rows ->
  product_rows sk city province today variants_of products seen rows = Val result ->
  List.NoDup (List.map product_key result)
  /\ Forall (PizzaPizzaSpec.well_formed sk) result.
Proof.
  induction products as [|e rest IH]; intros seen rows result Hk Hw.
  - simpl. intros [= <-]. split; [apply Hk | exact Hw].
  - cbn [product_rows].
    destruct (infer_crust_from_context _ _) as [ctx|]; [|discriminate].
    cbn [mbind res_bind].
    destruct (variants_of e ctx) as [variants|]; [|discriminate].
    cbn [mbind res_bind].
    destruct (variant_rows sk city province today e variants seen rows)
      as [seen' rows'] eqn:Hv.
    destruct (variant_rows_keyed _ _ _ _ _ _ _ _ _ _ Hk Hw Hv) as [Hk' Hw'].
    apply IH; assumption.
Qed.

End StoreRowFacts.

(** X11.  Within one store no two rows of Pizza Pizza's [scrape_store]
    share a product key: a variant whose key (product id, size code,
    crust code) was already written is skipped.  Every row carries the
    chain [PP], the store key [PP_<id>], the category [Pizza], and a
    size and a crust that are not blank. *)
Theorem store_rows_have_distinct_keys
    (sk : Z) (city province : Json.json) (today : string * string * string)
    (variants_of : PizzaPizzaStore.entry -> option string ->
                   Py.res (list (string * string * Num.pyfloat)))
    (products : list PizzaPizzaStore.entry) (rows : list Schema.row)
    (H : PizzaPizzaStore.scrape_store (Some (sk, city, province)) today
           variants_of products = Py.Val rows) :
  List.NoDup (List.map Schema.product_key rows)
  /\ Forall (PizzaPizzaSpec.well_formed sk) rows.
Proof.
  unfold PizzaPizzaStore.scrape_store in H.
  assert (Hstart : PizzaPizzaSpec.keyed ∅ []).
  { split; [constructor | intros r []]. }
  destruct products as [|e rest].
  - injection H as <-. split; constructor.
  - eapply product_rows_keyed; [exact Hstart | constructor | exact H].
Qed.

(** A product whose configurator lists the same size and crust twice
    gives one row for it. *)
Lemma store_rows_have_distinct_keys_witness :
  PizzaPizzaStore.scrape_store (Some (7%Z, Json.JStr "Toronto", Json.JStr "ON"))
    ("2025-01-02", "January", "2025")
    (fun _ _ => Py.Val [("Small", "Regular Dough", Num.Fin 999 (-2));
                        (" small ", "regular dough", Num.Fin 5 0);
                        ("Large", "Thin", Num.Fin 15 0)])
    [PizzaPizzaStore.Entry "12" "pepperoni" "Pepperoni" (Some (Num.Fin 10 0))
       [Json.JStr "Pizza"]]
  = Py.Val
      [Schema.Row "PP" "PP_7" "Toronto" "ON" "Pizza" "Pepperoni" "PP_12_SM_REG"
         "Small" "Regular Dough" "9.99" "2025-01-02" "January" "2025";
       Schema.Row "PP" "PP_7" "Toronto" "ON" "Pizza" "Pepperoni" "PP_12_LG_THIN"
         "Large" "Thin" "15.00" "2025-01-02" "January" "2025"]
  /\ List.NoDup ["PP_12_SM_REG"; "PP_12_LG_THIN"].
Proof.
  split; [vm_compute; reflexivity|].
  refine (proj1 (store_rows_have_distinct_keys 7 (Json.JStr "Toronto") (Json.JStr "ON")
    ("2025-01-02", "January", "2025")
    (fun _ _ => Py.Val [("Small", "Regular Dough", Num.Fin 999 (-2));
                        (" small ", "regular dough", Num.Fin 5 0);
                        ("Large", "Thin", Num.Fin 15 0)])
    [PizzaPizzaStore.Entry "12" "pepperoni" "Pepperoni" (Some (Num.Fin 10 0))
       [Json.JStr "Pizza"]]
    [Schema.Row "PP" "PP_7" "Toronto" "ON" "Pizza" "Pepperoni" "PP_12_SM_REG"
       "Small" "Regular Dough" "9.99" "2025-01-02" "January" "2025";
     Schema.Row "PP" "PP_7" "Toronto" "ON" "Pizza" "Pepperoni" "PP_12_LG_THIN"
       "Large" "Thin" "15.00" "2025-01-02" "January" "2025"]
    _)).
  vm_compute. reflexivity.
Defined.

(** ** Pizza Hut: product keys *)

Section KeyFacts.

Import Json Regex Runs Strings PizzaHutKeys PizzaHutSpec.

Lemma all_chars_take q n : forall s,
  all_chars q s = true -> all_chars q (take n s) = true.
Proof.
  induction n as [|n IH]; intros [|c t]; simpl; auto.
  intros H. apply andb_prop in H as [Hc Ht]. rewrite Hc. simpl. auto.
Qed.

Lemma take_nonempty n s : s <> "" -> take (S n) s <> "".
Proof. destruct s; [congruence | discriminate]. Qed.

Lemma all_chars_lstrip_by q p s :
  all_chars q s = true -> all_chars q (lstrip_by p s) = true.
Proof.
  induction s as [|c t IH]; simpl; [auto|].
  intros H. destruct (p c); [|exact H].
  apply andb_prop in H as [_ H]. auto.
Qed.

Lemma all_chars_rstrip_by q p s :
  all_chars q s = true -> all_chars q (rstrip_by p s) = true.
Proof.
  induction s as [|c t IH]; simpl; [auto|].
  intros H. apply andb_prop in H as [Hc Ht]. specialize (IH Ht).
  destruct (rstrip_by p t).
  - destruct (p c); simpl; [reflexivity|]. rewrite Hc. reflexivity.
  - cbn [all_chars]. rewrite Hc. exact IH.
Qed.

Lemma all_chars_strip_by q p s :
  all_chars q s = true -> all_chars q (strip_by p s) = true.
Proof. intros H. apply all_chars_rstrip_by, all_chars_lstrip_by, H. Qed.

Lemma squeeze_chars (P q : ascii -> bool) repl l : forall b,
  (forall c, q c = false -> P c = true) ->
  Forall (fun c => P c = true) repl ->
  Forall (fun c => P c = true) (squeeze q repl b l).
Proof.
  intros b HP Hrepl. revert b.
  induction l as [|c t IH]; intros b; simpl; [constructor|].
  destruct (q c) eqn:Hc.
  - apply Forall_app. split; [destruct b; [constructor | exact Hrepl] | apply IH].
  - constructor; [apply HP; exact Hc | apply IH].
Qed.

Lemma squeeze_preserves (P q : ascii -> bool) repl l : forall b,
  Forall (fun c => P c = true) l ->
  Forall (fun c => P c = true) repl ->
  Forall (fun c => P c = true) (squeeze q repl b l).
Proof.
  intros b Hl Hrepl. revert b.
  induction Hl as [|c t Hc _ IH]; intros b; simpl; [constructor|].
  destruct (q c).
  - apply Forall_app. split; [destruct b; [constructor | exact Hrepl] | apply IH].
  - constructor; [exact Hc | apply IH].
Qed.

Lemma slug_bad_chars s :
  all_chars key_char (sub false _SLUG_BAD_FOR_KEY "_" s) = true.
Proof.
  unfold _SLUG_BAD_FOR_KEY. rewrite sub_plus_class. apply all_chars_of_list.
  apply squeeze_chars.
  - intros c. rewrite test_plain. intros H. apply negb_false_iff in H.
    unfold key_char. rewrite H. reflexivity.
  - repeat constructor.
Qed.

Lemma underscores_chars s :
  all_chars key_char s = true ->
  all_chars key_char (sub false underscores "_" s) = true.
Proof.
  intros H. unfold underscores. rewrite sub_plus_class. apply all_chars_of_list.
  apply squeeze_preserves; [apply all_chars_list; exact H | repeat constructor].
Qed.

Lemma key_slug_chars recipe prod_id :
  all_chars key_char (key_slug_from_recipe recipe prod_id) = true
  /\ key_slug_from_recipe recipe prod_id <> "".
Proof.
  unfold key_slug_from_recipe.
  destruct (Text.nonempty (sub false underscores "_" _)) eqn:Hbase.
  - split.
    + apply all_chars_take, underscores_chars, all_chars_strip_by, slug_bad_chars.
    + apply take_nonempty, nonempty_true. exact Hbase.
  - match goal with
    | |- context [if Text.nonempty ?raw then _ else _] =>
        destruct (Text.nonempty raw) eqn:Hraw
    end.
    + split.
      * apply all_chars_take, underscores_chars, all_chars_strip_by, slug_bad_chars.
      * apply take_nonempty, nonempty_true. exact Hraw.
    + split; [reflexivity | discriminate].
Qed.

Lemma lower_key_chars s :
  all_chars (fun c => Text.is_upper c || Text.is_digit c) s = true ->
  all_chars key_char (Text.lower s) = true.
Proof.
  unfold Text.lower. induction s as [|c t IH]; simpl; [auto|].
  intros H. apply andb_prop in H as [Hc Ht]. rewrite (IH Ht), andb_true_r.
  clear -Hc. destruct c as [[] [] [] [] [] [] [] []]; vm_compute in *; congruence.
Qed.

Lemma digits_key_chars s :
  all_chars Text.is_digit s = true -> all_chars key_char s = true.
Proof.
  induction s as [|c t IH]; simpl; [auto|].
  intros H. apply andb_prop in H as [Hc Ht]. rewrite (IH Ht), andb_true_r.
  unfold key_char, lower_or_digit. rewrite Hc, orb_true_r. reflexivity.
Qed.

Lemma abbrev_size_chars size :
  all_chars key_char (abbrev_size_token size) = true /\ abbrev_size_token size <> "".
Proof.
  unfold abbrev_size_token.
  destruct (Text.nonempty size); cbn [negb]; [|split; [reflexivity | discriminate]].
  destruct (isdigit _) eqn:Hd.
  - unfold isdigit in Hd. apply andb_prop in Hd as [Hn Hd].
    split; [apply digits_key_chars; exact Hd | apply nonempty_true; exact Hn].
  - destruct (PizzaHut.table_get _ size_abbreviations) as [v|] eqn:Hv.
    + unfold size_abbreviations in Hv. simpl in Hv.
      repeat match type of Hv with
             | context [if ?b then _ else _] => destruct b
             end; try discriminate; injection Hv as <-;
        (split; [reflexivity | discriminate]).
    + match goal with
      | |- context [if Text.nonempty ?t then _ else _] =>
          destruct (Text.nonempty t) eqn:Ht
      end; [|split; [reflexivity | discriminate]].
      split; [|apply nonempty_true; exact Ht].
      apply all_chars_take, lower_key_chars.
      rewrite sub_class_empty.
      erewrite keep_ext; [apply all_chars_keep|].
      intros c. apply negb_involutive.
Qed.

Lemma abbrev_crust_chars crust :
  all_chars key_char (abbrev_crust_token crust) = true /\ abbrev_crust_token crust <> "".
Proof.
  unfold abbrev_crust_token.
  destruct (PizzaHut.table_get _ crust_abbreviations) as [v|] eqn:Hv.
  - unfold crust_abbreviations in Hv. simpl in Hv.
    repeat match type of Hv with
           | context [if ?b then _ else _] => destruct b
           end; try discriminate; injection Hv as <-;
      (split; [reflexivity | discriminate]).
  - match goal with
    | |- context [if Text.nonempty ?t then _ else _] =>
        destruct (Text.nonempty t) eqn:Ht
    end; [|split; [reflexivity | discriminate]].
    split; [|apply nonempty_true; exact Ht].
    apply all_chars_take. rewrite sub_class_empty.
    assert (Hk : forall s, all_chars lower_or_digit s = true -> all_chars key_char s = true).
    { clear. induction s as [|c t IH]; simpl; [auto|].
      intros H. apply andb_prop in H as [Hc Ht]. unfold key_char at 1.
      rewrite Hc. simpl. auto. }
    apply Hk. erewrite keep_ext; [apply all_chars_keep|].
    intros c. apply negb_involutive.
Qed.

Lemma variant_id_chars v vid :
  variant_id v = Some vid -> all_chars key_char vid = true /\ vid <> "".
Proof.
  unfold variant_id.
  assert (H : forall x,
    (if Text.nonempty (Text.strip (str x))
     then if Text.nonempty
               (take 32 (strip_by is_underscore
                  (sub false underscores "_"
                     (sub false _SLUG_BAD_FOR_KEY "_" (Text.lower (str x))))))
          then Some (take 32 (strip_by is_underscore
                  (sub false underscores "_"
                     (sub false _SLUG_BAD_FOR_KEY "_" (Text.lower (str x))))))
          else None
     else None) = Some vid ->
    all_chars key_char vid = true /\ vid <> "").
  { intros x. destruct (Text.nonempty (Text.strip (str x))); [|discriminate].
    assert (Hc : all_chars key_char
                   (take 32 (strip_by is_underscore
                      (sub false underscores "_"
                         (sub false _SLUG_BAD_FOR_KEY "_" (Text.lower (str x)))))) = true)
      by apply all_chars_take, all_chars_strip_by, underscores_chars, slug_bad_chars.
    revert Hc. generalize (take 32 (strip_by is_underscore
                      (sub false underscores "_"
                         (sub false _SLUG_BAD_FOR_KEY "_" (Text.lower (str x)))))).
    intros t Hc. destruct (Text.nonempty t) eqn:Hn; [|discriminate].
    intros [= <-]. split; [exact Hc | apply nonempty_true; exact Hn]. }
  destruct v; try discriminate; apply H.
Qed.

Lemma first_variant_id_chars ks variant vid :
  first_variant_id ks variant = Some vid ->
  all_chars key_char vid = true /\ vid <> "".
Proof.
  induction ks as [|k rest IH]; simpl; [discriminate|].
  destruct (variant_id (get variant k)) as [v|] eqn:Hv; [|exact IH].
  intros [= <-]. eapply variant_id_chars; eauto.
Qed.

Lemma append_nonempty_l a b : a <> "" -> a ++ b <> "".
Proof. destruct a; [congruence | discriminate]. Qed.

(** The shape of a product key. *)
Lemma product_key_shape recipe prod size crust variant :
  exists a,
    product_key_for_variant recipe prod size crust variant
    = "ph_" ++ a ++ "_" ++ abbrev_size_token size ++ "_" ++ abbrev_crust_token crust
    /\ a <> ""
    /\ all_chars key_char (a ++ "_" ++ abbrev_size_token size
                             ++ "_" ++ abbrev_crust_token crust) = true.
Proof.
  assert (Htail : forall a, all_chars key_char a = true ->
            all_chars key_char (a ++ "_" ++ abbrev_size_token size
                                  ++ "_" ++ abbrev_crust_token crust) = true).
  { intros a Ha. rewrite !all_chars_app, Ha.
    rewrite (proj1 (abbrev_size_chars size)), (proj1 (abbrev_crust_chars crust)).
    reflexivity. }
  unfold product_key_for_variant.
  destruct (first_variant_id _ variant) as [vid|] eqn:Hvid.
  - apply first_variant_id_chars in Hvid as [Hc Hn].
    exists vid. split; [reflexivity|]. split; [exact Hn | apply Htail; exact Hc].
  - eexists. split; [reflexivity|].
    split; [apply key_slug_chars | apply Htail, key_slug_chars].
Qed.

End KeyFacts.


(** ** Pizza Hut: the rows of a hut *)

Section HutRowFacts.

Import Json Py Schema PizzaHut PizzaHutKeys PizzaHutRows PizzaHutRun PizzaHutSpec.

Lemma normalize_size_vocabulary size_val fallback :
  In (normalize_size size_val fallback) Spec.size_vocabulary.
Proof.
  unfold normalize_size, Spec.size_vocabulary. apply in_or_app.
  destruct (Regex.search false _NUM_INCH _) as [m|] eqn:Hs.
  - left. unfold Spec.numeric_size_tokens. apply in_map_iff.
    exists (Regex.group1 m). split; [reflexivity | eapply search_num_inch; eauto].
  - right. destruct (named_tier _) as [t|] eqn:Ht.
    + eapply named_tier_vocabulary; eauto.
    + simpl. tauto.
Qed.

Lemma normalize_crust_nonempty crust_val fallback :
  normalize_crust crust_val fallback <> "".
Proof.
  assert (H : forall s,
    (if negb (Text.nonempty (Text.lower (clean_crust s))) then "Regular Dough"
     else match table_get (Text.lower (clean_crust s)) crust_mapping with
          | Some v => v
          | None => Text.title (clean_crust s)
          end) <> "").
  { intros s. destruct (normalize_crust_chosen s) as [Hv|(Hne & _ & ->)].
    - apply vocabulary_nonempty. left. exact Hv.
    - apply title_from_nonempty. exact Hne. }
  unfold normalize_crust. destruct (truthy crust_val); [apply H|].
  destruct (Text.nonempty fallback); [apply H | discriminate].
Qed.

Lemma variant_row_well_formed sid city province today prod recipe v r :
  variant_row sid city province today prod recipe v = Val r -> well_formed sid r.
Proof.
  unfold variant_row. destruct v; try discriminate. cbn [as_dict mbind res_bind].
  destruct (price_from_variant d (Some prod)) as [f| |]; try discriminate;
    cbn [mbind res_bind]; destruct today as [[date_key month] year];
    intros [= <-]; unfold well_formed; cbn [chain_key store_key category size crust product_key].
  all: split; [reflexivity|]; split; [reflexivity|]; split; [reflexivity|];
    split; [apply normalize_size_vocabulary|];
    split; [destruct (Text.nonempty (normalize_crust _ _)) eqn:E;
              [apply nonempty_true; exact E | discriminate]|].
  all: match goal with
       | |- context [product_key_for_variant ?a ?b ?c ?e ?f] =>
           destruct (product_key_shape a b c e f) as (base & -> & Hbase & Hc)
       end;
    eexists; (split; [reflexivity|]); (split; [apply append_nonempty_l; exact Hbase | exact Hc]).
Qed.

Lemma variant_rows_well_formed sid city province today prod recipe variants :
  forall rows result,
  Forall (well_formed sid) rows ->
  variant_rows sid city province today prod recipe variants rows = Val result ->
  Forall (well_formed sid) result.
Proof.
  induction variants as [|v rest IH]; intros rows result Hw; simpl.
  - intros [= <-]. exact Hw.
  - destruct (variant_row sid city province today prod recipe v) as [r|] eqn:Hr;
      [|discriminate].
    cbn [mbind res_bind]. apply IH. apply Forall_app. split; [exact Hw|].
    constructor; [eapply variant_row_well_formed; eauto | constructor].
Qed.

Lemma product_rows_well_formed sid city province today products :
  forall rows result,
  Forall (well_formed sid) rows ->
  product_rows sid city province today products rows = Val result ->
  Forall (well_formed sid) result.
Proof.
  induction products as [|p rest IH]; intros rows result Hw; simpl.
  - intros [= <-]. exact Hw.
  - destruct p; try (apply IH; exact Hw).
    destruct (variant_rows _ _ _ _ _ _ _ _) as [rows'|] eqn:Hv; [|discriminate].
    cbn [mbind res_bind]. apply IH. eapply variant_rows_well_formed; eauto.
Qed.

End HutRowFacts.

(** X13.  Every row Pizza Hut's [scrape_store] builds from an answer
    carries the chain [PH], the store key [PH_<hut id>] and the category
    [Pizza]; its size is a token of the size vocabulary, its crust is
    not blank (the [if not crust] fallback never applies), and its
    product key is [PH_ph_] followed by small letters, digits and
    underscores. *)
Theorem hut_rows_well_formed
    (sid : Json.json) (city province : string) (today : string * string * string)
    (data : Json.json) (rows : list Schema.row)
    (H : PizzaHutRows.rows_of sid city province today data = PizzaHutRun.Built rows) :
  Forall (PizzaHutSpec.well_formed sid) rows
  /\ forall crust_val keyish, PizzaHut.normalize_crust crust_val keyish <> "".
Proof.
  split; [|intros; apply normalize_crust_nonempty].
  unfold PizzaHutRows.rows_of in H.
  destruct (PizzaHutRows.products_of data); try discriminate.
  destruct (PizzaHutRows.product_rows sid city province today l []) as [rs|] eqn:Hr;
    [|discriminate].
  injection H as <-. eapply product_rows_well_formed; [constructor | exact Hr].
Qed.

(** An answer with one product and one variant gives one row. *)
Lemma hut_rows_well_formed_witness :
  PizzaHutRows.rows_of (Json.JStr "h1") "Toronto" "ON" ("2025-01-02", "January", "2025")
    (Json.JDict [("products", Json.JList
       [Json.JDict [("name", Json.JStr "Pepperoni 2X");
                    ("variants", Json.JList
                       [Json.JDict [("size", Json.JStr "large");
                                    ("crust", Json.JStr "pan");
                                    ("priceCents", Json.JInt 1599)]])]])])
  = PizzaHutRun.Built
      [Schema.Row "PH" "PH_h1" "Toronto" "ON" "Pizza" "Pepperoni"
         "PH_ph_pepperoni_l_pan" "Large" "Pan" "15.99" "2025-01-02" "January" "2025"]
  /\ Forall (PizzaHutSpec.well_formed (Json.JStr "h1"))
       [Schema.Row "PH" "PH_h1" "Toronto" "ON" "Pizza" "Pepperoni"
          "PH_ph_pepperoni_l_pan" "Large" "Pan" "15.99" "2025-01-02" "January" "2025"].
Proof.
  split; [vm_compute; reflexivity|].
  refine (proj1 (hut_rows_well_formed (Json.JStr "h1") "Toronto" "ON"
    ("2025-01-02", "January", "2025")
    (Json.JDict [("products", Json.JList
       [Json.JDict [("name", Json.JStr "Pepperoni 2X");
                    ("variants", Json.JList
                       [Json.JDict [("size", Json.JStr "large");
                                    ("crust", Json.JStr "pan");
                                    ("priceCents", Json.JInt 1599)]])]])])
    [Schema.Row "PH" "PH_h1" "Toronto" "ON" "Pizza" "Pepperoni"
       "PH_ph_pepperoni_l_pan" "Large" "Pan" "15.99" "2025-01-02" "January" "2025"]
    _)).
  vm_compute. reflexivity.
Defined.

(** ** Pizza Hut: the hut list *)

Section HutListFacts.

Import Json PizzaHutRun PizzaHutRows PizzaHutSpec.

Local Open Scope Z_scope.

Lemma huts_attempts_spec transport left : forall attempt fl,
  (attempt + left <= 14)%nat ->
  let r := huts_attempts transport attempt left fl in
  huts r = default [] (Spec.first_some
                         (List.map (fun k => hut_list (transport k))
                                   (attempts_from attempt left)))
  /\ (requests r <= left)%nat
  /\ (huts r = [] -> requests r = left)
  /\ foldr Z.add 0 (slept r) <= 15 * Z.of_nat left
  /\ (huts r <> [] -> flag r = false).
Proof.
  induction left as [|left IH]; intros attempt fl Hle; cbv zeta.
  - simpl. repeat split; try lia; try congruence.
  - specialize (IH (S attempt)).
    cbn [huts_attempts attempts_from seq List.map Spec.first_some].
    unfold hut_list, fetch_json.
    destruct (handle_response (transport attempt)) as [set fetched] eqn:Hh.
    cbn [snd orb].
    assert (Hset : forall h l, fetched = Parsed (Some (JList (h :: l))) -> set = false).
    { intros h l ->. unfold handle_response in Hh.
      destruct (transport attempt) as [| | |c body]; try discriminate.
      destruct (is_throttle_status c); [discriminate|].
      destruct ((c =? 400) || (c =? 404) || (500 <=? c)).
      - injection Hh as <- Hb. reflexivity.
      - destruct (400 <=? c); [discriminate|]. injection Hh as <- _. reflexivity. }
    assert (Hagain : forall pause, 0 <= pause <= 15 ->
      let r := huts_attempts transport (S attempt) left set in
      let r' := HutsResult (huts r) (S (requests r)) (pause :: slept r) (flag r) in
      huts r' = default [] (Spec.first_some
                  (List.map (fun k => hut_list (transport k))
                            (attempts_from (S attempt) left)))
      /\ (requests r' <= S left)%nat
      /\ (huts r' = [] -> requests r' = S left)
      /\ foldr Z.add 0 (slept r') <= 15 * Z.of_nat (S left)
      /\ (huts r' <> [] -> flag r' = false)).
    { intros pause Hp. cbv zeta. cbn [huts requests slept flag foldr].
      destruct (IH set ltac:(lia)) as (H1 & H2 & H3 & H4 & H5).
      split; [exact H1|]. split; [lia|].
      split; [intros E; rewrite (H3 E); reflexivity|]. split; [lia | exact H5]. }
    assert (Hp : 0 <= 2 + Z.of_nat attempt <= 15) by lia.
    assert (Hc : 0 <= COOLDOWN_SECS <= 15) by (unfold COOLDOWN_SECS; lia).
    destruct fetched as [[data|]| |]; try (apply Hagain; assumption).
    destruct data as [| | | | |l|]; try (apply Hagain; assumption).
    destruct l as [|h l]; [apply Hagain; assumption|].
    rewrite (Hset h l eq_refl). cbn [huts requests slept flag foldr default].
    repeat split; try lia; try congruence.
Qed.

End HutListFacts.

(** X14.  [fetch_huts_with_backoff] never raises: it returns the first
    non-empty list among the answers to its six attempts, and the empty
    list when there is none.  It sends at most six requests (all six
    when it returns the empty list) and sleeps at most 90 seconds in
    total; the flag is clear when it returns a hut list. *)
Theorem fetch_huts_first_answer
    (transport : nat -> PizzaHutRun.response) (flag : bool) :
  let r := PizzaHutRows.fetch_huts_with_backoff 6 transport flag in
  PizzaHutRows.huts r
  = default [] (Spec.first_some
                  (List.map (fun k => PizzaHutSpec.hut_list (transport k))
                            (PizzaHutSpec.attempts_from 1 6)))
  /\ (PizzaHutRows.requests r <= 6)%nat
  /\ (PizzaHutRows.huts r = [] -> PizzaHutRows.requests r = 6%nat)
  /\ (foldr Z.add 0 (PizzaHutRows.slept r) <= 90)%Z
  /\ (PizzaHutRows.huts r <> [] -> PizzaHutRows.flag r = false).
Proof.
  cbv zeta. unfold PizzaHutRows.fetch_huts_with_backoff.
  pose proof (huts_attempts_spec transport 6 1 flag ltac:(lia)) as H.
  cbv zeta in H. destruct H as (H1 & H2 & H3 & H4 & H5).
  split; [exact H1|]. split; [exact H2|]. split; [exact H3|]. split; [lia | exact H5].
Qed.

(** ** Pizza Hut: the blast loop ends *)

Section BlastEnds.

Import Json PizzaHutRun PizzaHutSpec.

Lemma wave_loop_remaining completed : forall rem rows warns b,
  remaining (wave_loop completed (Blast rem rows warns b)) = after_wave rem completed.
Proof.
  unfold after_wave.
  induction completed as [|[sid o] rest IH]; intros rem rows warns b; [reflexivity|].
  destruct o; cbn [wave_loop remaining pizzas_rows warnings]; [| reflexivity |];
    rewrite IH; symmetry; apply IH.
Qed.

Lemma after_wave_subset completed : forall rem, after_wave rem completed ⊆ rem.
Proof.
  unfold after_wave.
  induction completed as [|[sid o] rest IH]; intros rem; [reflexivity|].
  destruct o; cbn [wave_loop remaining pizzas_rows warnings].
  - rewrite wave_loop_remaining. etransitivity; [apply IH|].
    apply subseteq_difference_l. reflexivity.
  - apply subseteq_difference_l. reflexivity.
  - rewrite wave_loop_remaining. etransitivity; [apply IH|].
    apply subseteq_difference_l. reflexivity.
Qed.

Lemma after_wave_shrinks rem completed :
  completed <> [] -> Forall (fun so => fst so ∈ rem) completed ->
  (base.size (after_wave rem completed) < base.size rem)%nat.
Proof.
  intros Hne Hall. destruct completed as [|[sid o] rest]; [congruence|].
  inversion Hall as [|? ? Hsid _]; subst. cbn [fst] in Hsid.
  apply subset_size.
  assert (Hsub : after_wave rem ((sid, o) :: rest) ⊆ rem ∖ {[sid]}).
  { unfold after_wave. destruct o; cbn [wave_loop remaining pizzas_rows warnings].
    - rewrite wave_loop_remaining. apply after_wave_subset.
    - reflexivity.
    - rewrite wave_loop_remaining. apply after_wave_subset. }
  split.
  - etransitivity; [exact Hsub|]. apply subseteq_difference_l. reflexivity.
  - intros Hc. specialize (Hc sid Hsid). apply Hsub in Hc.
    apply elem_of_difference in Hc as [_ Hc]. apply Hc, elem_of_singleton. reflexivity.
Qed.

Lemma waves_app t1 t2 : waves (t1 ++ t2) = (waves t1 + waves t2)%nat.
Proof. unfold waves. rewrite List.filter_app, length_app. reflexivity. Qed.

Lemma blast_loop_ends huts script : forall rem rows warns trace,
  admissible rem script ->
  (base.size rem <= List.length script)%nat ->
  let r := blast_loop huts script rem rows warns trace in
  result_left r = ∅
  /\ (waves (result_trace r) <= waves trace + base.size rem)%nat.
Proof.
  induction script as [|completed rest IH]; intros rem rows warns trace Hadm Hlen; cbv zeta.
  - simpl in Hlen. assert (rem = ∅) as -> by (apply leibniz_equiv, size_empty_inv; lia).
    simpl. destruct (decide (∅ = ∅)); simpl; [split; [reflexivity | lia] | congruence].
  - cbn [blast_loop]. destruct (decide (rem = ∅)) as [->|Hne].
    + simpl. split; [reflexivity | lia].
    + destruct Hadm as [Hemp | (Hc & Hall & Hrest)]; [congruence|].
      pose proof (after_wave_shrinks rem completed Hc Hall) as Hlt.
      rewrite wave_loop_remaining.
      specialize (IH (after_wave rem completed)
                     (pizzas_rows (wave_loop completed (Blast rem rows warns false)))
                     (warnings (wave_loop completed (Blast rem rows warns false)))
                     (trace ++ Wave (List.filter (fun h => bool_decide (h ∈ rem)) huts)
                        :: (if bool_decide (after_wave rem completed ≠ ∅)
                               && broke (wave_loop completed (Blast rem rows warns false))
                            then [Cooldown] else []))%list
                     Hrest).
      cbv zeta in IH. destruct IH as [H1 H2]; [simpl in Hlen; lia|].
      split; [exact H1|].
      etransitivity; [exact H2|].
      rewrite waves_app. unfold waves at 2. cbn [List.filter List.length].
      destruct (bool_decide _ && _); simpl; lia.
Qed.

End BlastEnds.

(** X15.  The blast loop ends: every wave takes at least one hut out of
    the set of remaining ids (the [finally] clause discards the id of
    every future that is looked at), so after at most as many waves as
    there are hut ids the set is empty and [blast_all] returns. *)
Theorem blast_all_ends
    (huts : list string) (script : list (list (string * PizzaHutRun.outcome)))
    (Hscript : PizzaHutSpec.admissible
                 (list_to_set (List.filter Text.nonempty huts)) script)
    (Hlong : (base.size (list_to_set (List.filter Text.nonempty huts) : gset string)
              <= List.length script)%nat) :
  let r := PizzaHutRun.blast_all huts script in
  PizzaHutRun.result_left r = ∅
  /\ (PizzaHutSpec.waves (PizzaHutRun.result_trace r)
      <= base.size (list_to_set (List.filter Text.nonempty huts) : gset string))%nat.
Proof.
  cbv zeta. unfold PizzaHutRun.blast_all.
  destruct (blast_loop_ends huts script _ [] [] [] Hscript Hlong) as [H1 H2].
  split; [exact H1 | exact H2].
Qed.

(** Two huts, the first throttled in the first wave: two waves. *)
Lemma blast_all_ends_witness :
  PizzaHutRun.result_left
    (PizzaHutRun.blast_all ["A"; "B"]
       [[("A", PizzaHutRun.Throttled)]; [("B", PizzaHutRun.Scraped [])]]) = ∅
  /\ (PizzaHutSpec.waves
        (PizzaHutRun.result_trace
           (PizzaHutRun.blast_all ["A"; "B"]
              [[("A", PizzaHutRun.Throttled)]; [("B", PizzaHutRun.Scraped [])]]))
      <= base.size (list_to_set (List.filter Text.nonempty ["A"; "B"]) : gset string))%nat.
Proof.
  apply (blast_all_ends ["A"; "B"]
           [[("A", PizzaHutRun.Throttled)]; [("B", PizzaHutRun.Scraped [])]]).
  - right. split; [discriminate|]. split.
    + repeat constructor; try (vm_compute; reflexivity).
    + right. split; [discriminate|]. split; [|exact I].
      repeat constructor; try (vm_compute; reflexivity).
  - vm_compute. lia.
Defined.

(** ** The star schema: every fact row finds its dimension rows *)

Section SchemaFacts.

Import Model.

Variable hash : list (option string) -> Z.
Variable try_double : option string -> option Num.pyfloat.
Variable try_date : option string -> option string.
Variable date_parts : string -> Z * Z * string * Z * Z.

Lemma in_distinct {B} `{EqDecision B} (f : typed -> B) (keep : typed -> bool) l t :
  In t l -> keep t = true -> In (f t) (remove_dups (List.map f (List.filter keep l))).
Proof.
  intros Hin Hk. apply list_elem_of_In. rewrite elem_of_remove_dups.
  apply list_elem_of_In, in_map, filter_In. split; assumption.
Qed.

Lemma in_distinct_all {B} `{EqDecision B} (f : typed -> B) l t :
  In t l -> In (f t) (remove_dups (List.map f l)).
Proof.
  intros Hin. apply list_elem_of_In. rewrite elem_of_remove_dups.
  apply list_elem_of_In, in_map. exact Hin.
Qed.

Lemma not_null_Some {A} (x : option A) : not_null x = true -> exists a, x = Some a.
Proof. destruct x; [eauto | discriminate]. Qed.

End SchemaFacts.

(** X16.  The tables that [build_model] writes form a star schema whose
    joins lose no fact row.  Every row of [fact_menu_price] has a price
    and was computed from a staged row with a date; its [store_id]
    together with its [chain_id] is the key pair of a row of [dim_store],
    its [product_id] together with its [chain_id] the key pair of a row of
    [dim_product], its [date_id] the key of a row of [dim_date], and, when
    the chain key of the staged row is not NULL, its [chain_id] the key
    of a row of [dim_chain].  No dimension table has two equal rows. *)
Theorem fact_rows_resolve
    (hash : list (option string) -> Z)
    (try_double : option string -> option Num.pyfloat)
    (try_date : option string -> option string)
    (date_parts : string -> Z * Z * string * Z * Z)
    (files : list Model.raw) :
  Forall
    (fun f =>
       let '(chain_id, store_id, product_id, date_id, price) := f in
       exists t p d,
         Model.staged_from try_double try_date files t
         /\ f = Model.fact_row hash t
         /\ price = Some p
         /\ Model.t_date t = Some d
         /\ (exists sk c pr,
               In (store_id, chain_id, sk, c, pr)
                  (Model.dim_store hash try_double try_date files))
         /\ (exists pk r s c cat,
               In (product_id, chain_id, pk, r, s, c, cat)
                  (Model.dim_product hash try_double try_date files))
         /\ In (date_id, Some d, date_parts d)
               (Model.dim_date hash try_double try_date date_parts files)
         /\ (forall ck, Model.chain_key (Model.t_row t) = Some ck ->
               In (chain_id, Some ck) (Model.dim_chain hash try_double try_date files)))
    (Model.fact_menu_price hash try_double try_date files)
  /\ NoDup (Model.dim_chain hash try_double try_date files)
  /\ NoDup (Model.dim_store hash try_double try_date files)
  /\ NoDup (Model.dim_product hash try_double try_date files)
  /\ NoDup (Model.dim_date hash try_double try_date date_parts files).
Proof.
  split; [|repeat split; apply NoDup_remove_dups].
  apply Forall_forall. intros f Hf. apply list_elem_of_In in Hf.
  unfold Model.fact_menu_price in Hf. apply in_map_iff in Hf.
  destruct Hf as (t & <- & Ht). apply filter_In in Ht. destruct Ht as [Ht Hk].
  apply andb_true_iff in Hk. destruct Hk as [Hp Hd].
  apply not_null_Some in Hp. destruct Hp as [p Hp].
  pose proof Hd as Hd'. apply not_null_Some in Hd'. destruct Hd' as [d Hd'].
  unfold Model.fact_row. exists t, p, d.
  split; [apply stg_typed_staged; exact Ht|].
  split; [reflexivity|]. split; [exact Hp|]. split; [exact Hd'|].
  split.
  { exists (Model.store_key (Model.t_row t)), (Model.city (Model.t_row t)),
      (Model.province (Model.t_row t)).
    apply (in_distinct_all (Model.store_row hash)). exact Ht. }
  split.
  { exists (Model.product_key (Model.t_row t)), (Model.recipe (Model.t_row t)),
      (Model.size (Model.t_row t)), (Model.crust (Model.t_row t)),
      (Model.category (Model.t_row t)).
    apply (in_distinct_all (Model.product_row hash)). exact Ht. }
  split.
  { pose proof (in_distinct (Model.date_row hash date_parts)
                  (fun t => Model.not_null (Model.t_date t)) _ t Ht Hd) as Hin.
    unfold Model.date_row, Model.date_id in Hin. rewrite Hd' in Hin. simpl in Hin.
    unfold Model.date_id. rewrite Hd'. exact Hin. }
  intros ck Hck.
  assert (Hn : Model.not_null (Model.chain_key (Model.t_row t)) = true)
    by (rewrite Hck; reflexivity).
  pose proof (in_distinct (Model.chain_row hash)
                (fun t => Model.not_null (Model.chain_key (Model.t_row t))) _ t Ht Hn) as Hin.
  unfold Model.chain_row in Hin. rewrite Hck in Hin. exact Hin.
Qed.

(** ** Domino's: the variant lists and the variant records agree *)

Section RecordFacts.

Import Json DominosExtract DominosSpec.

Lemma nonempty_length s : Text.nonempty s = true <-> (0 < String.length s)%nat.
Proof. destruct s; simpl; split; intros; try lia; try discriminate; reflexivity. Qed.

Lemma append_length a b :
  String.length (a ++ b) = (String.length a + String.length b)%nat.
Proof.
  induction a as [|c a IH]; [reflexivity|].
  rewrite append_cons. simpl. rewrite IH. reflexivity.
Qed.

Lemma pretty_N_go_nonempty x : forall s, s <> "" -> pretty_N_go x s <> "".
Proof.
  induction (N.lt_wf_0 x) as [x _ IH]; intros s Hs.
  destruct (N.eq_dec x 0%N) as [->|Hx]; [rewrite pretty_N_go_0; exact Hs|].
  rewrite pretty_N_go_step by lia.
  apply IH; [apply N.div_lt; lia | discriminate].
Qed.

Lemma pretty_pos_nonempty (p : positive) : Text.nonempty (pretty p) = true.
Proof.
  assert (H : pretty p <> "").
  { unfold pretty, pretty_positive, pretty, pretty_N.
    destruct (decide (N.pos p = 0%N)); [discriminate|].
    rewrite pretty_N_go_step by lia. apply pretty_N_go_nonempty. discriminate. }
  destruct (pretty p); [contradiction | reflexivity].
Qed.

Lemma pretty_Z_nonempty (z : Z) : Text.nonempty (pretty z) = true.
Proof.
  destruct z as [|p|p]; [reflexivity | apply pretty_pos_nonempty | reflexivity].
Qed.

Lemma repr_float_nonempty f : Text.nonempty (Num.repr_float f) = true.
Proof.
  apply nonempty_length. unfold Num.repr_float.
  destruct f as [m e|b|]; [|destruct b; simpl; lia|simpl; lia].
  destruct (m =? 0)%Z; [simpl; lia|].
  repeat match goal with
         | |- context [if ?b then _ else _] => destruct b
         end;
    rewrite ?append_length; simpl String.length; lia.
Qed.

(** [str] of a value that counts as true is never the empty text. *)
Lemma str_truthy_nonempty x : truthy x = true -> Text.nonempty (str x) = true.
Proof.
  destruct x as [|b|z|f|s|l|d]; simpl; intros H; try discriminate.
  - destruct b; [reflexivity | discriminate].
  - apply pretty_Z_nonempty.
  - apply repr_float_nonempty.
  - exact H.
  - reflexivity.
  - reflexivity.
Qed.

Lemma synthesized_code_nonempty pcode listed :
  Text.nonempty (synthesized_code pcode listed) = true.
Proof.
  apply nonempty_length. unfold synthesized_code.
  rewrite !append_length. simpl String.length. lia.
Qed.

Lemma agree_empty prods : agree (Extraction prods ∅ ∅).
Proof.
  split; simpl.
  - intros p l H. rewrite lookup_empty in H. discriminate.
  - intros vc [v H]. rewrite lookup_empty in H. discriminate.
Qed.

Lemma agree_insert prods prods' vars lists (key code : string) (rec : dict) :
  Text.nonempty code = true ->
  agree (Extraction prods vars lists) ->
  agree (Extraction prods' (<[code := rec]> vars)
           (<[key := (default [] (lists !! key) ++ [code])%list]> lists)).
Proof.
  intros Hne [Hl Hr]. simpl in Hl, Hr. split; simpl.
  - intros p l H. apply lookup_insert_Some in H.
    destruct H as [[<- <-]|[Hp H]].
    + split; [intros Hnil; apply app_eq_nil in Hnil; destruct Hnil; discriminate|].
      intros vc Hin. apply in_app_or in Hin. destruct Hin as [Hin|[<-|[]]].
      * destruct (lists !! key) as [l0|] eqn:Hk; [|destruct Hin].
        destruct (Hl key l0 Hk) as [_ Hall]. destruct (Hall vc Hin) as [H1 H2].
        split; [exact H1|]. apply lookup_insert_is_Some'. right. exact H2.
      * split; [exact Hne|]. apply lookup_insert_is_Some'. left. reflexivity.
    + destruct (Hl p l H) as [Hnil Hall]. split; [exact Hnil|].
      intros vc Hin. destruct (Hall vc Hin) as [H1 H2].
      split; [exact H1|]. apply lookup_insert_is_Some'. right. exact H2.
  - intros vc H. apply lookup_insert_is_Some' in H.
    destruct (decide (code = vc)) as [<-|Hvc].
    + exists key, (default [] (lists !! key) ++ [code])%list. split.
      * apply lookup_insert_Some. left. split; reflexivity.
      * apply in_or_app. right. left. reflexivity.
    + destruct H as [H|H]; [contradiction|].
      destruct (Hr vc H) as (p & l & Hp & Hin).
      destruct (decide (key = p)) as [<-|Hkp].
      * exists key, (default [] (lists !! key) ++ [code])%list. split.
        -- apply lookup_insert_Some. left. split; reflexivity.
        -- rewrite Hp. simpl. apply in_or_app. left. exact Hin.
      * exists p, l. split; [|exact Hin].
        apply lookup_insert_Some. right. split; assumption.
Qed.

Lemma add_variant_agree vcode v pcode st :
  agree st -> agree (add_variant vcode v pcode st).
Proof.
  intros H. unfold add_variant. destruct (truthy pcode); simpl; [|exact H].
  destruct st as [prods vars lists]. simpl.
  destruct (truthy vcode) eqn:Hv.
  - apply (agree_insert prods prods); [apply str_truthy_nonempty; exact Hv | exact H].
  - apply (agree_insert prods prods); [apply synthesized_code_nonempty | exact H].
Qed.

Lemma register_product_agree obj st : agree st -> agree (register_product obj st).
Proof.
  intros H. unfold register_product.
  destruct (truthy _); [|exact H].
  destruct st as [prods vars lists]. exact H.
Qed.

Lemma register_inline_agree obj st : agree st -> agree (register_inline obj st).
Proof.
  unfold register_inline. destruct (lookup "Variants" obj) as [[]|]; auto.
  - revert st. induction l as [|v vs IH]; intros st H; simpl; [exact H|].
    apply IH. destruct v; auto. apply add_variant_agree. exact H.
  - revert st. induction d as [|[k v] vs IH]; intros st H; simpl; [exact H|].
    apply IH. destruct v; auto. apply add_variant_agree. exact H.
Qed.

Lemma visit_agree obj st : agree st -> agree (visit obj st).
Proof.
  intros H. unfold visit. apply register_inline_agree.
  destruct (looks_like_variant obj).
  - apply add_variant_agree.
    destruct (looks_like_product obj); [apply register_product_agree|]; exact H.
  - destruct (looks_like_product obj); [apply register_product_agree|]; exact H.
Qed.

Lemma each_keeps {A S : Type} (P : S -> Prop) (body : A -> S -> option S) l :
  (forall x st st', body x st = Some st' -> P st -> P st') ->
  forall st st', each body l st = Some st' -> P st -> P st'.
Proof.
  intros Hb. induction l as [|x l IH]; intros st st' H HP; simpl in H.
  - injection H as <-. exact HP.
  - destruct (body x st) as [st1|] eqn:Hx; [|discriminate].
    apply (IH st1 st' H). apply (Hb x st st1 Hx HP).
Qed.

Lemma walk_keeps (P : extraction -> Prop) :
  (forall obj st, P st -> P (visit obj st)) ->
  forall depth obj st st', walk depth obj st = Some st' -> P st -> P st'.
Proof.
  intros Hv. induction depth as [|depth IH]; intros obj st st' H HP; [discriminate|].
  destruct obj; simpl in H; try (injection H as <-; exact HP).
  - apply (each_keeps P _ _ (IH) _ _ H HP).
  - apply (each_keeps P _ _ (IH) _ _ H). apply Hv. exact HP.
Qed.

(** Products are registered, never dropped. *)
Lemma visit_products obj st p :
  is_Some (products_by_code st !! p) -> is_Some (products_by_code (visit obj st) !! p).
Proof.
  intros H. unfold visit. rewrite register_inline_products.
  assert (Hreg : forall s, is_Some (products_by_code s !! p) ->
                           is_Some (products_by_code (register_product obj s) !! p)).
  { intros s Hs. unfold register_product. destruct (truthy _); [|exact Hs]. simpl.
    match goal with
    | |- context [match ?x with Some _ => _ | None => _ end] => destruct x
    end; apply lookup_insert_is_Some'; right; exact Hs. }
  destruct (looks_like_variant obj); [rewrite add_variant_products|];
    (destruct (looks_like_product obj); [apply Hreg|]; exact H).
Qed.

Lemma dedupe_keeps l vc : In vc (dedupe ∅ l) <-> In vc l.
Proof.
  destruct (dedupe_spec l ∅) as [_ H]. rewrite H. split; [tauto|].
  intros Hin. split; [exact Hin | apply not_elem_of_empty].
Qed.

Lemma dedupe_nil l : dedupe ∅ l = [] -> l = [].
Proof.
  destruct l as [|x l]; [reflexivity|]. intros H.
  assert (Hin : In x (dedupe ∅ (x :: l))) by (apply dedupe_keeps; left; reflexivity).
  rewrite H in Hin. destruct Hin.
Qed.

End RecordFacts.

(** X17.  What [collect_products_and_variants] returns is consistent
    ([agree]): every code in a list of [product_to_variants] is a
    non-empty text and a key of [variants_by_code] (so the fallbacks of
    [scrape_store] for an empty code or a missing record never apply),
    every key of [variants_by_code] is in the list of some item, and no
    list is empty.  Every step of the walk keeps this, whatever node it
    looks at.  Every mapping under [menu("Products")] is still registered
    in [products_by_code] at the end. *)
Theorem variant_lists_and_records_agree :
  (forall obj st, DominosSpec.agree st -> DominosSpec.agree (DominosExtract.visit obj st))
  /\ (forall depth menu st,
        DominosExtract.collect_products_and_variants depth menu = Some st ->
        DominosSpec.agree st
        /\ forall p, is_Some (DominosExtract.preregistered menu !! p) ->
                     is_Some (DominosExtract.products_by_code st !! p)).
Proof.
  split; [exact visit_agree|].
  intros depth menu st.
  unfold DominosExtract.collect_products_and_variants.
  destruct (DominosExtract.walk depth (Json.JDict menu) _) as [st0|] eqn:Hw;
    [|discriminate].
  intros [= <-].
  pose proof (walk_keeps DominosSpec.agree visit_agree _ _ _ _ Hw (agree_empty _))
    as [Hl Hr].
  split; [split|]; simpl.
  - intros p l H. rewrite lookup_fmap in H.
    destruct (DominosExtract.product_to_variants st0 !! p) as [l0|] eqn:Hp;
      [|discriminate].
    simpl in H. injection H as <-. destruct (Hl p l0 Hp) as [Hnil Hall]. split.
    + intros Hd. apply Hnil. apply dedupe_nil. exact Hd.
    + intros vc Hin. apply Hall. apply dedupe_keeps. exact Hin.
  - intros vc H. destruct (Hr vc H) as (p & l & Hp & Hin).
    exists p, (DominosExtract.dedupe ∅ l). split.
    + rewrite lookup_fmap, Hp. reflexivity.
    + apply dedupe_keeps. exact Hin.
  - intros p H.
    apply (walk_keeps (fun s => is_Some (DominosExtract.products_by_code s !! p))
             (fun obj s => visit_products obj s p) _ _ _ _ Hw).
    exact H.
Qed.

(** X17, witness: a menu with one registered item, a variant with a code
    of its own, met twice by the walk, and a variant without one. *)
Lemma variant_lists_and_records_agree_witness :
  let menu := [("Products", Json.JDict [("P2", Json.JDict [("Name", Json.JStr "Pizza")])]);
               ("Variants",
                Json.JDict
                  [("V1", Json.JDict [("Code", Json.JStr "V1");
                                      ("ProductCode", Json.JStr "P2");
                                      ("Price", Json.JStr "9.99")])]);
               ("Extra",
                Json.JList
                  [Json.JDict [("ProductCode", Json.JStr "P2");
                               ("Price", Json.JStr "12.99")]])] in
  (DominosExtract.product_to_variants
     <$> DominosExtract.collect_products_and_variants 10 menu)
  = Some {[ "P2" := ["V1"; "P2__v003"] ]}
  /\ match DominosExtract.collect_products_and_variants 10 menu with
     | Some st =>
         DominosSpec.agree st
         /\ forall p, is_Some (DominosExtract.preregistered menu !! p) ->
                      is_Some (DominosExtract.products_by_code st !! p)
     | None => False
     end.
Proof.
  intros menu. split; [vm_compute; reflexivity|].
  destruct (DominosExtract.collect_products_and_variants 10 menu) as [st|] eqn:H;
    [|vm_compute in H; discriminate].
  exact (proj2 variant_lists_and_records_agree 10 menu st H).
Defined.

(** ** Domino's: the work rows of a store *)

Section RowFacts.

Import Json DominosExtract DominosRows.

Variable sid : Z.
Variables the_name the_city the_province : string.
Variable st : extraction.
Variable ix : cat_index.

Local Abbreviation rows_of := (rows_of_product sid the_name the_city the_province st ix).

Lemma variant_row_codes pcode prod p_name p_desc cats l :
  List.map variant_code
    (List.map (variant_row sid the_name the_city the_province st pcode prod p_name
                 p_desc cats) l) = l.
Proof.
  induction l as [|vc l IH]; [reflexivity|]. simpl. rewrite IH. reflexivity.
Qed.

(** The rows of one product: its code in every row, and its listed
    variant codes, in order, or one row without variant code. *)
Lemma rows_of_product_codes pcode :
  Forall (fun r => product_code r = pcode
                   /\ store_id r = sid /\ store_name r = the_name
                   /\ city r = the_city /\ province r = the_province)
         (rows_of pcode)
  /\ List.map variant_code (rows_of pcode)
     = match default [] (product_to_variants st !! pcode) with
       | [] => [""]
       | l => l
       end.
Proof.
  unfold rows_of_product.
  destruct (default [] (product_to_variants st !! pcode)) as [|vc l] eqn:Hl.
  - split; [|reflexivity]. repeat constructor.
  - split.
    + apply Forall_forall. intros r Hr. apply list_elem_of_In, in_map_iff in Hr.
      destruct Hr as (x & <- & _). repeat split.
    + apply variant_row_codes.
Qed.

Lemma filter_map_in {A B} (f : A -> B) (p : A -> bool) l x :
  In x (List.map f (List.filter p l)) -> In x (List.map f l).
Proof.
  intros H. apply in_map_iff in H. destruct H as (a & <- & Ha).
  apply filter_In in Ha. apply in_map. tauto.
Qed.

Lemma filter_map_NoDup {A B} (f : A -> B) (p : A -> bool) l :
  NoDup (List.map f l) -> NoDup (List.map f (List.filter p l)).
Proof.
  induction l as [|a l IH]; simpl; [auto|].
  intros H. apply NoDup_cons in H. destruct H as [Ha Hl].
  destruct (p a); [|auto]. simpl. apply NoDup_cons. split; [|auto].
  intros Hin. apply Ha. apply list_elem_of_In. apply list_elem_of_In in Hin.
  exact (filter_map_in f p l _ Hin).
Qed.

Lemma filter_map_sorted {A B} (R : relation B) (f : A -> B) (p : A -> bool) l :
  StronglySorted R (List.map f l) -> StronglySorted R (List.map f (List.filter p l)).
Proof.
  induction l as [|a l IH]; simpl; [auto|].
  intros H. apply StronglySorted_inv in H. destruct H as [Hl Ha].
  destruct (p a); [|auto]. simpl. constructor; [auto|].
  apply Forall_forall. intros y Hy. rewrite Forall_forall in Ha. apply Ha.
  apply list_elem_of_In. apply list_elem_of_In in Hy.
  exact (filter_map_in f p l _ Hy).
Qed.

Lemma rows_in codes r :
  In r (List.concat (List.map rows_of codes)) ->
  In (product_code r) codes /\ In r (rows_of (product_code r)).
Proof.
  intros H. apply in_concat in H. destruct H as (g & Hg & Hr).
  apply in_map_iff in Hg. destruct Hg as (c & <- & Hc).
  destruct (rows_of_product_codes c) as [Hall _].
  rewrite Forall_forall in Hall.
  destruct (Hall r (proj2 (list_elem_of_In _ _) Hr)) as [Hpc _].
  rewrite Hpc. split; assumption.
Qed.

Lemma rows_keys_distinct codes :
  (forall p l, product_to_variants st !! p = Some l -> NoDup l) ->
  NoDup codes ->
  NoDup (List.map row_key (List.concat (List.map rows_of codes))).
Proof.
  intros Hlists. induction codes as [|c codes IH]; intros Hnd; simpl; [constructor|].
  apply NoDup_cons in Hnd. destruct Hnd as [Hc Hnd].
  rewrite map_app. apply NoDup_app. split; [|split; [|apply IH; exact Hnd]].
  - destruct (rows_of_product_codes c) as [Hall Hv].
    assert (Hvnd : NoDup (List.map variant_code (rows_of c))).
    { rewrite Hv. destruct (product_to_variants st !! c) as [l|] eqn:Hl; simpl.
      - destruct l; [repeat constructor; apply not_elem_of_nil|].
        apply (Hlists c _ Hl).
      - repeat constructor. apply not_elem_of_nil. }
    clear Hv. induction (rows_of c) as [|r rs IHr]; simpl; [constructor|].
    simpl in Hvnd. apply NoDup_cons in Hvnd. destruct Hvnd as [Hr Hrs].
    apply Forall_cons in Hall. destruct Hall as [_ Hall].
    apply NoDup_cons. split; [|apply IHr; assumption].
    intros Hin. apply Hr. apply list_elem_of_In. apply list_elem_of_In in Hin.
    apply in_map_iff in Hin. destruct Hin as (r' & Hk & Hr').
    apply in_map_iff. exists r'. split; [|exact Hr'].
    unfold row_key in Hk. congruence.
  - intros k Hk1 Hk2. apply list_elem_of_In in Hk1. apply list_elem_of_In in Hk2.
    apply in_map_iff in Hk1. destruct Hk1 as (r1 & <- & Hr1).
    apply in_map_iff in Hk2. destruct Hk2 as (r2 & Hk & Hr2).
    destruct (rows_of_product_codes c) as [Hall _]. rewrite Forall_forall in Hall.
    destruct (Hall r1 (proj2 (list_elem_of_In _ _) Hr1)) as [Hpc _].
    destruct (rows_in codes r2 Hr2) as [Hin _].
    apply Hc. apply list_elem_of_In.
    unfold row_key in Hk. replace c with (product_code r2); [exact Hin|].
    rewrite <- Hpc. congruence.
Qed.

Lemma rows_sorted codes :
  StronglySorted str_le codes ->
  StronglySorted str_le (List.map product_code (List.concat (List.map rows_of codes))).
Proof.
  induction codes as [|c codes IH]; intros Hs; simpl; [constructor|].
  apply StronglySorted_inv in Hs. destruct Hs as [Hs Hc].
  specialize (IH Hs). rewrite map_app.
  destruct (rows_of_product_codes c) as [Hall _].
  induction (rows_of c) as [|r rs IHr]; simpl; [exact IH|].
  apply Forall_cons in Hall. destruct Hall as [[Hpc _] Hall].
  constructor; [apply IHr; exact Hall|].
  apply Forall_forall. intros y Hy. apply list_elem_of_In, in_app_or in Hy.
  rewrite Hpc. destruct Hy as [Hy|Hy].
  - apply in_map_iff in Hy. destruct Hy as (r' & <- & Hr').
    rewrite Forall_forall in Hall.
    destruct (Hall r' (proj2 (list_elem_of_In _ _) Hr')) as [-> _].
    destruct (str_le_total c c); assumption.
  - apply in_map_iff in Hy. destruct Hy as (r' & <- & Hr').
    destruct (rows_in codes r' Hr') as [Hin _].
    rewrite Forall_forall in Hc. apply Hc. apply list_elem_of_In. exact Hin.
Qed.

Lemma sorted_codes_spec :
  NoDup (sorted_codes st)
  /\ StronglySorted str_le (sorted_codes st)
  /\ forall c, In c (sorted_codes st) <-> c ∈ prod_codes st.
Proof.
  unfold sorted_codes. split; [|split].
  - rewrite merge_sort_Permutation. apply NoDup_elements.
  - apply StronglySorted_merge_sort; [exact str_le_trans | exact str_le_total].
  - intros c. rewrite <- list_elem_of_In, merge_sort_Permutation. apply elem_of_elements.
Qed.

(** What holds of the rows kept for a store. *)
Lemma cleaned_spec :
  (forall p l, product_to_variants st !! p = Some l -> NoDup l) ->
  let out := cleaned sid the_name the_city the_province st ix in
  NoDup (List.map row_key out)
  /\ StronglySorted str_le (List.map product_code out)
  /\ Forall (fun r =>
               kept r = true
               /\ product_code r ∈ prod_codes st
               /\ (variant_code r = ""
                   /\ default [] (product_to_variants st !! product_code r) = []
                   \/ In (variant_code r)
                         (default [] (product_to_variants st !! product_code r)))
               /\ store_id r = sid /\ store_name r = the_name
               /\ city r = the_city /\ province r = the_province) out.
Proof.
  intros Hlists out. subst out. unfold cleaned, rows.
  destruct sorted_codes_spec as (Hnd & Hs & Hin).
  split; [|split].
  - apply filter_map_NoDup. apply rows_keys_distinct; assumption.
  - apply filter_map_sorted. apply rows_sorted. exact Hs.
  - apply Forall_forall. intros r Hr. apply list_elem_of_In, filter_In in Hr.
    destruct Hr as [Hr Hk]. destruct (rows_in _ r Hr) as [Hc Hrow].
    destruct (rows_of_product_codes (product_code r)) as [Hall Hv].
    rewrite Forall_forall in Hall.
    destruct (Hall r (proj2 (list_elem_of_In _ _) Hrow)) as (_ & H1 & H2 & H3 & H4).
    split; [exact Hk|]. split; [apply Hin; exact Hc|]. split; [|tauto].
    assert (Hvc : In (variant_code r)
                     (List.map variant_code (rows_of (product_code r))))
      by (apply in_map; exact Hrow).
    rewrite Hv in Hvc.
    destruct (default [] (product_to_variants st !! product_code r)) as [|x l].
    + left. destruct Hvc as [<-|[]]. split; reflexivity.
    + right. exact Hvc.
Qed.

End RowFacts.

(** The province is empty or has two characters. *)
Lemma extract_province_shape flat :
  DominosRows.extract_province flat = ""
  \/ Strings.len (DominosRows.extract_province flat) = 2%nat.
Proof.
  induction flat as [|[k v] rest IH]; [left; reflexivity|].
  cbn [DominosRows.extract_province]. destruct v; try exact IH.
  destruct (Strings.len (Text.strip s) =? 2)%nat eqn:Hl; [|exact IH].
  cbn [andb]. destruct (existsb _ _); [|exact IH].
  right. apply Nat.eqb_eq. exact Hl.
Qed.

(** X18.  The rows that Domino's [scrape_store] returns for a store are
    keyed by product code and variant code: no two rows share the pair;
    the rows come in the order of their product codes (sorted as texts),
    every row has a product name, a variant name or a price, its product
    code is one of [prod_codes], its variant code is one of the codes
    listed for the product, or empty when none is listed, and it carries
    the store's id, name, city and province; the province is empty or has
    two characters.  This holds of the rows built
    from any collection whose variant lists have no repeated code, and so
    of the rows built from the collection of the store's menu. *)
Theorem dominos_rows_keyed :
  (forall sid the_name the_city the_province st ix,
      (forall p l, DominosExtract.product_to_variants st !! p = Some l -> NoDup l) ->
      let out := DominosRows.cleaned sid the_name the_city the_province st ix in
      NoDup (List.map DominosRows.row_key out)
      /\ StronglySorted DominosExtract.str_le (List.map DominosRows.product_code out)
      /\ Forall (fun r =>
                   DominosRows.kept r = true
                   /\ DominosRows.product_code r ∈ DominosRows.prod_codes st
                   /\ (DominosRows.variant_code r = ""
                       /\ default [] (DominosExtract.product_to_variants st
                                        !! DominosRows.product_code r) = []
                       \/ In (DominosRows.variant_code r)
                             (default [] (DominosExtract.product_to_variants st
                                            !! DominosRows.product_code r)))
                   /\ DominosRows.store_id r = sid
                   /\ DominosRows.store_name r = the_name
                   /\ DominosRows.city r = the_city
                   /\ DominosRows.province r = the_province) out)
  /\ (forall depth sid menu flat out,
        DominosRows.scrape_body depth sid menu flat = Some out ->
        NoDup (List.map DominosRows.row_key out)
        /\ StronglySorted DominosExtract.str_le (List.map DominosRows.product_code out)
        /\ Forall (fun r =>
                     DominosRows.kept r = true
                     /\ DominosRows.store_id r = sid
                     /\ DominosRows.store_name r = DominosRows.extract_store_name flat
                     /\ DominosRows.city r = DominosRows.extract_city flat
                     /\ DominosRows.province r = DominosRows.extract_province flat
                     /\ (DominosRows.province r = ""
                         \/ Strings.len (DominosRows.province r) = 2%nat)) out).
Proof.
  split; [intros; apply cleaned_spec; assumption|].
  intros depth sid menu flat out H. unfold DominosRows.scrape_body in H.
  destruct menu as [| | | | | |m]; try discriminate.
  destruct (DominosExtract.collect_products_and_variants depth m) as [st|] eqn:Hc;
    [|discriminate].
  destruct (DominosExtract.collect_category_index depth m) as [ix| |]; try discriminate.
  injection H as <-.
  assert (Hlists : forall p l,
             DominosExtract.product_to_variants st !! p = Some l -> NoDup l).
  { intros p l Hl. unfold DominosExtract.collect_products_and_variants in Hc.
    destruct (DominosExtract.walk _ _ _) as [st0|]; [|discriminate].
    injection Hc as <-. simpl in Hl. rewrite lookup_fmap in Hl.
    destruct (DominosExtract.product_to_variants st0 !! p) as [l0|]; [|discriminate].
    injection Hl as <-. apply (dedupe_spec l0 ∅). }
  destruct (cleaned_spec sid (DominosRows.extract_store_name flat)
              (DominosRows.extract_city flat) (DominosRows.extract_province flat)
              st ix Hlists) as (H1 & H2 & H3).
  split; [exact H1|]. split; [exact H2|].
  eapply Forall_impl; [exact H3|]. simpl.
  intros r (K1 & _ & _ & K2 & K3 & K4 & K5).
  repeat (split; [assumption|]). rewrite K5. apply extract_province_shape.
Qed.

(** X18, witness: the menu of a store with one item that has two
    variants; its two rows are kept, under distinct keys. *)
Lemma dominos_rows_keyed_witness :
  let menu :=
    Json.JDict
      [("Products",
        Json.JDict [("P2", Json.JDict [("Name", Json.JStr "Pepperoni Pizza")])]);
       ("Variants",
        Json.JDict
          [("12P2", Json.JDict [("Code", Json.JStr "12P2");
                                ("ProductCode", Json.JStr "P2");
                                ("Name", Json.JStr "Medium Pepperoni");
                                ("Price", Json.JStr "12.99")]);
           ("14P2", Json.JDict [("Code", Json.JStr "14P2");
                                ("ProductCode", Json.JStr "P2");
                                ("Name", Json.JStr "Large Pepperoni");
                                ("Price", Json.JStr "15.99")])])] in
  let flat := [("City", Json.JStr "Toronto"); ("Region", Json.JStr "ON");
               ("StoreName", Json.JStr "Queen Street")] in
  option_map (List.map DominosRows.row_key) (DominosRows.scrape_body 10 10234 menu flat)
  = Some [("P2", "12P2"); ("P2", "14P2")]
  /\ match DominosRows.scrape_body 10 10234 menu flat with
     | Some out =>
         NoDup (List.map DominosRows.row_key out)
         /\ StronglySorted DominosExtract.str_le (List.map DominosRows.product_code out)
     | None => False
     end.
Proof.
  intros menu flat. split; [vm_compute; reflexivity|].
  destruct (DominosRows.scrape_body 10 10234 menu flat) as [out|] eqn:H;
    [|vm_compute in H; discriminate].
  destruct (proj2 dominos_rows_keyed 10 10234%Z menu flat out H) as (H1 & H2 & _).
  split; assumption.
Defined.

(** ** What a group captures *)

Section CaptureFacts.

Import Regex Runs.

Lemma repeat_eats (step : success -> list success) (q : ascii -> bool) :
  (forall cu cap e g, In (e, g) (step (cu, cap)) ->
     exists taken, after cu = (taken ++ after e)%list /\ forallb q taken = true) ->
  forall fuel lo hi cu cap e g, In (e, g) (repeat fuel step lo hi (cu, cap)) ->
    exists taken, after cu = (taken ++ after e)%list /\ forallb q taken = true.
Proof.
  intros Hstep. induction fuel as [|fuel IH]; intros lo hi cu cap e g Hin.
  - simpl in Hin. destruct lo; [|destruct Hin].
    destruct Hin as [[= <- <-]|[]]. exists []. split; reflexivity.
  - rewrite repeat_S in Hin. apply in_app_or in Hin. destruct Hin as [Hin|Hin].
    + destruct hi as [[|hi]|]; try (destruct Hin; fail).
      * apply in_flat_map in Hin. destruct Hin as ([cu1 cap1] & H1 & H2).
        destruct (Hstep _ _ _ _ H1) as (t1 & E1 & Q1).
        cbn [fst] in H2.
        destruct (List.length (after cu1) <? List.length (after cu))%nat.
        -- destruct (IH _ _ _ _ _ _ H2) as (t2 & E2 & Q2).
           exists (t1 ++ t2)%list. split.
           ++ rewrite E1, E2, app_assoc. reflexivity.
           ++ rewrite forallb_app, Q1, Q2. reflexivity.
        -- destruct lo as [|[|lo]]; try (destruct H2; fail).
           destruct H2 as [[= <- <-]|[]]. exists t1. split; assumption.
      * apply in_flat_map in Hin. destruct Hin as ([cu1 cap1] & H1 & H2).
        destruct (Hstep _ _ _ _ H1) as (t1 & E1 & Q1).
        cbn [fst] in H2.
        destruct (List.length (after cu1) <? List.length (after cu))%nat.
        -- destruct (IH _ _ _ _ _ _ H2) as (t2 & E2 & Q2).
           exists (t1 ++ t2)%list. split.
           ++ rewrite E1, E2, app_assoc. reflexivity.
           ++ rewrite forallb_app, Q1, Q2. reflexivity.
        -- destruct lo as [|[|lo]]; try (destruct H2; fail).
           destruct H2 as [[= <- <-]|[]]. exists t1. split; assumption.
    + destruct lo; [|destruct Hin].
      destruct Hin as [[= <- <-]|[]]. exists []. split; reflexivity.
Qed.

Lemma class_step ic p (q : ascii -> bool) :
  (forall c, test ic p c = true -> q c = true) ->
  forall cu cap e g, In (e, g) (run ic (Chr p) (cu, cap)) ->
    exists c, after cu = c :: after e /\ q c = true.
Proof.
  intros Hq [bef aft] cap e g Hin. rewrite run_class in Hin. cbn [after].
  destruct aft as [|c t]; [destruct Hin|].
  destruct (test ic p c) eqn:Ht; [|destruct Hin].
  destruct Hin as [[= <- <-]|[]]. exists c. split; [reflexivity | apply Hq; exact Ht].
Qed.

Lemma eats_chr ic p q :
  (forall c, test ic p c = true -> q c = true) -> eats ic q true (Chr p).
Proof.
  intros Hq cu cap e g Hin.
  destruct (class_step ic p q Hq _ _ _ _ Hin) as (c & E & Q).
  exists [c]. split; [exact E|]. split; [simpl; rewrite Q; reflexivity | discriminate].
Qed.

Lemma eats_weaken ic q b r : eats ic q b r -> eats ic q false r.
Proof.
  intros H cu cap e g Hin. destruct (H _ _ _ _ Hin) as (t & E & Q & _).
  exists t. split; [exact E|]. split; [exact Q | discriminate].
Qed.

Lemma eats_rep ic q b r lo hi : eats ic q b r -> eats ic q false (Rep r lo hi).
Proof.
  intros H cu cap e g Hin. cbn [run] in Hin.
  assert (Hstep : forall cu cap e g, In (e, g) (run ic r (cu, cap)) ->
            exists taken, after cu = (taken ++ after e)%list /\ forallb q taken = true).
  { intros cu0 cap0 e0 g0 H0. destruct (H _ _ _ _ H0) as (t & E & Q & _). eauto. }
  destruct (repeat_eats _ q Hstep _ _ _ _ _ _ _ Hin) as (t & E & Q).
  exists t. split; [exact E|]. split; [exact Q | discriminate].
Qed.

(** A repetition of a class that must match at least once. *)
Lemma eats_class_rep ic p q lo hi :
  (forall c, test ic p c = true -> q c = true) ->
  eats ic q true (Rep (Chr p) (S lo) hi).
Proof.
  intros Hq cu cap e g Hin. cbn [run] in Hin. rewrite repeat_S in Hin.
  rewrite app_nil_r in Hin.
  assert (Hstep : forall cu cap e g, In (e, g) (run ic (Chr p) (cu, cap)) ->
            exists taken, after cu = (taken ++ after e)%list /\ forallb q taken = true).
  { intros cu0 cap0 e0 g0 H0.
    destruct (class_step ic p q Hq _ _ _ _ H0) as (c & E & Q).
    exists [c]. split; [exact E | simpl; rewrite Q; reflexivity]. }
  assert (Hgo : exists cu1 cap1 c,
             after cu = c :: after cu1 /\ q c = true
             /\ ((exists fuel lo' hi', In (e, g) (repeat fuel (run ic (Chr p)) lo' hi'
                                                    (cu1, cap1)))
                 \/ (e, g) = (cu1, cap1))).
  { destruct hi as [[|hi]|]; try (destruct Hin; fail);
      apply in_flat_map in Hin; destruct Hin as ([cu1 cap1] & H1 & H2);
      destruct (class_step ic p q Hq _ _ _ _ H1) as (c & E & Q);
      exists cu1, cap1, c; (split; [exact E|]); (split; [exact Q|]);
      cbn [fst] in H2;
      (destruct (List.length (after cu1) <? List.length (after cu))%nat;
       [left; eauto|]);
      (destruct lo; [|destruct H2]); destruct H2 as [<-|[]]; right; reflexivity. }
  destruct Hgo as (cu1 & cap1 & c & E & Q & [(fuel & lo' & hi' & Hr)|[= -> ->]]).
  - destruct (repeat_eats _ q Hstep _ _ _ _ _ _ _ Hr) as (t & E2 & Q2).
    exists (c :: t). split; [rewrite E, E2; reflexivity|].
    split; [simpl; rewrite Q, Q2; reflexivity | discriminate].
  - exists [c]. split; [exact E|].
    split; [simpl; rewrite Q; reflexivity | discriminate].
Qed.

Lemma eats_seq ic q b1 b2 r1 r2 :
  eats ic q b1 r1 -> eats ic q b2 r2 -> eats ic q (b1 || b2) (Seq r1 r2).
Proof.
  intros H1 H2 cu cap e g Hin. cbn [run] in Hin.
  apply in_flat_map in Hin. destruct Hin as ([cu1 cap1] & Hi1 & Hi2).
  destruct (H1 _ _ _ _ Hi1) as (t1 & E1 & Q1 & N1).
  destruct (H2 _ _ _ _ Hi2) as (t2 & E2 & Q2 & N2).
  exists (t1 ++ t2)%list. split; [rewrite E1, E2, app_assoc; reflexivity|].
  split; [rewrite forallb_app, Q1, Q2; reflexivity|].
  intros Hb Hnil. apply app_eq_nil in Hnil. destruct Hnil as [-> ->].
  apply orb_true_iff in Hb. destruct Hb as [Hb|Hb]; [apply N1 | apply N2]; auto.
Qed.

Lemma firstn_taken (taken rest : list ascii) :
  firstn (List.length (taken ++ rest) - List.length rest) (taken ++ rest)%list = taken.
Proof.
  rewrite length_app. replace (_ + _ - _)%nat with (List.length taken + 0)%nat by lia.
  rewrite firstn_app_2. simpl. apply app_nil_r.
Qed.

(** What group 1 holds is what the grouped expression went over. *)
Lemma sets_grp ic q r :
  eats ic q true r ->
  sets ic (fun t => t <> [] /\ forallb q t = true) (Grp r).
Proof.
  intros H [cu cap] e g Hin. cbn [run] in Hin.
  apply in_map_iff in Hin. destruct Hin as ([e1 g1] & [= <- <-] & Hin).
  destruct (H _ _ _ _ Hin) as (t & E & Q & N).
  exists t. split; [|split; [apply N; reflexivity | exact Q]].
  cbn [fst]. rewrite E. rewrite firstn_taken. reflexivity.
Qed.

Lemma sets_seq_l ic P r1 r2 :
  sets ic P r1 -> groupless r2 = true -> sets ic P (Seq r1 r2).
Proof.
  intros H1 Hg s e g Hin. cbn [run] in Hin; destruct s as [cu cap].
  apply in_flat_map in Hin. destruct Hin as ([e1 g1] & Hi1 & Hi2).
  destruct (H1 _ _ _ Hi1) as (t & -> & Pt).
  pose proof (run_keeps_capture ic r2 Hg _ _ Hi2) as Hk. simpl in Hk. subst g.
  exists t. split; [reflexivity | exact Pt].
Qed.

Lemma sets_seq_r ic P r1 r2 : sets ic P r2 -> sets ic P (Seq r1 r2).
Proof.
  intros H2 s e g Hin. cbn [run] in Hin; destruct s as [cu cap].
  apply in_flat_map in Hin. destruct Hin as ([e1 g1] & Hi1 & Hi2).
  exact (H2 _ _ _ Hi2).
Qed.

Lemma match_at_sets ic P r cu f :
  sets ic P r -> match_at ic r cu = Some f -> exists t, m_group f = Some t /\ P t.
Proof.
  intros H Hm. unfold match_at in Hm.
  destruct (run ic r (cu, None)) as [|[e g] rest] eqn:Hr; [discriminate|].
  injection Hm as <-. simpl. apply (H (cu, None) e g). rewrite Hr. left. reflexivity.
Qed.

Lemma search_from_sets ic P r : sets ic P r ->
  forall fuel cu f, search_from fuel ic r cu = Some f ->
    exists t, m_group f = Some t /\ P t.
Proof.
  intros H. induction fuel as [|fuel IH]; intros cu f Hs; simpl in Hs.
  - destruct (match_at ic r cu) eqn:Hm; [|discriminate].
    injection Hs as <-. exact (match_at_sets _ _ _ _ _ H Hm).
  - destruct (match_at ic r cu) eqn:Hm.
    + injection Hs as <-. exact (match_at_sets _ _ _ _ _ H Hm).
    + destruct (after cu); [discriminate|]. exact (IH _ _ Hs).
Qed.

Lemma forallb_all_chars q l :
  forallb q l = true -> Strings.all_chars q (string_of_list_ascii l) = true.
Proof.
  induction l as [|c l IH]; simpl; [reflexivity|].
  intros H. apply andb_true_iff in H. destruct H as [-> H]. exact (IH H).
Qed.

(** What [m.group(1)] reads after a search or a match. *)
Lemma group1_sets ic q r s f :
  sets ic (fun t => t <> [] /\ forallb q t = true) r ->
  search ic r s = Some f \/ rmatch ic r s = Some f ->
  Text.nonempty (group1 f) = true /\ Strings.all_chars q (group1 f) = true.
Proof.
  intros H Hs.
  assert (Hg : exists t, m_group f = Some t /\ t <> [] /\ forallb q t = true).
  { destruct Hs as [Hs|Hs].
    - exact (search_from_sets _ _ _ H _ _ _ Hs).
    - exact (match_at_sets _ _ _ _ _ H Hs). }
  destruct Hg as (t & Hg & Hne & Hq). unfold group1. rewrite Hg.
  split; [|apply forallb_all_chars; exact Hq].
  destruct t; [contradiction | reflexivity].
Qed.

End CaptureFacts.

(** ** Domino's: sizes read from names and codes *)

Section SizeShapes.

Import Regex Runs Dominos DominosSpec.

Lemma test_digit ic c : test ic Text.is_digit c = true -> number_char c = true.
Proof.
  intros H. unfold number_char. apply orb_true_iff. left. revert H.
  destruct ic; [|rewrite test_plain; auto].
  destruct c as [[] [] [] [] [] [] [] []]; vm_compute; auto.
Qed.

Lemma test_point ic c : test ic (Ascii.eqb ".") c = true -> number_char c = true.
Proof.
  destruct ic; [|rewrite test_plain; intros H; apply Ascii.eqb_eq in H; subst c;
                 reflexivity].
  destruct c as [[] [] [] [] [] [] [] []]; vm_compute; auto.
Qed.

Lemma eats_digits ic lo hi : eats ic number_char true (Rep digit (S lo) hi).
Proof. apply eats_class_rep. apply test_digit. Qed.

Lemma eats_decimal ic : eats ic number_char true decimal_number.
Proof.
  unfold decimal_number, plus, opt.
  change true with (true || false).
  apply eats_seq; [apply eats_digits|].
  eapply eats_rep. apply (eats_seq ic number_char true true).
  - apply eats_chr. apply test_point.
  - apply eats_digits.
Qed.

Lemma sets_number_group ic r post :
  eats ic number_char true r -> groupless post = true ->
  forall pre, sets ic numeric (Seq pre (Seq (Grp r) post)).
Proof.
  intros He Hg pre. apply sets_seq_r. apply sets_seq_l; [|exact Hg].
  apply sets_grp. exact He.
Qed.

Lemma measured_intro g u :
  Text.nonempty g = true /\ Strings.all_chars number_char g = true ->
  In u size_units -> measured (g ++ u).
Proof.
  intros [H1 H2] Hu. exists g, u. split; [reflexivity|]. split; [|exact Hu].
  unfold number_text. rewrite H1, H2. reflexivity.
Qed.

End SizeShapes.

Section DerivedSizes.

Import Regex Runs Json Dominos DominosSpec.

Lemma first_found_measured s rules :
  Forall (fun rule : re * bool * (string -> string) =>
            sets (snd (fst rule)) numeric (fst (fst rule))
            /\ exists u, In u size_units /\ forall g, snd rule g = g ++ u) rules ->
  first_found s rules = "" \/ measured (first_found s rules).
Proof.
  induction rules as [|[[r ic] fmt] rules IH]; intros H; [left; reflexivity|].
  apply Forall_cons in H. destruct H as [[Hs (u & Hu & Hf)] H]. simpl in Hs, Hf.
  cbn [first_found]. destruct (search ic r s) as [m|] eqn:Hm; [|exact (IH H)].
  right. rewrite Hf. apply measured_intro; [|exact Hu].
  apply (group1_sets ic number_char r s m Hs). left. exact Hm.
Qed.

Ltac numbered :=
  first [ apply sets_number_group; [|reflexivity]
        | apply sets_seq_l; [apply sets_grp|reflexivity]
        | apply sets_seq_r; apply sets_grp ];
  first [ apply eats_digits | apply eats_decimal ].

Lemma text_rules_numbered :
  sets false numeric rx_inch_mark /\ sets true numeric rx_inch_word
  /\ sets true numeric rx_ml /\ sets true numeric rx_litre /\ sets true numeric rx_l
  /\ sets true numeric rx_dash_piece /\ sets true numeric rx_pc
  /\ sets true numeric rx_pieces.
Proof. repeat split; numbered. Qed.

Lemma code_rules_numbered :
  sets true numeric rx_code_pc /\ sets false numeric rx_code_lead
  /\ sets false numeric rx_code_tail /\ sets false numeric rx_code_ml
  /\ sets true numeric rx_code_l.
Proof. repeat split; numbered. Qed.

Lemma parse_size_from_text_measured name :
  parse_size_from_text name = "" \/ measured (parse_size_from_text name).
Proof.
  unfold parse_size_from_text.
  destruct (negb (Text.nonempty name)); [left; reflexivity|].
  destruct text_rules_numbered as (H1 & H2 & H3 & H4 & H5 & H6 & H7 & H8).
  apply first_found_measured.
  repeat (apply Forall_cons; split;
          [split; [assumption|]; eexists; split; [|intros g; reflexivity];
           unfold size_units; simpl; tauto|]).
  apply Forall_nil. exact I.
Qed.

Lemma inches_number n :
  (6 <=? n)%Z && (n <=? 20)%Z = true -> number_text (pretty n) = true.
Proof.
  intros H. apply andb_true_iff in H. destruct H as [H1 H2].
  apply Z.leb_le in H1. apply Z.leb_le in H2.
  assert (Hall : forallb (fun k => number_text (pretty k)) (seqZ 6 15) = true)
    by (vm_compute; reflexivity).
  rewrite forallb_forall in Hall. apply Hall.
  apply list_elem_of_In, elem_of_seqZ. lia.
Qed.

Lemma parse_size_from_code_measured code v_name p_name :
  parse_size_from_code code v_name p_name = ""
  \/ measured (parse_size_from_code code v_name p_name).
Proof.
  destruct code_rules_numbered as (Hpc & Hlead & Htail & Hml & Hl).
  assert (Hu : forall ic r m u, sets ic numeric r ->
             search ic r code = Some m \/ rmatch ic r code = Some m ->
             In u size_units -> measured (group1 m ++ u)).
  { intros ic r m u Hs Hm Hin. apply measured_intro; [|exact Hin].
    exact (group1_sets ic number_char r code m Hs Hm). }
  unfold parse_size_from_code.
  destruct (negb (Text.nonempty code)); [left; reflexivity|].
  match goal with
  | |- context [match ?x with Some r => r | None => _ end] =>
      destruct x as [r|] eqn:Hinch
  end.
  { right. destruct (rmatch false rx_code_inches code) as [m|]; [|discriminate].
    match type of Hinch with
    | (if ?b && _ then _ else _) = _ => destruct b eqn:Hb
    end; [|discriminate].
    simpl in Hinch. destruct (_ || _ || _); [|discriminate].
    injection Hinch as <-.
    exists (pretty (default 0%Z (Num.parse_int (group1 m)))), Text.dquote.
    split; [reflexivity|]. split; [apply inches_number; exact Hb|].
    left. reflexivity. }
  clear Hinch.
  destruct (search true rx_code_pc code) as [m|] eqn:Hm1.
  { right. apply (Hu true rx_code_pc); [assumption | left; assumption |].
    unfold size_units; simpl; tauto. }
  destruct (found_in PIECEY_NAME_RX v_name || found_in PIECEY_NAME_RX p_name).
  - destruct (rmatch false rx_code_lead code) as [m|] eqn:Hm2.
    { right. apply (Hu false rx_code_lead); [assumption | right; assumption |].
      unfold size_units; simpl; tauto. }
    destruct (search false rx_code_tail code) as [m|] eqn:Hm3.
    { right. apply (Hu false rx_code_tail); [assumption | left; assumption |].
      unfold size_units; simpl; tauto. }
    destruct (found_in BEV_NAME_RX v_name || found_in BEV_NAME_RX p_name);
      [|left; reflexivity].
    destruct (rmatch false rx_code_ml code) as [m|] eqn:Hm4.
    { right. apply (Hu false rx_code_ml); [assumption | right; assumption |].
      unfold size_units; simpl; tauto. }
    destruct (rmatch true rx_code_l code) as [m|] eqn:Hm5; [|left; reflexivity].
    right. apply (Hu true rx_code_l); [assumption | right; assumption |].
    unfold size_units; simpl; tauto.
  - destruct (found_in BEV_NAME_RX v_name || found_in BEV_NAME_RX p_name);
      [|left; reflexivity].
    destruct (rmatch false rx_code_ml code) as [m|] eqn:Hm4.
    { right. apply (Hu false rx_code_ml); [assumption | right; assumption |].
      unfold size_units; simpl; tauto. }
    destruct (rmatch true rx_code_l code) as [m|] eqn:Hm5; [|left; reflexivity].
    right. apply (Hu true rx_code_l); [assumption | right; assumption |].
    unfold size_units; simpl; tauto.
Qed.

Lemma fallback_size_values name :
  fallback_size_from_keywords name = ""
  \/ fallback_size_from_keywords name = "Cup"
  \/ fallback_size_from_keywords name = "Bag".
Proof.
  unfold fallback_size_from_keywords.
  destruct (negb (Text.nonempty name)); [tauto|].
  destruct (found_in _ name); [tauto|].
  destruct (found_in _ name); tauto.
Qed.

End DerivedSizes.

(** X19.  The size Domino's [derive_size] gives a row.  The size field
    of the variant ([Size], else [SizeName], tidied) is returned when it
    is not empty, else that of the product.  When both are empty the
    size is read from the names and the code, and is then the empty text,
    [Cup], [Bag], or a number followed by one of the units (the inch
    mark, [ mL], [ L], [-Piece], [ pc]): [parse_size_from_text] and
    [parse_size_from_code] return nothing else. *)
Theorem derived_size_shape (v prod : Json.dict) (v_name p_name vcode : string) :
  let field d :=
    Dominos.tidy (Json.por (Json.get d "Size")
                    (Json.por (Json.get d "SizeName") (Json.JStr ""))) in
  let size := Dominos.derive_size v prod v_name p_name vcode in
  (Text.nonempty (field v) = true -> size = field v)
  /\ (Text.nonempty (field v) = false -> Text.nonempty (field prod) = true ->
      size = field prod)
  /\ (Text.nonempty (field v) = false -> Text.nonempty (field prod) = false ->
      size = "" \/ size = "Cup" \/ size = "Bag" \/ DominosSpec.measured size)
  /\ (forall name, Dominos.parse_size_from_text name = ""
                   \/ DominosSpec.measured (Dominos.parse_size_from_text name))
  /\ (forall code v_name p_name,
        Dominos.parse_size_from_code code v_name p_name = ""
        \/ DominosSpec.measured (Dominos.parse_size_from_code code v_name p_name)).
Proof.
  intros field size.
  split; [|split; [|split; [|split]]].
  - intros H. subst size. unfold Dominos.derive_size. fold (field v).
    rewrite H. cbn [negb]. rewrite H. reflexivity.
  - intros H1 H2. subst size. unfold Dominos.derive_size. fold (field v) (field prod).
    rewrite H1. cbn [negb]. rewrite H2. reflexivity.
  - intros H1 H2. subst size. unfold Dominos.derive_size. fold (field v) (field prod).
    rewrite H1. cbn [negb]. rewrite H2.
    set (Q := fun s : string =>
                s = "" \/ s = "Cup" \/ s = "Bag" \/ DominosSpec.measured s).
    assert (Hsor : forall a b, Q a -> Q b -> Q (Dominos.sor a b))
      by (intros a b Ha Hb; unfold Dominos.sor; destruct (Text.nonempty a); assumption).
    assert (Ht : forall name, Q (Dominos.parse_size_from_text name))
      by (intros name; unfold Q;
          destruct (parse_size_from_text_measured name); tauto).
    assert (Hc : forall code, Q (Dominos.parse_size_from_code code v_name p_name))
      by (intros code; unfold Q;
          destruct (parse_size_from_code_measured code v_name p_name); tauto).
    assert (Hf : forall name, Q (Dominos.fallback_size_from_keywords name))
      by (intros name; unfold Q;
          destruct (fallback_size_values name) as [E|[E|E]]; tauto).
    change (Q (if Text.nonempty (Dominos.sor (Dominos.parse_size_from_text v_name)
                                   (Dominos.parse_size_from_text p_name))
               then Dominos.sor (Dominos.parse_size_from_text v_name)
                      (Dominos.parse_size_from_text p_name)
               else if Text.nonempty
                         (Dominos.parse_size_from_code (Dominos.sor vcode "")
                            v_name p_name)
                    then Dominos.parse_size_from_code (Dominos.sor vcode "")
                           v_name p_name
                    else Dominos.sor (Dominos.fallback_size_from_keywords v_name)
                           (Dominos.fallback_size_from_keywords p_name))).
    destruct (Text.nonempty (Dominos.sor _ _)); [apply Hsor; apply Ht|].
    destruct (Text.nonempty (Dominos.parse_size_from_code _ _ _)); [apply Hc|].
    apply Hsor; apply Hf.
  - apply parse_size_from_text_measured.
  - apply parse_size_from_code_measured.
Qed.

(** X19, witness: a variant without a size field, named with its
    diameter. *)
Lemma derived_size_shape_witness :
  let v := [("Name", Json.JStr "Medium (12 inch) Hand Tossed")] in
  let prod := [("Name", Json.JStr "Pepperoni Pizza")] in
  let field d :=
    Dominos.tidy (Json.por (Json.get d "Size")
                    (Json.por (Json.get d "SizeName") (Json.JStr ""))) in
  let size :=
    Dominos.derive_size v prod "Medium (12 inch) Hand Tossed" "Pepperoni Pizza"
      "12SCREEN" in
  Text.nonempty (field v) = false
  /\ Text.nonempty (field prod) = false
  /\ size = "12" ++ Text.dquote
  /\ (size = "" \/ size = "Cup" \/ size = "Bag" \/ DominosSpec.measured size).
Proof.
  intros v prod field size.
  split; [reflexivity|]. split; [reflexivity|]. split; [vm_compute; reflexivity|].
  exact (proj1 (proj2 (proj2 (derived_size_shape v prod "Medium (12 inch) Hand Tossed"
                                "Pepperoni Pizza" "12SCREEN")))
           eq_refl eq_refl).
Defined.
